(** * CubeCobra: route handlers of the draft, cube-card and featured-queue API

  A shallow embedding of the handlers
  - [POST /redraft/:id/:seat], [POST /updatecard/:id], [POST /updatecards/:id]
    and [GET /p1p1/:id/:seed] of the cube API router, and
  - [POST /featuredcubes/unqueue] and [POST /featuredcubes/move] of
    [routes/admin_routes.js],
  together with the properties the specification states about them.

  Documents kept by the database are values in finite maps; a handler is a
  function from the request and the database to a response and the
  database it leaves behind. *)

From Stdlib Require Import ZArith QArith Lia Ascii String.
From stdpp Require Import base option gmap strings list fin_maps.

Set Warnings "-register-all".

Local Open Scope string_scope.
Local Open Scope list_scope.
Local Open Scope Z_scope.
Local Open Scope nat_scope.

(* ===================================================================== *)
(** ** JavaScript values and the built-ins the handlers call             *)
(* ===================================================================== *)

Module Js.

(** A JavaScript number. Finite values are kept as exact rationals
    (rounding and the bounds of the binary64 format are left out): the
    handlers only compare them with array lengths and zero, test them for
    integrality and use them as array indices. *)
Inductive number :=
| NaN
| PosInf
| NegInf
| Fin (q : Q).

Definition ofZ (z : Z) : number := Fin (inject_Z z).
Definition ofNat (n : nat) : number := ofZ (Z.of_nat n).

(** [Number.isInteger] *)
Definition isInteger (x : number) : bool :=
  match x with
  | Fin q => (Qnum q mod Zpos (Qden q) =? 0)%Z
  | _ => false
  end.

(** [x < y] and [x >= y]; every comparison with [NaN] is [false]. *)
Definition lt (x y : number) : bool :=
  match x, y with
  | NaN, _ | _, NaN => false
  | PosInf, _ => false
  | _, PosInf => true
  | _, NegInf => false
  | NegInf, _ => true
  | Fin p, Fin q => negb (Qle_bool q p)
  end.

Definition ge (x y : number) : bool :=
  match x, y with
  | NaN, _ | _, NaN => false
  | PosInf, _ => true
  | _, PosInf => false
  | _, NegInf => true
  | NegInf, _ => false
  | Fin p, Fin q => Qle_bool q p
  end.

(** [x * 2] *)
Definition double (x : number) : number :=
  match x with
  | Fin q => Fin (2 * q)%Q
  | other => other
  end.

(** The array index a number denotes as a property key: a non-negative
    integer; any other number names no element. *)
Definition asIndex (x : number) : option nat :=
  match x with
  | Fin q =>
      if isInteger x && (0 <=? Qnum q)%Z
      then Some (Z.to_nat (Qnum q / Zpos (Qden q)))
      else None
  | _ => None
  end.

(** [arr[x]]: [None] is [undefined]. *)
Definition at_ {A} (arr : list A) (x : number) : option A :=
  i ← asIndex x; arr !! i.

(** JSON-shaped values held in request bodies and documents. *)
Inductive value :=
| VUndefined
| VNull
| VBool (b : bool)
| VNum (x : number)
| VStr (s : string)
| VArr (xs : list value).

(** An object with own properties. *)
Abbreviation obj := (gmap string value).

(** [o.key] *)
Definition get (o : obj) (key : string) : value := default VUndefined (o !! key).

(** [Object.prototype.hasOwnProperty.call(o, key)] *)
Definition hasOwnProperty (o : obj) (key : string) : bool := bool_decide (is_Some (o !! key)).

Definition truthy (v : value) : bool :=
  match v with
  | VUndefined | VNull => false
  | VBool b => b
  | VNum NaN => false
  | VNum (Fin q) => negb (Qnum q =? 0)%Z
  | VNum _ => true
  | VStr s => negb (String.eqb s "")
  | VArr _ => true
  end.

Definition typeof (v : value) : string :=
  match v with
  | VUndefined => "undefined"
  | VNull => "object"
  | VBool _ => "boolean"
  | VNum _ => "number"
  | VStr _ => "string"
  | VArr _ => "object"
  end.

Definition isArray (v : value) : bool :=
  match v with VArr _ => true | _ => false end.

(** [v === null] *)
Definition isNull (v : value) : bool :=
  match v with VNull => true | _ => false end.

Definition sameNumber (x y : number) : bool :=
  match x, y with
  | PosInf, PosInf | NegInf, NegInf => true
  | Fin p, Fin q => Qeq_bool p q
  | _, _ => false
  end.

(** Structural comparison of two values, arrays element by element. *)
Fixpoint sameValue (a b : value) : bool :=
  match a, b with
  | VUndefined, VUndefined | VNull, VNull => true
  | VBool x, VBool y => Bool.eqb x y
  | VNum x, VNum y => sameNumber x y
  | VStr x, VStr y => String.eqb x y
  | VArr xs, VArr ys =>
      (fix all2 (xs ys : list value) : bool :=
         match xs, ys with
         | [], [] => true
         | x :: xs, y :: ys => sameValue x y && all2 xs ys
         | _, _ => false
         end) xs ys
  | _, _ => false
  end.

(** *** [parseInt(text, 10)] *)

(** White space and line terminators of one byte: TAB, LF, VT, FF, CR and
    the space. *)
Definition isWhiteSpace (a : ascii) : bool :=
  let n := nat_of_ascii a in
  ((n =? 9) || (n =? 10) || (n =? 11) || (n =? 12) || (n =? 13) || (n =? 32))%nat.

(** The no-break space U+00A0 in UTF-8. *)
Definition isWhiteSpace2 (a b : ascii) : bool :=
  ((nat_of_ascii a =? 194) && (nat_of_ascii b =? 160))%nat.

(** The white space of three bytes in UTF-8: U+1680, U+2000 to U+200A,
    U+2028, U+2029, U+202F, U+205F, U+3000 and U+FEFF. *)
Definition isWhiteSpace3 (a b c : ascii) : bool :=
  let x := nat_of_ascii a in
  let y := nat_of_ascii b in
  let z := nat_of_ascii c in
  ((x =? 225) && (y =? 154) && (z =? 128) ||
   (x =? 226) && (y =? 128) &&
     ((128 <=? z) && (z <=? 138) || (z =? 168) || (z =? 169) || (z =? 175)) ||
   (x =? 226) && (y =? 129) && (z =? 159) ||
   (x =? 227) && (y =? 128) && (z =? 128) ||
   (x =? 239) && (y =? 187) && (z =? 191))%nat.

(** The text without its leading white space (texts are UTF-8). *)
Fixpoint trimStart (s : string) : string :=
  match s with
  | String a r1 =>
      if isWhiteSpace a then trimStart r1
      else
        match r1 with
        | String b r2 =>
            if isWhiteSpace2 a b then trimStart r2
            else
              match r2 with
              | String c r3 => if isWhiteSpace3 a b c then trimStart r3 else s
              | EmptyString => s
              end
        | EmptyString => s
        end
  | EmptyString => s
  end.

Definition digitValue (a : ascii) : option Z :=
  let n := nat_of_ascii a in
  if ((48 <=? n) && (n <=? 57))%nat then Some (Z.of_nat (n - 48)) else None.

(** The value of the longest prefix of decimal digits, [None] when the
    text does not start with a digit. *)
Fixpoint digitsPrefix (s : string) (acc : option Z) : option Z :=
  match s with
  | String a r =>
      match digitValue a with
      | Some d => digitsPrefix r (Some (10 * default 0%Z acc + d)%Z)
      | None => acc
      end
  | EmptyString => acc
  end.

(** [parseInt(text, 10)]: leading white space is skipped, one sign is
    read, then the longest run of digits; no digit gives [NaN]. The
    result is the exact integer (texts beyond 2^53 round to another
    integer or to [Infinity] in JavaScript, all of them above every array
    length, as the exact value is). *)
Definition parseInt (text : string) : number :=
  let s := trimStart text in
  let '(negative, body) :=
    match s with
    | String "-" r => (true, r)
    | String "+" r => (false, r)
    | _ => (false, s)
    end in
  match digitsPrefix body None with
  | None => NaN
  | Some v => ofZ (if negative : bool then - v else v)%Z
  end.

(** *** Array methods *)

Fixpoint findIndexFrom {A} (p : A → bool) (arr : list A) (i : Z) : Z :=
  match arr with
  | [] => (-1)%Z
  | x :: rest => if p x then i else findIndexFrom p rest (i + 1)%Z
  end.

(** [arr.findIndex(p)]: the first index whose element satisfies [p],
    [-1] when there is none. *)
Definition findIndex {A} (p : A → bool) (arr : list A) : Z := findIndexFrom p arr 0.

(** [arr.splice(start, 1)] for [0 <= start]: the removed elements and the
    array that is left. *)
Definition spliceOut {A} (arr : list A) (start : nat) : list A * list A :=
  (take 1 (drop start arr), delete start arr).

(** [arr.splice(start, 0, x)] for [0 <= start]: [x] goes in before
    position [start], at the end when [start] is past it. *)
Definition spliceIn {A} (arr : list A) (start : nat) (x : A) : list A :=
  take start arr ++ x :: drop start arr.

(** [arr.slice()] copies the array itself, not the elements it holds. *)
Definition slice {A} (arr : list A) : list A := arr.

End Js.

(* ===================================================================== *)
(** ** The featured-cubes queue ([routes/admin_routes.js])               *)
(* ===================================================================== *)

Module FeaturedQueue.
Import Js.

(** A database ObjectId: a 12-byte identifier; as a JavaScript object it is
    never falsy. *)
Abbreviation ObjectId := N.

(** [a.equals(b)] *)
Definition equals (a b : ObjectId) : bool := N.eqb a b.

Record QueueEntry := {
  cubeID : ObjectId;
  ownerID : ObjectId;
}.

(** The singleton document holding the rotation schedule. *)
Record FeaturedCubes := {
  queue : list QueueEntry;
  daysBetweenRotations : Z;
}.

Definition withQueue (q : list QueueEntry) (featured : FeaturedCubes) : FeaturedCubes :=
  {| queue := q; daysBetweenRotations := daysBetweenRotations featured |}.

(** How the callback handed to [updateFeatured] ends: it throws an [Error],
    or returns a value having edited the document it was given. *)
Inductive Attempt (R : Type) :=
| Throw (message : string)
| Return (result : R) (featured : FeaturedCubes).
Arguments Throw {R} message.
Arguments Return {R} result featured.

(** The object [updateFeatured] resolves to: [{ ok, message, return }]. *)
Inductive Update (R : Type) :=
| Failed (message : string)
| Done (result : R).
Arguments Failed {R} message.
Arguments Done {R} result.

Definition ok {R} (u : Update R) : bool :=
  match u with Done _ => true | Failed _ => false end.

(** Modelled from the spec: [fq.updateFeatured] of [serverjs/featuredQueue],
    which is not among the sources. The specification describes it as
    "apply function f to the current queue snapshot, then attempt to
    persist", a compare-and-swap "with rollback on constraint violation"
    that surfaces a domain error without retrying. A handler runs alone
    against the store here, so the swap meets the version it read. *)
Definition updateFeatured {R} (f : FeaturedCubes → Attempt R) (stored : FeaturedCubes)
  : Update R * FeaturedCubes :=
  match f stored with
  | Throw message => (Failed message, stored)
  | Return result featured => (Done result, featured)
  end.

(** What an admin handler answers: the messages it flashed, the
    notifications it sent (owner and text) and the page it redirects to; or
    the exception that escaped it. *)
Inductive Reply :=
| Redirected (flashes : list (string * string)) (notifications : list (ObjectId * string))
    (url : string)
| Escaped (error : string).

Definition page : string := "/admin/featuredcubes".

(** The callback of [POST /featuredcubes/queue] for a cube that was found
    and is public. *)
Definition queueTransform (cube_id owner : ObjectId) (featured : FeaturedCubes)
  : Attempt unit :=
  let index := findIndex (λ c, equals (cubeID c) cube_id) (queue featured) in
  if negb (index =? -1)%Z then Throw "Cube is already in queue"
  else Return () (withQueue (queue featured ++ [{| cubeID := cube_id; ownerID := owner |}]) featured).

(** The callback of [POST /featuredcubes/unqueue]. *)
Definition unqueueTransform (cubeId : ObjectId) (featured : FeaturedCubes)
  : Attempt (list QueueEntry) :=
  let index := findIndex (λ c, equals (cubeID c) cubeId) (queue featured) in
  if (index =? -1)%Z then Throw "Cube not found in queue"
  else if (index <? 2)%Z then Throw "Cannot remove currently featured cube from queue"
  else
    let '(removed, rest) := spliceOut (queue featured) (Z.to_nat index) in
    Return removed (withQueue rest featured).

(** [POST /featuredcubes/unqueue]. [cubeId] is [req.body.cubeId]: [None]
    when the field is missing or empty, else the identifier the text names
    (a text naming no ObjectId equals no entry, like an identifier that is
    not queued). [req.flash] with a single argument reads messages and
    records none. *)
Definition unqueue (cubeId : option ObjectId) (stored : FeaturedCubes)
  : Reply * FeaturedCubes :=
  match cubeId with
  | None => (Redirected [] [] page, stored)
  | Some id =>
      let '(update, stored') := updateFeatured (unqueueTransform id) stored in
      match update with
      | Failed message => (Redirected [("danger", message)] [] page, stored')
      | Done [] => (Escaped "TypeError: Cannot read property 'ownerID' of undefined", stored')
      | Done (removed :: _) =>
          (Redirected []
             [(ownerID removed, "An admin removed your cube from the featured cubes queue.")]
             page, stored')
      end
  end.

(** The body of [POST /featuredcubes/move] as the validators read it:
    [from] and [to] are [None] when the text is not an integer. *)
Record MoveBody := {
  mv_cubeId : option ObjectId;
  mv_from : option Z;
  mv_to : option Z;
}.

(** The validator chain: [not().isEmpty()] on [cubeId],
    [isInt({ gt: 2 }).toInt()] on [from] and on [to]. *)
Definition moveErrors (body : MoveBody) : list string :=
  (match mv_cubeId body with Some _ => [] | None => ["Cube ID must be sent"] end) ++
  (match mv_from body with
   | Some from => if (2 <? from)%Z then [] else ["Cannot move currently featured cube"]
   | None => ["Cannot move currently featured cube"]
   end) ++
  (match mv_to body with
   | Some to => if (2 <? to)%Z then [] else ["Cannot move cube to featured position"]
   | None => ["Cannot move cube to featured position"]
   end).

(** Modelled from the spec: [flashValidationErrors] of [routes/middleware],
    not among the sources. A validation error is "surfaced to the caller as
    a rejected request, no partial mutation": every failed validator's
    message is flashed and [req.validated] tells whether there was none. *)
Definition flashValidationErrors (errors : list string) : list (string * string) * bool :=
  (map (pair "danger") errors, bool_decide (errors = [])).

(** The callback of [POST /featuredcubes/move]; [from] and [to] count from
    zero. (Past the two guards [from] is below the length, so the first
    [splice] does return the entry.) *)
Definition moveTransform (cubeId : ObjectId) (from to : Z) (featured : FeaturedCubes)
  : Attempt unit :=
  let q := queue featured in
  if (Z.of_nat (length q) <=? from)%Z then Throw "Cube is not at expected position in queue"
  else
    match at_ q (ofZ from) with
    | None => Throw "TypeError: Cannot read property 'cubeID' of undefined"
    | Some entry =>
        if negb (equals (cubeID entry) cubeId)
        then Throw "Cube is not at expected position in queue"
        else if (Z.of_nat (length q) <=? to)%Z
        then Throw "Target position is higher than cube length"
        else
          match spliceOut q (Z.to_nat from) with
          | (spliced :: _, rest) => Return () (withQueue (spliceIn rest (Z.to_nat to) spliced) featured)
          | ([], rest) => Return () (withQueue rest featured)
          end
    end.

(** [POST /featuredcubes/move]: indices are sent counting from one. *)
Definition move (body : MoveBody) (stored : FeaturedCubes) : Reply * FeaturedCubes :=
  let '(flashed, validated) := flashValidationErrors (moveErrors body) in
  if negb validated then (Redirected flashed [] page, stored)
  else
    match mv_cubeId body, mv_from body, mv_to body with
    | Some cubeId, Some from, Some to =>
        let from := (from - 1)%Z in
        let to := (to - 1)%Z in
        let '(update, stored') := updateFeatured (moveTransform cubeId from to) stored in
        match update with
        | Failed message => (Redirected [("danger", message)] [] page, stored')
        | Done _ => (Redirected [("success", "Successfully moved cube")] [] page, stored')
        end
    | _, _, _ => (Redirected flashed [] page, stored)
    end.

(** The queue's invariant: a cube is queued at most once (the [queue]
    handler refuses a cube that "is already in queue"). *)
Definition wellFormed (featured : FeaturedCubes) : Prop :=
  NoDup (cubeID <$> queue featured).

(** Sample queue: five cubes of five owners. *)
Definition sampleQueue : FeaturedCubes :=
  {| queue := [ {| cubeID := 10; ownerID := 1 |}; {| cubeID := 11; ownerID := 2 |};
                {| cubeID := 12; ownerID := 3 |}; {| cubeID := 13; ownerID := 4 |};
                {| cubeID := 14; ownerID := 5 |} ]%N;
     daysBetweenRotations := 7 |}.

End FeaturedQueue.

(* ===================================================================== *)
(** ** Editing the cards of a cube ([/updatecard], [/updatecards])       *)
(* ===================================================================== *)

Module CubeCards.
Import Js.

Abbreviation ObjectId := N.

Record User := {
  _id : ObjectId;
  username : string;
}.

(** A cube document as these handlers use it; a card is an object with the
    properties of the card schema ([cardID], [status], [cmc], [type_line],
    [colors], [tags], [finish], ...). *)
Record Cube := {
  owner : ObjectId;
  cards : list obj;
  type : value;
}.

(** The collection of cubes, by the identifier a route is given
    ([buildIdQuery] turns it into the query that names the document). *)
Abbreviation Cubes := (gmap string Cube).

(** What the handlers import and the sources do not include. *)
Class Imports := {
  (** [isCubeViewable(cube, user)] of [serverjs/cubefn.js] *)
  isCubeViewable : option Cube → User → bool;
  (** [cardsAreEquivalent(a, b)] of [serverjs/cubefn.js] *)
  cardsAreEquivalent : obj → obj → bool;
  (** [carddb.cardFromId(cardID).type] *)
  typeFromId : value → value;
  (** [Object.keys(Cube.schema.paths.cards.schema.paths)] *)
  cardSchemaPaths : list string;
  (** the type [setCubeType(cube, carddb)] computes from the cards *)
  typeOfCards : list obj → value;
}.

(** [setCubeType(cube, carddb)]: "sets the type of its input cube", as its
    test puts it. *)
Definition setCubeType `{Imports} (cube : Cube) : Cube :=
  {| owner := owner cube; cards := cards cube; type := typeOfCards (cards cube) |}.

(** A JSON answer [res.status(status).send({ success, message })], or the
    exception that escaped the handler body. *)
Inductive Response :=
| Sent (status : nat) (success : bool) (message : option string)
| Raised (error : string).

(** *** [POST /updatecard/:id] *)

(** The request: the signed-in user ([ensureAuth]), the route's [:id] and
    the body's [src] and [updated]; [None] is a value that is no object
    (a missing [src] is falsy, any other has no [index]). *)
Record UpdateCard := {
  uc_user : User;
  uc_id : string;
  uc_src : option obj;
  uc_updated : option obj;
}.

Definition isString (v : value) : bool := String.eqb (typeof v) "string".
Definition isNumber (v : value) : bool := String.eqb (typeof v) "number".

(** [v < 0], and [Number.isInteger(v * 2)], of a value that is a number. *)
Definition negative (v : value) : bool :=
  match v with VNum x => lt x (ofZ 0) | _ => false end.
Definition halfInteger (v : value) : bool :=
  match v with VNum x => isInteger (double x) | _ => false end.

(** The checks on [updated] in the guard of [/updatecard]. *)
Definition badUpdatedCard (updated : obj) : bool :=
  let f := get updated in
  (truthy (f "cardID") && negb (isString (f "cardID"))) ||
  (truthy (f "cmc") &&
     (negb (isNumber (f "cmc")) || negative (f "cmc") || negb (halfInteger (f "cmc")))) ||
  (truthy (f "status") && negb (isString (f "status"))) ||
  (truthy (f "type_line") && negb (isString (f "type_line"))) ||
  (truthy (f "colors") && negb (isArray (f "colors"))) ||
  (truthy (f "tags") && negb (isArray (f "tags"))) ||
  (truthy (f "finish") && negb (isString (f "finish"))).

(** [updated] completed from the stored card over the schema's paths, then
    stripped of the properties that are [null]. *)
Definition completeFrom (card updated : obj) (paths : list string) : obj :=
  let filled :=
    foldl (λ (u : obj) key, if hasOwnProperty u key then u else <[key := get card key]> u)
      updated paths in
  filter (λ kv, isNull kv.2 = false) filled.

Definition failed (status : nat) (message : string) : Response :=
  Sent status false (Some message).

Definition updatecard `{Imports} (req : UpdateCard) (db : Cubes) : Response * Cubes :=
  match uc_src req with
  | None => (failed 400 "Failed input validation", db)
  | Some src =>
      match get src "index" with
      | VNum index =>
          match uc_updated req with
          | None => (Raised "TypeError: Cannot read property 'cardID' of undefined", db)
          | Some updated =>
              if badUpdatedCard updated then (failed 400 "Failed input validation", db)
              else
                let cube := db !! uc_id req in
                if negb (isCubeViewable cube (uc_user req)) then (failed 404 "Cube not found", db)
                else
                  match cube with
                  | None => (Raised "TypeError: Cannot read property 'owner' of null", db)
                  | Some cube =>
                      if negb (N.eqb (_id (uc_user req)) (owner cube))
                      then (failed 401 "Insufficient permissions", db)
                      else if ge index (ofNat (length (cards cube)))
                      then (failed 400 "No such card", db)
                      else
                        match asIndex index ≫= λ i, pair i <$> cards cube !! i with
                        | None =>
                            (Raised "TypeError: Cannot read property 'type_line' of undefined", db)
                        | Some (i, card) =>
                            let card :=
                              if negb (truthy (get card "type_line"))
                              then <["type_line" := typeFromId (get card "cardID")]> card
                              else card in
                            if negb (cardsAreEquivalent src card)
                            then (failed 400 "Cards not equivalent", db)
                            else
                              let updated := completeFrom card updated cardSchemaPaths in
                              let cube :=
                                {| owner := owner cube; cards := <[i := updated]> (cards cube);
                                   type := type cube |} in
                              let cube := setCubeType cube in
                              (Sent 200 true None, <[uc_id req := cube]> db)
                        end
                  end
          end
      | _ => (failed 400 "Failed input validation", db)
      end
  end.

(** The card a request names as the handler reads it: [cards[src.index]]
    with its [type_line] looked up when the entry carries none. *)
Definition storedCard `{Imports} (cube : Cube) (index : number) : option obj :=
  card ← at_ (cards cube) index;
  Some (if negb (truthy (get card "type_line"))
        then <["type_line" := typeFromId (get card "cardID")]> card
        else card).

(** *** [POST /updatecards/:id] *)

Record UpdateCards := {
  ucs_user : User;
  ucs_id : string;
  ucs_selected : value;
  ucs_updated : option obj;
}.

(** A path [cards.<index>.<field>] of an update document. *)
Abbreviation Path := (nat * string)%type.

(** The update document sent to the database. *)
Record Updates := {
  set_ : gmap Path value;
  addToSet : option (gmap Path value);
  pullAll : option (gmap Path value);
}.

(** [[...'WUBRG'].includes(color)] *)
Definition isWUBRG (color : value) : bool :=
  match color with
  | VStr s => bool_decide (s ∈ ["W"; "U"; "B"; "R"; "G"])
  | _ => false
  end.

(** [colors.filter((color) => [...'WUBRG'].includes(color))] *)
Definition filterColors (colors : value) : value :=
  match colors with
  | VArr cs => VArr (List.filter isWUBRG cs)
  | other => other
  end.

(** [selected.some((index) => !Number.isInteger(index) || index < 0)] *)
Definition badIndex (index : value) : bool :=
  match index with
  | VNum x => negb (isInteger x) || lt x (ofZ 0)
  | _ => true
  end.

Definition badBulk (selected : value) (updated : obj) : bool :=
  let f := get updated in
  (truthy (f "cmc") && negb (isNumber (f "cmc"))) ||
  (truthy (f "status") && negb (isString (f "status"))) ||
  (truthy (f "type_line") && negb (isString (f "type_line"))) ||
  (truthy (f "colors") && negb (isArray (f "colors"))) ||
  (truthy (f "tags") && negb (isArray (f "tags"))) ||
  negb (isArray selected) ||
  match selected with VArr xs => existsb badIndex xs | _ => false end.

(** The indices of a [selected] array that passed the guard. *)
Definition indices (selected : value) : list nat :=
  match selected with
  | VArr xs => omap (λ v, match v with VNum x => asIndex x | _ => None end) xs
  | _ => []
  end.

Definition setWhen (cond : bool) (path : Path) (v : value) (m : gmap Path value)
  : gmap Path value :=
  if cond then <[path := v]> m else m.

(** One round of the loop [for (const index of selected)]. *)
Definition updateAt (updated : obj) (all : Updates) (index : nat) : Updates :=
  let f := get updated in
  let s := set_ all in
  let s := setWhen (truthy (f "status")) (index, "status") (f "status") s in
  let s := setWhen (truthy (f "cmc")) (index, "cmc") (f "cmc") s in
  let s := setWhen (truthy (f "type_line")) (index, "type_line") (f "type_line") s in
  let s := setWhen (truthy (f "colors")) (index, "colors") (filterColors (f "colors")) s in
  let s := setWhen (truthy (f "colorC")) (index, "colors") (VArr []) s in
  let s := setWhen (truthy (f "finish")) (index, "finish") (f "finish") s in
  let tagged (flag : string) (m : option (gmap Path value)) :=
    if truthy (f "tags") && truthy (f flag)
    then Some (<[(index, "tags") := f "tags"]> (default ∅ m))
    else m in
  {| set_ := s;
     addToSet := tagged "addTags" (addToSet all);
     pullAll := tagged "deleteTags" (pullAll all) |}.

(** What one round of the loop leaves at a [colors] path. *)
Definition colorsWritten (updated : obj) (old : option value) : option value :=
  if truthy (get updated "colorC") then Some (VArr [])
  else if truthy (get updated "colors") then Some (filterColors (get updated "colors"))
  else old.

Definition allUpdates (selected : list nat) (updated : obj) : Updates :=
  foldl (updateAt updated) {| set_ := ∅; addToSet := None; pullAll := None |} selected.

(** [POST /updatecards/:id]: the answer, and the update document handed to
    [cube.updateOne] when the request gets that far. *)
Definition updatecards `{Imports} (req : UpdateCards) (db : Cubes) : Response * option Updates :=
  match ucs_updated req with
  | None => (Raised "TypeError: Cannot read property 'cmc' of undefined", None)
  | Some updated =>
      if badBulk (ucs_selected req) updated then (failed 400 "Failed input validation", None)
      else
        let cube := db !! ucs_id req in
        if negb (isCubeViewable cube (ucs_user req)) then (failed 404 "Cube not found", None)
        else
          match cube with
          | None => (Raised "TypeError: Cannot read property 'owner' of null", None)
          | Some cube =>
              if negb (N.eqb (_id (ucs_user req)) (owner cube))
              then (failed 403 "Unauthorized", None)
              else (Sent 200 true None, Some (allUpdates (indices (ucs_selected req)) updated))
          end
  end.

(** A colors value within the color alphabet: an array of the letters
    W, U, B, R, G only. *)
Definition withinWUBRG (colors : value) : Prop :=
  ∃ cs, colors = VArr cs ∧ Forall (λ c, ∃ s, c = VStr s ∧ s ∈ ["W"; "U"; "B"; "R"; "G"]) cs.

(** The database's [$set] seen from one card's [colors]: the field takes
    the value the document gives for its path and keeps its own when the
    path is not mentioned. *)
Definition colorsAfter (u : Updates) (index : nat) (before : value) : value :=
  default before (set_ u !! (index, "colors")).

(** *** Sample data *)

Definition sampleImports : Imports :=
  {| isCubeViewable := λ cube _, bool_decide (is_Some cube);
     cardsAreEquivalent := λ a b,
       sameValue (get a "cardID") (get b "cardID") && sameValue (get a "cmc") (get b "cmc");
     typeFromId := λ _, VStr "Creature";
     cardSchemaPaths := ["cardID"; "status"; "cmc"; "type_line"; "colors"; "tags"; "finish"];
     typeOfCards := λ _, VStr "Vintage" |}.

Definition alice : User := {| _id := 1%N; username := "alice" |}.

Definition hound : obj :=
  {[ "cardID" := VStr "abcdef"; "cmc" := VNum (ofZ 1); "type_line" := VStr "Creature - Hound" ]}.

Definition sampleCubes : Cubes :=
  {[ "cube1" := {| owner := 1%N; cards := [hound; hound]; type := VStr "Vintage" |} ]}.

Definition recolor : obj := {[ "colors" := VArr [VStr "W"; VStr "X"; VStr "G"] ]}.

Definition sampleBulk : UpdateCards :=
  {| ucs_user := alice; ucs_id := "cube1";
     ucs_selected := VArr [VNum (ofZ 0); VNum (ofZ 1)];
     ucs_updated := Some recolor |}.

End CubeCards.

(* ===================================================================== *)
(** ** Redrafting a finished draft ([POST /redraft/:id/:seat])           *)
(* ===================================================================== *)

Module Redraft.
Import Js.

Abbreviation ObjectId := N.

Record User := {
  _id : ObjectId;
  username : string;
}.

(** Card metadata the card index returns for an identifier. *)
Record Details := {
  name_lower : string;
  elo : Z;
}.

(** An entry of a draft's flattened card pool. *)
Record Card := {
  cardID : string;
  details : option Details;
}.

(** Cards taken, as indices into the draft's [cards]. *)
Abbreviation Pool := (list nat).

Record Seat := {
  bot : option (list string);
  name : string;
  userid : option ObjectId;
  drafted : Pool;
  sideboard : Pool;
  pickorder : list nat;
  trashorder : list nat;
}.

(** A draft document; [initial_state] holds, seat by seat, the packs dealt
    at the start. *)
Record Draft := {
  cube : ObjectId;
  seats : list Seat;
  basics : list nat;
  initial_state : list (list (list nat));
  cards : list Card;
}.

Record Cube := {
  useCubeElo : bool;
}.

(** The collections the handler reads and writes. [analytics] holds, by
    cube, the [cards] of its [CubeAnalytic] document as pairs of a card
    name and a rating. *)
Record Db := {
  drafts : gmap ObjectId Draft;
  cubes : gmap ObjectId Cube;
  analytics : gmap ObjectId (list (string * Z));
}.

Record Request := {
  params_id : string;
  params_seat : string;
  user : option User;
}.

(** What the handler imports and the sources do not include. *)
Class Imports := {
  (** [isCubeViewable(cube, user)] of [serverjs/cubefn.js] *)
  isCubeViewable : option Cube → option User → bool;
  (** the ObjectId a route parameter is cast to by [findById]; [None]
      when the cast fails and [findById] rejects *)
  castObjectId : string → option ObjectId;
  (** [carddb.cardFromId(cardID)] *)
  cardFromId : string → Details;
}.

Inductive Response :=
| Redirect (flashes : list (string * string)) (url : string)
| Sent (draft : Draft)
| RouteError (url : string).

(** Modelled from the spec: [createPool] of the router's [helper] module,
    which is not among the sources. A fresh seat's "drafted/sideboard/
    pick-order/trash-order" are "empty ordered sequences". *)
Definition createPool : Pool := [].

(** One step of a left rotation: the first element goes to the end. *)
Definition rotateOnce {A} (arr : list A) : list A :=
  match arr with
  | [] => []
  | x :: rest => rest ++ [x]
  end.

(** Modelled from the spec: [rotateArrayLeft] of the router's [helper]
    module, which is not among the sources. It "performs a left rotation
    of the seat array by [seatIndex] positions: the seat that was at
    [seatIndex] moves to position 0". *)
Definition rotateArrayLeft {A} (arr : list A) (positions : nat) : list A :=
  Nat.iter positions rotateOnce arr.

(** *** Seat objects behind references

    [srcDraft] is a lean snapshot of the stored draft: an array of
    references to seat objects. [srcDraft.seats.slice()] copies the array
    and not the objects. Whether the [seats] setter of the new document
    then copies the objects is decided by the Draft model, which is not
    among the sources; the embedding takes the reading under which nothing
    is copied, and the assignments through [draft.seats[i]] write to the
    objects both arrays point at. What is proved of the saved draft and of
    the store holds as well when the setter copies. A reference is the
    position of the object in the snapshot. *)
Abbreviation Heap := (list Seat).
Abbreviation Ref := nat.

(** [arr[i].field = ...]: [None] when [arr[i]] is [undefined]. *)
Definition assign (h : Heap) (arr : list Ref) (i : nat) (f : Seat → Seat) : option Heap :=
  r ← arr !! i; Some (alter f r h).

Definition setBot (b : option (list string)) (s : Seat) : Seat :=
  {| bot := b; name := name s; userid := userid s; drafted := drafted s;
     sideboard := sideboard s; pickorder := pickorder s; trashorder := trashorder s |}.

(** The body of the loop over [draft.seats]. *)
Definition resetSeat (s : Seat) : Seat :=
  {| bot := Some []; name := name s; userid := userid s; drafted := createPool;
     sideboard := createPool; pickorder := []; trashorder := [] |}.

(** The three assignments to [draft.seats[0]]. *)
Definition seatViewer (viewer : option User) (s : Seat) : Seat :=
  {| bot := None;
     name := match viewer with Some u => username u | None => "Anonymous" end;
     userid := match viewer with Some u => Some (_id u) | None => None end;
     drafted := drafted s; sideboard := sideboard s;
     pickorder := pickorder s; trashorder := trashorder s |}.

(** [for (let i = 0; i < draft.seats.length; i += 1) { ... }] *)
Definition resetSeats (h : Heap) (arr : list Ref) : option Heap :=
  foldl (λ acc i, h ← acc; assign h arr i resetSeat) (Some h) (seq 0 (length arr)).

(** The document built between [new Draft()] and [draft.save()], read off
    the seat objects when it is saved; [None] when an assignment throws. *)
Definition build (srcDraft : Draft) (seat : number) (viewer : option User) : option Draft :=
  let heap : Heap := seats srcDraft in
  let srcSeats : list Ref := seq 0 (length heap) in
  k ← asIndex seat;
  let dseats := rotateArrayLeft (slice srcSeats) k in
  heap ← assign heap dseats k (setBot None);
  heap ← resetSeats heap dseats;
  heap ← assign heap dseats 0 (seatViewer viewer);
  saved ← mapM (λ r, heap !! r) dseats;
  Some {| cube := cube srcDraft; seats := saved; basics := basics srcDraft;
          initial_state := slice (initial_state srcDraft); cards := cards srcDraft |}.

(** [fromEntries]: a later pair for a key replaces an earlier one. *)
Definition fromEntries (entries : list (string * Z)) : gmap string Z :=
  list_to_map (reverse entries).

(** [card.details = carddb.cardFromId(card.cardID)], with the cube's own
    rating when there is a non-zero one. *)
Definition insertDetails `{Imports} (eloOverrideDict : gmap string Z) (card : Card) : Card :=
  let d := cardFromId (cardID card) in
  let d :=
    match eloOverrideDict !! name_lower d with
    | Some e => if (e =? 0)%Z then d else {| name_lower := name_lower d; elo := e |}
    | None => d
    end in
  {| cardID := cardID card; details := Some d |}.

Definition withCards (cs : list Card) (d : Draft) : Draft :=
  {| cube := cube d; seats := seats d; basics := basics d;
     initial_state := initial_state d; cards := cs |}.

(** The pages the handler redirects to; [playtestPage] is the one handed to
    [util.handleRouteError], there with the identifier URI-encoded. *)
Definition deckPage (req : Request) : string := ("/cube/deck/" ++ params_id req)%string.
Definition playtestPage (req : Request) : string := ("/cube/playtest/" ++ params_id req)%string.

(** The identifier [new Draft()] receives: one no stored draft has. *)
Definition newId (db : Db) : ObjectId := fresh (dom (drafts db)).

(** [draft.save()] *)
Definition save (id : ObjectId) (draft : Draft) (db : Db) : Db :=
  {| drafts := <[id := draft]> (drafts db); cubes := cubes db; analytics := analytics db |}.

(** [POST /redraft/:id/:seat]. An exception inside the [try] block ends in
    [util.handleRouteError]. *)
Definition redraft `{Imports} (req : Request) (db : Db) : Response * Db :=
  match castObjectId (params_id req) with
  | None => (RouteError (playtestPage req), db)
  | Some id =>
      let seat := parseInt (params_seat req) in
      match drafts db !! id with
      | None => (Redirect [("danger", "This deck is not able to be redrafted.")] (deckPage req), db)
      | Some srcDraft =>
          if negb (isInteger seat) || lt seat (ofZ 0) || ge seat (ofNat (length (seats srcDraft)))
          then (Redirect [("dange", "Did not give a valid seat number to redraft as.")]
                  (deckPage req), db)
          else
            let cube_id := cube srcDraft in
            let cube := cubes db !! cube_id in
            if negb (isCubeViewable cube (user req))
            then (Redirect [("danger", "The cube that this deck belongs to no longer exists.")]
                    (deckPage req), db)
            else
              match build srcDraft seat (user req) with
              | None => (RouteError (playtestPage req), db)
              | Some draft =>
                  let draft_id := newId db in
                  let db := save draft_id draft db in
                  match cube with
                  | None => (RouteError (playtestPage req), db)
                  | Some c =>
                      let eloOverrideDict :=
                        if useCubeElo c
                        then match analytics db !! cube_id with
                             | Some entries => fromEntries entries
                             | None => ∅
                             end
                        else ∅ in
                      match drafts db !! draft_id with
                      | None => (RouteError (playtestPage req), db)
                      | Some stored =>
                          (Sent (withCards (insertDetails eloOverrideDict <$> cards stored) stored), db)
                      end
                  end
              end
      end
  end.

(** Modelled from the spec: the lifecycle state of a draft session, which
    no line of the handler reads. A session "becomes immutable
    ('complete') once all seats finish"; a seat has finished when every
    card of the packs it was dealt is in its pick order or its trash
    order. *)
Definition seatFinished (s : Seat) (packs : list (list nat)) : bool :=
  (length (pickorder s) + length (trashorder s) =? length (concat packs))%nat.

(** Modelled from the spec: a draft session is complete when every seat
    has finished, seat by seat against the packs of [initial_state]. *)
Definition complete (d : Draft) : bool :=
  forallb (λ sp, seatFinished sp.1 sp.2) (zip (seats d) (initial_state d)).

(** Modelled from the spec: the seat a parameter names when it is "a
    zero-based integer" written out, which the handler never asks for: the
    integer a text spells in decimal digits, with an optional minus sign
    and nothing before or after; [None] for any other text. *)
Fixpoint digitsOnly (s : string) (acc : Z) : option Z :=
  match s with
  | EmptyString => Some acc
  | String a rest => d ← digitValue a; digitsOnly rest (10 * acc + d)%Z
  end.

Definition integerSeat (text : string) : option Z :=
  match text with
  | EmptyString => None
  | String "-" EmptyString => None
  | String "-" rest => Z.opp <$> digitsOnly rest 0
  | _ => digitsOnly text 0
  end.

(** The seat expected at position [j] of a redraft, made from the source
    seat that was rotated there. *)
Definition redraftedSeat (viewer : option User) (j : nat) (source : Seat) : Seat :=
  if decide (j = 0)
  then seatViewer viewer (resetSeat source)
  else resetSeat source.

(** The draft a redraft of [srcDraft] from seat [k] is to produce: the
    seats rotated left by [k], each reset, the first one the viewer's;
    cube, basics, packs and card pool as in the source. *)
Definition redrafted (srcDraft : Draft) (k : nat) (viewer : option User) : Draft :=
  {| cube := cube srcDraft;
     seats := imap (redraftedSeat viewer) (drop k (seats srcDraft) ++ take k (seats srcDraft));
     basics := basics srcDraft;
     initial_state := initial_state srcDraft;
     cards := cards srcDraft |}.

(** The answer to a seat parameter that is no seat of the draft. *)
Definition seatRefused (req : Request) : Response :=
  Redirect [("dange", "Did not give a valid seat number to redraft as.")] (deckPage req).

(** *** Sample data *)

Definition sampleImports : Imports :=
  {| isCubeViewable := λ c _, bool_decide (is_Some c);
     castObjectId := λ s, match parseInt s with
                          | Fin q => if (0 <=? Qnum q)%Z then Some (Z.to_N (Qnum q)) else None
                          | _ => None
                          end;
     cardFromId := λ id, {| name_lower := id; elo := 1200 |} |}.

Definition sampleSeat (who : string) (picks : list nat) : Seat :=
  {| bot := Some ["W"; "U"]; name := who; userid := None; drafted := picks;
     sideboard := []; pickorder := picks; trashorder := [] |}.

Definition samplePool : list Card :=
  (λ id, {| cardID := id; details := None |}) <$> ["c0"; "c1"; "c2"; "c3"; "c4"; "c5"; "c6"; "c7"].

(** Four seats A, B, C, D, two cards dealt to each. *)
Definition sampleDraft (seats : list Seat) : Draft :=
  {| cube := 7%N; seats := seats; basics := [];
     initial_state := [[[0; 1]]; [[2; 3]]; [[4; 5]]; [[6; 7]]]; cards := samplePool |}.

Definition finishedDraft : Draft :=
  sampleDraft [sampleSeat "A" [0; 3]; sampleSeat "B" [2; 5];
               sampleSeat "C" [4; 7]; sampleSeat "D" [6; 1]].

Definition startedDraft : Draft :=
  sampleDraft [sampleSeat "A" [0]; sampleSeat "B" [2]; sampleSeat "C" [4]; sampleSeat "D" [6]].

Definition sampleDb : Db :=
  {| drafts := {[ 40%N := finishedDraft; 41%N := startedDraft ]};
     cubes := {[ 7%N := {| useCubeElo := false |} ]};
     analytics := ∅ |}.

Definition viewer : User := {| _id := 99%N; username := "carol" |}.

End Redraft.

(* ===================================================================== *)
(** ** Pack generation and [GET /p1p1/:id/:seed]                         *)
(* ===================================================================== *)

Module Packs.

(** Card metadata of the card index; the identifier is the only key. *)
Record Card := {
  card_id : string;
  card_name : string;
  rarity : string;
}.

Definition sameCard (a b : Card) : bool := String.eqb (card_id a) (card_id b).

(** A slot of a pack template: a selection predicate and the predicate to
    fall back on, both over a card's metadata and the cards already chosen
    for the pack. *)
Record SlotRule := {
  primaryPredicate : Card → list Card → bool;
  fallbackPredicate : Card → list Card → bool;
}.

(** The snapshot of a cube a pack is generated from. *)
Record Cube := {
  pool : list Card;
  template : list SlotRule;
}.

Inductive Failure :=
| InsufficientCardsError (slot : nat) (poolSize : nat).

(** Modelled from the spec: the seeded generator behind [generatePack],
    not among the sources: "deterministic pseudo-random generator keyed by
    an explicit seed value; same seed + same inputs ⇒ identical output
    sequence", together with the ambient entropy ("high-entropy
    timestamp/random composite") a fresh seed is minted from. *)
Class SeededRng := {
  RngState : Type;
  Entropy : Type;
  (** the generator's state for a seed *)
  seeded : string → RngState;
  (** one draw: a number and the state that follows *)
  draw : RngState → nat * RngState;
  (** a fresh seed out of clock and randomness *)
  mintSeed : Entropy → string;
}.

(** Modelled from the spec: the candidates of a slot, the pool filtered
    by a predicate "excluding alreadyChosenInPack". *)
Definition candidates (pool : list Card) (predicate : Card → list Card → bool)
    (alreadyChosen : list Card) : list Card :=
  List.filter (λ c, predicate c alreadyChosen && negb (existsb (sameCard c) alreadyChosen)) pool.

(** Modelled from the spec: the selection of one element of a non-empty
    candidate list, "consuming exactly one RNG draw". *)
Definition pick `{SeededRng} (first : Card) (others : list Card) (rng : RngState)
  : Card * RngState :=
  let '(n, rng') := draw rng in
  (nth (n mod S (length others)) (first :: others) first, rng').

(** Modelled from the spec: [resolveSlot(pool, slotRule, alreadyChosenInPack)]
    of the pack template resolver, which is not among the sources. It
    filters the pool by the primary predicate "excluding
    alreadyChosenInPack", selects one candidate "consuming exactly one RNG
    draw", re-filters by the fallback predicate when there is no candidate,
    and fails with [InsufficientCardsError] "naming the slot index and the
    pool size" when there is still none. *)
Definition resolveSlot `{SeededRng} (pool : list Card) (slotIndex : nat) (slotRule : SlotRule)
    (alreadyChosen : list Card) (rng : RngState) : Failure + Card * RngState :=
  match candidates pool (primaryPredicate slotRule) alreadyChosen with
  | first :: others => inr (pick first others rng)
  | [] =>
      match candidates pool (fallbackPredicate slotRule) alreadyChosen with
      | first :: others => inr (pick first others rng)
      | [] => inl (InsufficientCardsError slotIndex (length pool))
      end
  end.

(** Modelled from the spec: the loop of [generatePack] over the template,
    "slot-by-slot", left to right, "accumulating the per-pack alreadyChosen
    set"; the chosen cards come out in slot order. *)
Fixpoint resolveSlots `{SeededRng} (pool : list Card) (slotIndex : nat) (slots : list SlotRule)
    (alreadyChosen : list Card) (rng : RngState) : Failure + list Card :=
  match slots with
  | [] => inr alreadyChosen
  | slotRule :: rest =>
      match resolveSlot pool slotIndex slotRule alreadyChosen rng with
      | inl failure => inl failure
      | inr (card, rng') => resolveSlots pool (S slotIndex) rest (alreadyChosen ++ [card]) rng'
      end
  end.

(** What [generatePack] resolves to: [{ seed, pack }]. *)
Record Generated := {
  seed : string;
  pack : list Card;
}.

(** The [seed] argument: [None] is [false] or omitted; an empty text is
    falsy as well. *)
Definition seedGiven (seedArg : option string) : option string :=
  match seedArg with
  | Some s => if String.eqb s "" then None else Some s
  | None => None
  end.

(** Modelled from the spec: [generatePack(cube, cardIndex, seed)] of
    [serverjs/cubefn.js], which is not among the sources. "If seed is
    falsy/omitted, a fresh seed is minted"; the generator is initialised
    from the seed, the template is resolved slot by slot, and the result is
    "the ordered list of chosen cards together with the seed used"; a
    failure of a slot is passed on "without partial results". *)
Definition generatePack `{SeededRng} (cube : Cube) (seedArg : option string) (ambient : Entropy)
  : Failure + Generated :=
  let seed := match seedGiven seedArg with Some s => s | None => mintSeed ambient end in
  match resolveSlots (pool cube) 0 (template cube) [] (seeded seed) with
  | inl failure => inl failure
  | inr chosen => inr {| seed := seed; pack := chosen |}
  end.

(** The answers of [GET /p1p1/:id/:seed]: 404, the pack with the seed of
    the route, or the error of a handler body that threw. *)
Inductive Response :=
| NotFound
| PackSent (seed : string) (names : list string)
| Rejected (failure : Failure)
| Raised (error : string).

(** [GET /p1p1/:id/:seed]: [cube] is what [Cube.findById] found and
    [viewable] what [isCubeViewable] said of it. *)
Definition p1p1Seed `{SeededRng} (cube : option Cube) (viewable : bool) (seedParam : string)
    (ambient : Entropy) : Response :=
  if negb viewable then NotFound
  else
    match cube with
    | None => Raised "TypeError: Cannot read property of null"
    | Some c =>
        match generatePack c (Some seedParam) ambient with
        | inl failure => Rejected failure
        | inr result => PackSent seedParam (card_name <$> pack result)
        end
    end.

(** *** Sample data: a linear congruential generator, the clock as the
    ambient entropy *)

Definition textValue (s : string) : N :=
  foldr (λ a acc, (N_of_ascii a + 31 * acc) mod 65521)%N 7%N (list_ascii_of_string s).

Definition sampleRng : SeededRng :=
  {| RngState := N;
     Entropy := nat;
     seeded := textValue;
     draw := λ st, let next := ((st * 75 + 74) mod 65537)%N in (N.to_nat (next mod 1000), next);
     mintSeed := λ clock, String (ascii_of_nat (65 + clock mod 26)) "seed" |}.

Definition rare (name : string) : Card :=
  {| card_id := name; card_name := name; rarity := "rare" |}.
Definition common (name : string) : Card :=
  {| card_id := name; card_name := name; rarity := "common" |}.

Definition ofRarity (r : string) : SlotRule :=
  {| primaryPredicate := λ c _, String.eqb (rarity c) r;
     fallbackPredicate := λ _ _, true |}.

Definition sampleCube : Cube :=
  {| pool := [rare "Embercleave"; common "Shock"; common "Opt"; rare "Oko"; common "Duress"];
     template := [ofRarity "rare"; ofRarity "common"; ofRarity "common"] |}.

End Packs.

(* ===================================================================== *)
(** ** More of the featured-cubes pages ([routes/admin_routes.js])       *)
(* ===================================================================== *)

Module FeaturedAdmin.
Import Js FeaturedQueue.

(** A cube document as the featured-cubes handlers read it. *)
Record Cube := {
  _id : ObjectId;
  owner : ObjectId;
  isPrivate : bool;
}.

(** [String(id)] of an ObjectId: 24 hexadecimal digits. *)
Definition hexDigit (n : N) : ascii :=
  ascii_of_N (if (n <? 10)%N then 48 + n else 87 + n)%N.

Fixpoint hexDigits (count : nat) (n : N) (acc : string) : string :=
  match count with
  | O => acc
  | S count => hexDigits count (n / 16)%N (String (hexDigit (n mod 16)%N) acc)
  end.

Definition toHexString (id : ObjectId) : string := hexDigits 24 id "".

(** [POST /featuredcubes/queue]. [cubeId] is the text of [req.body.cubeId]
    (empty when the field is missing) and [findOne] the collection of cubes
    seen through [Cube.findOne(buildIdQuery(...))]. *)
Definition queueCube (findOne : string → option Cube) (cubeId : string)
    (stored : FeaturedCubes) : Reply * FeaturedCubes :=
  if String.eqb cubeId "" then (Redirected [("danger", "Cube ID not sent")] [] page, stored)
  else
    match findOne cubeId with
    | None => (Redirected [("danger", "Cube does not exist")] [] page, stored)
    | Some cube =>
        if isPrivate cube
        then (Redirected [("danger", "Cannot feature private cube")] [] page, stored)
        else
          let '(update, stored') :=
            updateFeatured (queueTransform (_id cube) (owner cube)) stored in
          match update with
          | Failed message => (Redirected [("danger", message)] [] page, stored')
          | Done _ =>
              (Redirected []
                 [(owner cube, "An admin added your cube to the featured cubes queue.")]
                 page, stored')
          end
    end.

(** What [POST /featuredcubes/setperiod/:days] sends. *)
Inductive PeriodAnswer :=
| PeriodSet (period : Z)
| PeriodRefused (status : nat) (message : string).

(** The integer a number is, for a number that [Number.isInteger] accepts. *)
Definition integerOf (x : number) : option Z :=
  match x with
  | Fin q => if isInteger x then Some (Qnum q / Zpos (Qden q))%Z else None
  | _ => None
  end.

(** [POST /featuredcubes/setperiod/:days]; what [updateFeatured] resolves to
    is not looked at. *)
Definition setperiod (daysParam : string) (stored : FeaturedCubes)
  : PeriodAnswer * FeaturedCubes :=
  match integerOf (parseInt daysParam) with
  | None => (PeriodRefused 400 "Days between rotations must be an integer", stored)
  | Some days =>
      let '(_, stored') :=
        updateFeatured
          (λ featured, Return () {| queue := queue featured; daysBetweenRotations := days |})
          stored in
      (PeriodSet days, stored')
  end.

(** The loop of [GET /featuredcubes] over the queue: the cube found for an
    entry goes to the end of [sorted], an entry without one is flashed. *)
Definition listEntry (cubes : list Cube) (acc : list (string * string) * list Cube)
    (entry : QueueEntry) : list (string * string) * list Cube :=
  match List.find (λ c, equals (_id c) (cubeID entry)) cubes with
  | None =>
      (acc.1 ++ [("danger",
                  ("Non-existent cube " ++ toHexString (cubeID entry) ++ " set as featured")%string)],
       acc.2)
  | Some found => (acc.1, acc.2 ++ [found])
  end.

(** [GET /featuredcubes]: the messages flashed and the cubes handed to the
    page. [collection] is the collection of cubes in the order the database
    yields it, [Cube.find({ _id: { $in: ids } })] the part of it whose
    identifier is queued. *)
Definition featuredcubes (collection : list Cube) (featured : FeaturedCubes)
  : list (string * string) * list Cube :=
  let ids := cubeID <$> queue featured in
  let cubes := List.filter (λ c, bool_decide (_id c ∈ ids)) collection in
  foldl (listEntry cubes) ([], []) (queue featured).

(** Sample data: the cubes 10 to 13 exist, 14 does not; 20 is private. *)
Definition sampleCollection : list Cube :=
  [ {| _id := 12; owner := 3; isPrivate := false |};
    {| _id := 10; owner := 1; isPrivate := false |};
    {| _id := 30; owner := 9; isPrivate := false |};
    {| _id := 13; owner := 4; isPrivate := false |};
    {| _id := 11; owner := 2; isPrivate := false |} ]%N.

Definition sampleFindOne (text : string) : option Cube :=
  if String.eqb text "cube30" then Some {| _id := 30; owner := 9; isPrivate := false |}%N
  else if String.eqb text "cube12" then Some {| _id := 12; owner := 3; isPrivate := false |}%N
  else if String.eqb text "cube20" then Some {| _id := 20; owner := 8; isPrivate := true |}%N
  else None.

End FeaturedAdmin.

(* ===================================================================== *)
(** ** Terms for the properties of [/updatecard] and [/updatecards]       *)
(* ===================================================================== *)

Module CubeCardsTerms.
Import Js CubeCards.

(** The position a request to [/updatecard] names by [src.index], when the
    number is the index of an array element. *)
Definition namedIndex (req : UpdateCard) : option nat :=
  src ← uc_src req;
  match get src "index" with
  | VNum index => asIndex index
  | _ => None
  end.

(** The fields [/updatecards] copies as they are sent. *)
Definition plainFields : list string := ["status"; "cmc"; "type_line"; "finish"].

(** A body for [/updatecards] that sets a status, asks for mana value 0 and
    adds a tag. *)
Definition restatus : obj :=
  {[ "status" := VStr "Owned"; "cmc" := VNum (ofZ 0); "tags" := VArr [VStr "New"];
     "addTags" := VBool true ]}.

Definition sampleRestatus : UpdateCards :=
  {| ucs_user := alice; ucs_id := "cube1";
     ucs_selected := VArr [VNum (ofZ 1)];
     ucs_updated := Some restatus |}.

(** A request to [/updatecard] for the second card of the sample cube:
    a new status, and the mana value taken away. *)
Definition sampleUpdate : UpdateCard :=
  {| uc_user := alice; uc_id := "cube1";
     uc_src := Some (<["index" := VNum (ofZ 1)]> hound);
     uc_updated := Some {[ "status" := VStr "Owned"; "cmc" := VNull ]} |}.

(** What an update document carries under [$addToSet] or [$pullAll] for
    the flag [addTags] or [deleteTags]: nothing at all, or the sent tags at
    the [tags] path of every selected index and at no other path. *)
Definition tagsSent (updated : obj) (flag : string) (selected : list nat)
    (part : option (gmap Path value)) : Prop :=
  if truthy (get updated "tags") && truthy (get updated flag) && bool_decide (selected ≠ [])
  then ∃ m, part = Some m ∧
         ∀ j f, m !! (j, f) =
           if bool_decide (j ∈ selected ∧ f = "tags") then Some (get updated "tags") else None
  else part = None.

End CubeCardsTerms.

(* ===================================================================== *)
(** ** Cube settings ([POST /settings/:id])                               *)
(* ===================================================================== *)

Module CubeSettings.
Import Js.

Abbreviation ObjectId := N.

(** A cube document: its owner, the three indicators the handler reads or
    writes, and its other fields by name. *)
Record Cube := {
  owner : ObjectId;
  isListed : bool;
  isPrivate : bool;
  isFeatured : bool;
  fields : obj;
}.

Abbreviation Cubes := (gmap string Cube).

(** What the route imports and the sources do not include. *)
Class Imports := {
  (** [isCubeViewable(cube, user)] of [serverjs/cubefn.js] *)
  isCubeViewable : option Cube → CubeCards.User → bool;
  (** [isInFeaturedQueue(cube)] of [serverjs/featuredQueue] *)
  isInFeaturedQueue : Cube → bool;
  (** the sanitizer [toBoolean()] of express-validator, from the value of a
      field of the body ([undefined] when the body lacks the field) to the
      value it leaves there *)
  toBoolean : value → value;
  (** the validator [isIn(options)] of express-validator on the value of a
      field of the body *)
  isIn : list string → value → bool;
}.

(** A request as the route receives it. *)
Record Settings := {
  s_user : CubeCards.User;
  s_id : string;
  s_body : obj;
}.

(** The answer of the route: that of the handler, or that of
    [jsonValidationErrors] when the validation chain recorded errors. The
    middleware module is not among the sources; of its answer the messages
    of the failed validators are kept. *)
Inductive Answer :=
| Answered (response : CubeCards.Response)
| Invalid (errors : list string).

(** [body('privatePrices').toBoolean()], [body('disableNotifications').toBoolean()]:
    the sanitizers write what they make of the two fields into the body. *)
Definition sanitized `{Imports} (body : obj) : obj :=
  <["disableNotifications" := toBoolean (get body "disableNotifications")]>
    (<["privatePrices" := toBoolean (get body "privatePrices")]> body).

(** The messages of the three [isIn] validators that fail, in the order of
    the chain. *)
Definition validationErrors `{Imports} (body : obj) : list string :=
  (if isIn ["Owned"; "Not Owned"] (get body "defaultStatus") then []
   else ["Status must be valid."]) ++
  (if isIn ["recent"; "first"] (get body "defaultPrinting") then []
   else ["Printing must be valid."]) ++
  (if isIn ["public"; "unlisted"; "private"] (get body "visibility") then []
   else ["Visibility must be valid"]).

Definition settingsFields : list string :=
  ["privatePrices"; "defaultStatus"; "defaultPrinting"; "disableNotifications"; "useCubeElo"].

(** [v === undefined] *)
Definition isUndefined (v : value) : bool :=
  match v with VUndefined => true | _ => false end.

Definition withFields (fs : obj) (cube : Cube) : Cube :=
  {| owner := owner cube; isListed := isListed cube; isPrivate := isPrivate cube;
     isFeatured := isFeatured cube; fields := fs |}.

(** [if (update[field] !== undefined) { cube[field] = update[field]; }] *)
Definition assignField (update : obj) (cube : Cube) (field : string) : Cube :=
  if isUndefined (get update field) then cube
  else withFields (<[field := get update field]> (fields cube)) cube.

(** [cube.isListed = listed; cube.isPrivate = private;] *)
Definition setVisibility (listed private : bool) (cube : Cube) : Cube :=
  {| owner := owner cube; isListed := listed; isPrivate := private;
     isFeatured := isFeatured cube; fields := fields cube |}.

Definition refusal : string * string :=
  ("danger", "Cannot set a cube in featured queue as private").

(** [switch (req.body.visibility)]: the cube and what is flashed. *)
Definition applyVisibility `{Imports} (visibility : value) (cube : Cube)
  : Cube * list (string * string) :=
  match visibility with
  | VStr v =>
      if String.eqb v "private"
      then if isFeatured cube || isInFeaturedQueue cube
           then (cube, [refusal])
           else (setVisibility false true cube, [])
      else if String.eqb v "unlisted" then (setVisibility false false cube, [])
      else if String.eqb v "public" then (setVisibility true false cube, [])
      else (cube, [])
  | _ => (cube, [])
  end.

(** The handler of the route, on the body the chain has left: the answer,
    the messages flashed and the store. *)
Definition settingsHandler `{Imports} (user : CubeCards.User) (id : string) (update : obj)
    (db : Cubes) : CubeCards.Response * list (string * string) * Cubes :=
  let cube := db !! id in
  if negb (isCubeViewable cube user)
  then (CubeCards.failed 404 "Cube Not Found", [], db)
  else
    match cube with
    | None => (CubeCards.Raised "TypeError: Cannot read property 'owner' of null", [], db)
    | Some cube =>
        if negb (N.eqb (CubeCards._id user) (owner cube))
        then (CubeCards.failed 403 "Unauthorized", [], db)
        else
          let cube := foldl (assignField update) cube settingsFields in
          let '(cube, flashes) := applyVisibility (get update "visibility") cube in
          (CubeCards.Sent 200 true None, flashes, <[id := cube]> db)
    end.

(** [POST /settings/:id]: the two sanitizers, the three validators,
    [jsonValidationErrors], then the handler. *)
Definition settings `{Imports} (req : Settings) (db : Cubes)
  : Answer * list (string * string) * Cubes :=
  let body := sanitized (s_body req) in
  match validationErrors body with
  | [] =>
      let '(response, flashes, db) := settingsHandler (s_user req) (s_id req) body db in
      (Answered response, flashes, db)
  | errors => (Invalid errors, [], db)
  end.

(** *** Sample data: the cubes of owner 2 are in the featured queue; a
    sample sanitizer and a sample validator for scalar values. *)

Definition sampleImports : Imports :=
  {| isCubeViewable := λ cube _, bool_decide (is_Some cube);
     isInFeaturedQueue := λ cube, N.eqb (owner cube) 2;
     toBoolean := λ v,
       match v with
       | VStr s => VBool (negb (String.eqb s "0" || String.eqb s "false" || String.eqb s ""))
       | other => VBool (truthy other)
       end;
     isIn := λ options v,
       match v with
       | VStr s => bool_decide (s ∈ options)
       | _ => false
       end |}.

Definition sampleCubes : Cubes :=
  {[ "mine" := {| owner := 1%N; isListed := true; isPrivate := false; isFeatured := false;
                  fields := {[ "name" := VStr "Mine"; "defaultStatus" := VStr "Owned" ]} |};
     "queued" := {| owner := 2%N; isListed := true; isPrivate := false; isFeatured := false;
                    fields := {[ "name" := VStr "Queued" ]} |} ]}.

Definition makePrivate (who : ObjectId) (id : string) : Settings :=
  {| s_user := {| CubeCards._id := who; CubeCards.username := "user" |};
     s_id := id;
     s_body := {[ "visibility" := VStr "private"; "defaultStatus" := VStr "Not Owned";
                  "defaultPrinting" := VStr "recent"; "owner" := VNum (ofZ 9) ]} |}.

(** The same request without [defaultPrinting]. *)
Definition makePrivateOnly (who : ObjectId) (id : string) : Settings :=
  {| s_user := {| CubeCards._id := who; CubeCards.username := "user" |};
     s_id := id;
     s_body := {[ "visibility" := VStr "private"; "defaultStatus" := VStr "Not Owned" ]} |}.

End CubeSettings.

(* ===================================================================== *)
(** ** Editing a maybeboard card ([POST /maybe/update/:id])               *)
(* ===================================================================== *)

Module Maybeboard.
Import Js.

Abbreviation ObjectId := N.

(** An entry of [cube.maybe]: its identifier and its fields by name. *)
Record Card := {
  card_id : ObjectId;
  card_fields : obj;
}.

Record Cube := {
  owner : ObjectId;
  maybe : list Card;
}.

Abbreviation Cubes := (gmap string Cube).

(** What the handler imports and the sources do not include. *)
Class Imports := {
  (** [isCubeViewable(cube, user)] of [serverjs/cubefn.js] *)
  isCubeViewable : option Cube → CubeCards.User → bool;
  (** [carddb.cardFromId(cardID)] *)
  cardFromId : value → obj;
}.

(** The body of a request: the identifier [req.body.id] stands for when
    [ObjectId.equals] compares with it ([None] when it is none), and
    [req.body.updated], an object when it is sent. *)
Record Update := {
  u_user : CubeCards.User;
  u_id : string;
  u_card : option ObjectId;
  u_updated : option obj;
}.

Inductive Response :=
| Sent (status : nat) (success : bool) (message : option string) (details : option obj)
| Raised (error : string).

Definition failed (status : nat) (message : string) : Response :=
  Sent status false (Some message) None.

Definition editable : list string :=
  ["cardID"; "status"; "finish"; "cmc"; "type_line"; "imgUrl"; "imgBackUrl"; "colors"].

(** [c._id.equals(req.body.id)] *)
Definition named (id : option ObjectId) (c : Card) : bool :=
  match id with
  | Some id => N.eqb (card_id c) id
  | None => false
  end.

(** [if (hasOwnProperty.call(updated, field)) { card[field] = updated[field]; }] *)
Definition assignField (updated : obj) (fs : obj) (field : string) : obj :=
  if hasOwnProperty updated field then <[field := get updated field]> fs else fs.

(** [updated.cardID === card.cardID]: an array the body holds is never the
    object the document holds. *)
Definition strictEquals (a b : value) : bool :=
  match a, b with
  | VArr _, _ | _, VArr _ => false
  | _, _ => sameValue a b
  end.

(** [arr.find(p)]: the first element that satisfies [p], with its position
    in the array. *)
Fixpoint find_ {A} (p : A → bool) (arr : list A) : option (nat * A) :=
  match arr with
  | [] => None
  | x :: rest => if p x then Some (0, x) else prod_map S id <$> find_ p rest
  end.

(** [POST /maybe/update/:id]. The card found is an element of [cube.maybe];
    the assignments change it in place. *)
Definition update `{Imports} (req : Update) (db : Cubes) : Response * Cubes :=
  let cube := db !! u_id req in
  if negb (isCubeViewable cube (u_user req)) then (failed 404 "Cube not found", db)
  else
    match cube with
    | None => (Raised "TypeError: Cannot read property 'owner' of null", db)
    | Some cube =>
        if negb (N.eqb (CubeCards._id (u_user req)) (owner cube))
        then (failed 403 "Maybeboard can only be updated by cube owner.", db)
        else
          match find_ (named (u_card req)) (maybe cube) with
          | None => (failed 404 "No card found to update.", db)
          | Some (position, card) =>
              match u_updated req with
              | None => (failed 400 "Bad request.", db)
              | Some updated =>
                  let newVersion :=
                    truthy (get updated "cardID") &&
                    negb (strictEquals (get updated "cardID") (get (card_fields card) "cardID")) in
                  let card :=
                    {| card_id := card_id card;
                       card_fields := foldl (assignField updated) (card_fields card) editable |} in
                  let cube :=
                    {| owner := owner cube; maybe := <[position := card]> (maybe cube) |} in
                  (Sent 200 true None
                     (if newVersion then Some (cardFromId (get (card_fields card) "cardID"))
                      else None),
                   <[u_id req := cube]> db)
              end
          end
    end.

(** *** Sample data *)

Definition sampleImports : Imports :=
  {| isCubeViewable := λ cube _, bool_decide (is_Some cube);
     cardFromId := λ id, {[ "_id" := id ]} |}.

Definition bear (id : ObjectId) : Card :=
  {| card_id := id;
     card_fields := {[ "cardID" := VStr "bear"; "cmc" := VNum (ofZ 2); "notes" := VStr "foil" ]} |}.

Definition sampleCubes : Cubes :=
  {[ "cube1" := {| owner := 1%N; maybe := [bear 5; bear 6; bear 6] |} ]}.

Definition sampleUpdate : Update :=
  {| u_user := {| CubeCards._id := 1%N; CubeCards.username := "alice" |};
     u_id := "cube1"; u_card := Some 6%N;
     u_updated := Some {[ "cardID" := VStr "grizzly"; "cmc" := VNull; "notes" := VStr "x" ]} |}.

End Maybeboard.

(* ===================================================================== *)
(** ** Reviewing content ([GET /publish.../:id], [GET /remove...review/:id]) *)
(* ===================================================================== *)

Module ContentReview.

Abbreviation ObjectId := N.

Record User := {
  _id : ObjectId;
  username : string;
  email : string;
}.

(** An article, a video or a podcast, with the fields the handlers read or
    write; [date] is a time stamp. *)
Record Content := {
  owner : ObjectId;
  status : string;
  title : string;
  body : string;
  date : N;
}.

Inductive Kind := Article | Video | Podcast.

Definition noun (kind : Kind) : string :=
  match kind with Article => "article" | Video => "video" | Podcast => "podcast" end.

Definition Noun (kind : Kind) : string :=
  match kind with Article => "Article" | Video => "Video" | Podcast => "Podcast" end.

Definition reviewPage (kind : Kind) : string :=
  ("/admin/review" ++ noun kind ++ "s/0")%string.

(** What the handlers import and the sources do not include. *)
Class Imports := {
  (** [parser.findUserLinks(body)] of the markdown parser *)
  findUserLinks : string → list string;
  (** [String.prototype.toLowerCase] *)
  toLowerCase : string → string;
}.

(** What a handler asks of its collaborators, in order: [util.addNotification],
    [util.addMultipleNotifications] over the users of the given lower-case
    names, and the mail handed to [email.send]. *)
Inductive Effect :=
| AddNotification (to from : ObjectId) (url text : string)
| AddMultipleNotifications (usernames : list string) (from : ObjectId) (url text : string)
| Email (to subject template title url type : string).

(** The answer of a handler: a redirect with what was flashed and asked on
    the way, or an exception that escapes the [async] handler, in which
    case no answer is sent. *)
Inductive Reply :=
| Redirected (flashes : list (string * string)) (effects : list Effect) (url : string)
| Escaped (error : string).

Definition contentUrl (kind : Kind) (id : ObjectId) : string :=
  ("/content/" ++ noun kind ++ "/" ++ FeaturedAdmin.toHexString id)%string.

Definition withStatus (s : string) (now : N) (c : Content) : Content :=
  {| owner := owner c; status := s; title := title c; body := body c; date := now |}.

(** The refusal of content that is not in review; [subject] is the word
    the handler starts the message with. *)
Definition notInReview (subject : string) (kind : Kind) : Reply :=
  Redirected [("danger", (subject ++ " not in review")%string)] [] (reviewPage kind).

(** The notifications of mentioned users: articles and videos only. *)
Definition mentioned `{Imports} (kind : Kind) (id : ObjectId) (c : Content) (author : User)
  : list Effect :=
  match kind with
  | Podcast => []
  | _ =>
      let mentions := toLowerCase <$> findUserLinks (body c) in
      if (length mentions =? 0)%nat then []
      else [AddMultipleNotifications mentions (_id author) (contentUrl kind id)
              (username author ++ " mentioned you in their " ++ noun kind)%string]
  end.

(** [GET /publisharticle/:id], [/publishvideo/:id], [/publishpodcast/:id]:
    [now] is the time, [admin] the user of the request. *)
Definition publish `{Imports} (kind : Kind) (now : N) (admin : User) (id : ObjectId)
    (contents : gmap ObjectId Content) (users : gmap ObjectId User)
  : Reply * gmap ObjectId Content :=
  match contents !! id with
  | None => (Escaped "TypeError: Cannot read property 'status' of null", contents)
  | Some c =>
      if negb (String.eqb (status c) "inReview") then (notInReview (Noun kind) kind, contents)
      else
        let c := withStatus "published" now c in
        let contents := <[id := c]> contents in
        match users !! owner c with
        | None => (Escaped "TypeError: Cannot read property 'email' of null", contents)
        | Some author =>
            let approved :=
              match kind with
              | Podcast => " has approved your "
              | _ => " has approved and published your "
              end in
            let subject :=
              match kind with
              | Podcast => "Your podcast has been approved"
              | _ => ("Your " ++ noun kind ++ " has been published")%string
              end in
            (Redirected
               [("success", (Noun kind ++ " published: " ++ title c)%string)]
               ([AddNotification (_id author) (_id admin) (contentUrl kind id)
                   (username admin ++ approved ++ noun kind ++ ": " ++ title c)%string]
                ++ mentioned kind id c author
                ++ [Email (email author) subject "content_publish" (title c)
                      ("https://cubecobra.com" ++ contentUrl kind id)%string (noun kind)])
               (reviewPage kind),
             contents)
        end
  end.

(** [GET /removearticlereview/:id], [/removevideoreview/:id],
    [/removepodcastreview/:id] *)
Definition removereview (kind : Kind) (now : N) (admin : User) (id : ObjectId)
    (contents : gmap ObjectId Content) (users : gmap ObjectId User)
  : Reply * gmap ObjectId Content :=
  match contents !! id with
  | None => (Escaped "TypeError: Cannot read property 'status' of null", contents)
  | Some c =>
      if negb (String.eqb (status c) "inReview")
      then (notInReview (match kind with Podcast => "podcast" | _ => Noun kind end) kind,
            contents)
      else
        let c := withStatus "draft" now c in
        let contents := <[id := c]> contents in
        match users !! owner c with
        | None => (Escaped "TypeError: Cannot read property 'email' of null", contents)
        | Some author =>
            let declined :=
              match kind with
              | Podcast => " has declined your "
              | _ => " has declined to publish your "
              end in
            let subject :=
              match kind with
              | Podcast => "Your podcast was not approved"
              | _ => ("Your " ++ noun kind ++ " was not published")%string
              end in
            (Redirected
               [("success", (Noun kind ++ " declined: " ++ title c)%string)]
               [AddNotification (_id author) (_id admin) (contentUrl kind id)
                  (username admin ++ declined ++ noun kind ++ ": " ++ title c)%string;
                Email (email author) subject "content_decline" (title c)
                  ("https://cubecobra.com" ++ contentUrl kind id)%string (noun kind)]
               (reviewPage kind),
             contents)
        end
  end.

(** The two verdicts of a review, and the handler of each. *)
Inductive Verdict := Publish | Decline.

Definition review `{Imports} (verdict : Verdict) :=
  match verdict with
  | Publish => publish
  | Decline => removereview
  end.

Definition verdictStatus (verdict : Verdict) : string :=
  match verdict with Publish => "published" | Decline => "draft" end.

(** What a verdict on content that is not in review is answered with: the
    kind's name with a capital, but for a declined podcast. *)
Definition refusal (verdict : Verdict) (kind : Kind) : Reply :=
  match verdict, kind with
  | Decline, Podcast => notInReview "podcast" Podcast
  | _, _ => notInReview (Noun kind) kind
  end.

(** *** Sample data *)

Definition sampleImports : Imports :=
  {| findUserLinks := λ _, ["Bob"]; toLowerCase := λ s, if String.eqb s "Bob" then "bob" else s |}.

Definition admin : User := {| _id := 1%N; username := "admin"; email := "admin@example.com" |}.

Definition writer : User := {| _id := 2%N; username := "writer"; email := "writer@example.com" |}.

Definition essay (author : ObjectId) : Content :=
  {| owner := author; status := "inReview"; title := "On cubes"; body := "thanks @Bob";
     date := 5%N |}.

Definition sampleContents : gmap ObjectId Content := {[ 7%N := essay 2; 8%N := essay 3 ]}.

Definition sampleUsers : gmap ObjectId User := {[ 1%N := admin; 2%N := writer ]}.

End ContentReview.

(* ===================================================================== *)
(** * Properties                                                         *)
(* ===================================================================== *)

(** A comparison of integers that holds, or fails, by arithmetic. *)
Ltac cmp_true := symmetry; first [apply Z.leb_le | apply Z.ltb_lt]; lia.
Ltac cmp_false := symmetry; first [apply Z.leb_gt | apply Z.ltb_ge | apply Z.eqb_neq]; lia.

(** ** Built-ins *)

Section BuiltIns.
Import Js.

Lemma isInteger_ofZ z : isInteger (ofZ z) = true.
Proof. unfold isInteger, ofZ, inject_Z; simpl. by rewrite Z.mod_1_r. Qed.

Lemma asIndex_ofZ z :
  asIndex (ofZ z) = if (0 <=? z)%Z then Some (Z.to_nat z) else None.
Proof.
  unfold asIndex. rewrite isInteger_ofZ. simpl.
  destruct (0 <=? z)%Z; [|done]. by rewrite Z.div_1_r.
Qed.

Lemma at_ofZ {A} (arr : list A) z :
  at_ arr (ofZ z) = if (0 <=? z)%Z then arr !! Z.to_nat z else None.
Proof. unfold at_. rewrite asIndex_ofZ. by destruct (0 <=? z)%Z. Qed.

Lemma lt_ofZ a b : lt (ofZ a) (ofZ b) = (a <? b)%Z.
Proof.
  unfold lt, ofZ, Qle_bool, inject_Z; simpl. rewrite !Z.mul_1_r.
  by rewrite Z.ltb_antisym.
Qed.

Lemma ge_ofZ a b : ge (ofZ a) (ofZ b) = (b <=? a)%Z.
Proof. unfold ge, ofZ, Qle_bool, inject_Z; simpl. by rewrite !Z.mul_1_r. Qed.

(** [findIndex] returns the first position that satisfies the predicate. *)
Lemma findIndexFrom_first {A} (p : A → bool) (arr : list A) (i : Z) (n : nat) (x : A) :
  arr !! n = Some x → p x = true →
  (∀ j y, j < n → arr !! j = Some y → p y = false) →
  findIndexFrom p arr i = (i + Z.of_nat n)%Z.
Proof.
  revert i n. induction arr as [|a arr IH]; intros i n Hn Hx Hbefore; [done|].
  destruct n as [|n]; simpl in *.
  - injection Hn as ->. rewrite Hx. lia.
  - rewrite (Hbefore 0 a); [|lia|done].
    rewrite (IH (i + 1)%Z n); [lia|done|done|].
    intros j y Hj Hy. apply (Hbefore (S j) y); [lia|done].
Qed.

(** It is never past a position that satisfies the predicate. *)
Lemma findIndexFrom_bounds {A} (p : A → bool) (arr : list A) (i : Z) (n : nat) (x : A) :
  arr !! n = Some x → p x = true →
  (i ≤ findIndexFrom p arr i ≤ i + Z.of_nat n)%Z.
Proof.
  revert i n. induction arr as [|a arr IH]; intros i n Hn Hx; [done|].
  simpl. destruct (p a) eqn:Ha; [lia|].
  destruct n as [|n]; simpl in *.
  - injection Hn as ->. congruence.
  - specialize (IH (i + 1)%Z n Hn Hx). lia.
Qed.

(** When it finds nothing, no element satisfies the predicate. *)
Lemma findIndexFrom_none {A} (p : A → bool) (arr : list A) (i : Z) :
  (0 ≤ i)%Z → findIndexFrom p arr i = (-1)%Z → Forall (λ x, p x = false) arr.
Proof.
  revert i. induction arr as [|a arr IH]; intros i Hi H; [constructor|].
  simpl in H. destruct (p a) eqn:Ha; [lia|].
  constructor; [done|]. apply (IH (i + 1)%Z); [lia|done].
Qed.

Lemma spliceOut_lookup {A} (arr : list A) (n : nat) (x : A) :
  arr !! n = Some x → spliceOut arr n = ([x], delete n arr).
Proof.
  intros Hn. unfold spliceOut. by rewrite (drop_S _ _ _ Hn).
Qed.

Lemma spliceIn_lookup {A} (arr : list A) (n : nat) (x : A) :
  n ≤ length arr → spliceIn arr n x !! n = Some x.
Proof.
  intros Hn. unfold spliceIn.
  rewrite lookup_app_r; rewrite length_take; [|lia].
  by replace (n - n `min` length arr) with 0 by lia.
Qed.

Lemma delete_spliceIn {A} (arr : list A) (n : nat) (x : A) :
  n ≤ length arr → delete n (spliceIn arr n x) = arr.
Proof.
  intros Hn. unfold spliceIn.
  replace n with (length (take n arr)) at 1 by (rewrite length_take; lia).
  by rewrite delete_middle, take_drop.
Qed.

(** [parseInt] reads the longest integer prefix. *)
Example parseInt_samples :
  parseInt "2" = ofZ 2 ∧ parseInt " -12abc" = ofZ (-12) ∧ parseInt "1.5" = ofZ 1 ∧
  parseInt "seat" = NaN ∧ parseInt "" = NaN ∧ parseInt "+" = NaN.
Proof. repeat split. Qed.

End BuiltIns.

(** ** The featured-cubes queue *)

Section FeaturedQueueProperties.
Import Js FeaturedQueue.

Lemma equals_true a b : equals a b = true ↔ a = b.
Proof. apply N.eqb_eq. Qed.

(** Looking a queued cube up by its identifier finds its own position when
    no cube is queued twice. *)
Lemma findIndex_wellFormed (featured : FeaturedCubes) (p : nat) (e : QueueEntry) :
  wellFormed featured → queue featured !! p = Some e →
  findIndex (λ c, equals (cubeID c) (cubeID e)) (queue featured) = Z.of_nat p.
Proof.
  intros Hwf Hp. unfold findIndex.
  rewrite (findIndexFrom_first _ _ 0%Z p e Hp); [lia|by apply equals_true|].
  intros j y Hj Hy. apply not_true_is_false. intros Heq%equals_true.
  assert (j = p); [|lia].
  apply (NoDup_lookup _ j p (cubeID e) Hwf); rewrite list_lookup_fmap.
  - by rewrite Hy, <- Heq.
  - by rewrite Hp.
Qed.

(** The identifier of an entry at position 0 or 1 is found below 2. *)
Lemma findIndex_featured (featured : FeaturedCubes) (p : nat) (e : QueueEntry) :
  queue featured !! p = Some e → p < 2 →
  let index := findIndex (λ c, equals (cubeID c) (cubeID e)) (queue featured) in
  (index =? -1)%Z = false ∧ (index <? 2)%Z = true.
Proof.
  intros Hp Hlt index.
  pose proof (findIndexFrom_bounds (λ c, equals (cubeID c) (cubeID e)) _ 0%Z p e Hp) as Hb.
  fold (findIndex (λ c, equals (cubeID c) (cubeID e)) (queue featured)) in Hb. fold index in Hb.
  specialize (Hb (proj2 (equals_true _ _) eq_refl)).
  split; [apply Z.eqb_neq|apply Z.ltb_lt]; lia.
Qed.

(** Each of the three callbacks keeps the queue free of duplicates. *)
Lemma queueTransform_wellFormed cube_id owner featured featured' :
  wellFormed featured → queueTransform cube_id owner featured = Return () featured' →
  wellFormed featured'.
Proof.
  unfold queueTransform, wellFormed. intros Hwf.
  destruct (findIndex _ _ =? -1)%Z eqn:Hi; simpl; [|done].
  intros [= <-]. simpl. rewrite fmap_app. simpl.
  apply NoDup_app. split; [done|]. split; [|apply NoDup_singleton].
  intros x Hx ->%list_elem_of_singleton.
  apply list_elem_of_fmap in Hx as (c & Hc & Hin).
  apply Z.eqb_eq, findIndexFrom_none in Hi; [|lia].
  rewrite Forall_forall in Hi. specialize (Hi c Hin). simpl in Hi.
  apply not_true_iff_false in Hi. apply Hi, equals_true. done.
Qed.

Lemma unqueueTransform_wellFormed cubeId featured removed featured' :
  wellFormed featured → unqueueTransform cubeId featured = Return removed featured' →
  wellFormed featured'.
Proof.
  unfold unqueueTransform, wellFormed, spliceOut. intros Hwf.
  destruct (_ =? -1)%Z; [done|]. destruct (_ <? 2)%Z; [done|].
  intros [= _ <-]. simpl.
  eapply sublist_NoDup; [exact Hwf|]. apply fmap_sublist, sublist_delete.
Qed.

(** C7. Removing, by its cube identifier, the entry at position 0 or 1 of
    the queue is refused with the error "Cannot remove currently featured
    cube from queue" and the stored queue stays as it was; removing the
    entry at a position from 2 on, in a queue that holds no cube twice,
    leaves the queue without exactly that entry and notifies its owner. *)
Theorem unqueue_featured_positions (stored : FeaturedCubes) (p : nat) (e : QueueEntry) :
  queue stored !! p = Some e →
  (p < 2 →
     unqueue (Some (cubeID e)) stored =
       (Redirected [("danger", "Cannot remove currently featured cube from queue")] [] page,
        stored)) ∧
  (2 ≤ p → wellFormed stored →
     unqueue (Some (cubeID e)) stored =
       (Redirected []
          [(ownerID e, "An admin removed your cube from the featured cubes queue.")] page,
        withQueue (delete p (queue stored)) stored)).
Proof.
  intros Hp. split.
  - intros Hlt. destruct (findIndex_featured stored p e Hp Hlt) as [Hne Hlow].
    unfold unqueue, updateFeatured, unqueueTransform. by rewrite Hne, Hlow.
  - intros Hge Hwf.
    unfold unqueue, updateFeatured, unqueueTransform.
    rewrite (findIndex_wellFormed stored p e Hwf Hp).
    replace (Z.of_nat p =? -1)%Z with false by cmp_false.
    replace (Z.of_nat p <? 2)%Z with false by cmp_false.
    by rewrite Nat2Z.id, (spliceOut_lookup _ _ _ Hp).
Qed.

Lemma unqueue_featured_positions_witness :
  unqueue (Some 11%N) sampleQueue =
    (Redirected [("danger", "Cannot remove currently featured cube from queue")] [] page,
     sampleQueue) ∧
  unqueue (Some 13%N) sampleQueue =
    (Redirected [] [(4%N, "An admin removed your cube from the featured cubes queue.")] page,
     withQueue (delete 3 (queue sampleQueue)) sampleQueue).
Proof.
  split.
  - apply (unqueue_featured_positions sampleQueue 1 {| cubeID := 11%N; ownerID := 2%N |});
      [reflexivity | lia].
  - apply (unqueue_featured_positions sampleQueue 3 {| cubeID := 13%N; ownerID := 4%N |});
      [reflexivity | lia | ].
    unfold wellFormed. simpl. apply NoDup_ListNoDup. repeat constructor; simpl; intuition lia.
Defined.

(** A validated body: all three fields present, both positions above 2. *)
Lemma moveErrors_nil (body : MoveBody) :
  moveErrors body = [] →
  ∃ cubeId from to, mv_cubeId body = Some cubeId ∧ mv_from body = Some from ∧
    mv_to body = Some to ∧ (2 < from)%Z ∧ (2 < to)%Z.
Proof.
  unfold moveErrors. destruct body as [[c|] [f|] [t|]]; simpl; try done;
    destruct (2 <? f)%Z eqn:Hf; try done; destruct (2 <? t)%Z eqn:Ht; try done.
  intros _. exists c, f, t. repeat split; by apply Z.ltb_lt.
Qed.

(** The callback of [move] either throws, leaving the document alone, or
    takes the entry at [from] and puts it at [to]. *)
Lemma moveTransform_cases (cubeId : ObjectId) (from to : Z) (featured : FeaturedCubes) :
  (0 ≤ from)%Z → (0 ≤ to)%Z →
  (∃ message, moveTransform cubeId from to featured = Throw message ∧
     ((Z.of_nat (length (queue featured)) ≤ from)%Z ∨
      (∃ entry, queue featured !! Z.to_nat from = Some entry ∧ cubeID entry ≠ cubeId) ∨
      (Z.of_nat (length (queue featured)) ≤ to)%Z)) ∨
  (∃ entry, queue featured !! Z.to_nat from = Some entry ∧ cubeID entry = cubeId ∧
     (to < Z.of_nat (length (queue featured)))%Z ∧
     moveTransform cubeId from to featured =
       Return () (withQueue (spliceIn (delete (Z.to_nat from) (queue featured)) (Z.to_nat to) entry)
                    featured)).
Proof.
  intros Hfrom Hto. unfold moveTransform. cbv zeta.
  destruct (Z.of_nat (length (queue featured)) <=? from)%Z eqn:Hlen.
  { left. eexists. split; [done|]. left. by apply Z.leb_le. }
  apply Z.leb_gt in Hlen. rewrite at_ofZ.
  replace (0 <=? from)%Z with true by cmp_true.
  destruct (queue featured !! Z.to_nat from) as [entry|] eqn:Hentry.
  2:{ apply lookup_ge_None in Hentry. lia. }
  destruct (equals (cubeID entry) cubeId) eqn:Heq; cbn [negb].
  2:{ left. eexists. split; [done|]. right; left. exists entry. split; [done|].
      intros ?%equals_true. congruence. }
  apply equals_true in Heq.
  destruct (Z.of_nat (length (queue featured)) <=? to)%Z eqn:Hlen'.
  { left. eexists. split; [done|]. right; right. by apply Z.leb_le. }
  apply Z.leb_gt in Hlen'. right. exists entry.
  by rewrite (spliceOut_lookup _ _ _ Hentry).
Qed.

(** The two ways [move] goes: refused by the validators, or decided by the
    callback. *)
Lemma move_invalid (body : MoveBody) (stored : FeaturedCubes) :
  moveErrors body ≠ [] →
  move body stored = (Redirected (pair "danger" <$> moveErrors body) [] page, stored).
Proof.
  intros Herr. unfold move, flashValidationErrors.
  destruct (moveErrors body); [done|]. by rewrite bool_decide_eq_false_2.
Qed.

Lemma move_validated (body : MoveBody) (stored : FeaturedCubes) cubeId from to :
  moveErrors body = [] →
  mv_cubeId body = Some cubeId → mv_from body = Some from → mv_to body = Some to →
  move body stored =
    match moveTransform cubeId (from - 1) (to - 1) stored with
    | Throw message => (Redirected [("danger", message)] [] page, stored)
    | Return _ featured =>
        (Redirected [("success", "Successfully moved cube")] [] page, featured)
    end.
Proof.
  intros Herr Hc Hf Ht. unfold move, flashValidationErrors.
  rewrite Herr, Hc, Hf, Ht. cbn [negb bool_decide]. unfold updateFeatured.
  rewrite bool_decide_eq_true_2 by done. cbn [negb].
  by destruct (moveTransform cubeId (from - 1) (to - 1) stored).
Qed.

(** C8. A move whose target index, counted from zero, is the queue's length
    or more is refused with an error message and the stored queue stays as
    it was. A move that succeeds took the entry at the source index and put
    it at the target index, the rest of the queue keeping its order; and a
    validated move of the cube found at the source index to a target below
    the queue's length does succeed. *)
Theorem move_target_index (body : MoveBody) (stored : FeaturedCubes) :
  (∀ to, mv_to body = Some to → (Z.of_nat (length (queue stored)) ≤ to - 1)%Z →
     ∃ messages, messages ≠ [] ∧
       move body stored = (Redirected (pair "danger" <$> messages) [] page, stored)) ∧
  (∀ stored',
     move body stored = (Redirected [("success", "Successfully moved cube")] [] page, stored') →
     ∃ (from to : nat) entry,
       mv_from body = Some (Z.of_nat from + 1)%Z ∧ mv_to body = Some (Z.of_nat to + 1)%Z ∧
       queue stored !! from = Some entry ∧ mv_cubeId body = Some (cubeID entry) ∧
       queue stored' !! to = Some entry ∧
       delete to (queue stored') = delete from (queue stored) ∧
       daysBetweenRotations stored' = daysBetweenRotations stored) ∧
  (∀ (from to : nat) entry,
     mv_cubeId body = Some (cubeID entry) →
     mv_from body = Some (Z.of_nat from + 1)%Z → mv_to body = Some (Z.of_nat to + 1)%Z →
     2 ≤ from → 2 ≤ to →
     queue stored !! from = Some entry → to < length (queue stored) →
     move body stored =
       (Redirected [("success", "Successfully moved cube")] [] page,
        withQueue (spliceIn (delete from (queue stored)) to entry) stored)).
Proof.
  split; [|split].
  - intros to Hto Hlen.
    destruct (moveErrors body) as [|m ms] eqn:Herr.
    2:{ exists (m :: ms). split; [done|]. rewrite <- Herr. apply move_invalid. by rewrite Herr. }
    destruct (moveErrors_nil body Herr) as (c & f & t & Hc & Hf & Ht & Hf2 & Ht2).
    assert (t = to) as -> by congruence.
    rewrite (move_validated body stored c f to Herr Hc Hf Ht).
    destruct (moveTransform_cases c (f - 1) (to - 1) stored) as
      [(message & -> & _)|(entry & _ & _ & Hlt & _)]; [lia|lia| |lia].
    exists [message]. done.
  - intros stored'.
    destruct (moveErrors body) as [|m ms] eqn:Herr.
    2:{ rewrite move_invalid by (by rewrite Herr). rewrite Herr. done. }
    destruct (moveErrors_nil body Herr) as (c & f & t & Hc & Hf & Ht & Hf2 & Ht2).
    rewrite (move_validated body stored c f t Herr Hc Hf Ht).
    destruct (moveTransform_cases c (f - 1) (t - 1) stored) as
      [(message & -> & _)|(entry & Hentry & <- & Hlt & ->)]; [lia|lia|done|].
    intros [= <-]. exists (Z.to_nat (f - 1)), (Z.to_nat (t - 1)), entry. simpl.
    assert (Z.to_nat (t - 1) ≤ length (delete (Z.to_nat (f - 1)) (queue stored))).
    { rewrite length_delete by eauto. lia. }
    rewrite Hf, Ht, Hc.
    repeat split; [f_equal; lia|f_equal; lia|done|
                   by apply spliceIn_lookup|by apply delete_spliceIn].
  - intros from to entry Hc Hf Ht Hfrom Hto Hentry Hlt.
    assert (Herr : moveErrors body = []).
    { unfold moveErrors. rewrite Hc, Hf, Ht.
      replace (2 <? Z.of_nat from + 1)%Z with true by cmp_true.
      by replace (2 <? Z.of_nat to + 1)%Z with true by cmp_true. }
    rewrite (move_validated body stored _ _ _ Herr Hc Hf Ht).
    replace (Z.of_nat from + 1 - 1)%Z with (Z.of_nat from) by lia.
    replace (Z.of_nat to + 1 - 1)%Z with (Z.of_nat to) by lia.
    destruct (moveTransform_cases (cubeID entry) (Z.of_nat from) (Z.of_nat to) stored) as
      [(message & _ & [Hbad|[(entry' & Hentry' & Hne)|Hbad]])|(entry' & Hentry' & _ & _ & ->)];
      [lia|lia|..]; rewrite ?Nat2Z.id in *.
    + apply lookup_lt_Some in Hentry. lia.
    + congruence.
    + lia.
    + by replace entry' with entry by congruence.
Qed.

Lemma move_target_index_witness :
  (∃ messages, messages ≠ [] ∧
     move {| mv_cubeId := Some 12%N; mv_from := Some 3%Z; mv_to := Some 6%Z |} sampleQueue =
       (Redirected (pair "danger" <$> messages) [] page, sampleQueue)) ∧
  move {| mv_cubeId := Some 12%N; mv_from := Some 3%Z; mv_to := Some 5%Z |} sampleQueue =
    (Redirected [("success", "Successfully moved cube")] [] page,
     withQueue (spliceIn (delete 2 (queue sampleQueue)) 4 {| cubeID := 12%N; ownerID := 3%N |})
       sampleQueue).
Proof.
  split.
  - apply (proj1 (move_target_index
                    {| mv_cubeId := Some 12%N; mv_from := Some 3%Z; mv_to := Some 6%Z |}
                    sampleQueue) 6%Z); [reflexivity | simpl; lia].
  - apply (proj2 (proj2 (move_target_index
                    {| mv_cubeId := Some 12%N; mv_from := Some 3%Z; mv_to := Some 5%Z |}
                    sampleQueue)) 2 4 {| cubeID := 12%N; ownerID := 3%N |});
      [reflexivity | reflexivity | reflexivity | lia | lia | reflexivity | simpl; lia].
Defined.

(** A successful move keeps the queue free of duplicates. *)
Lemma moveTransform_wellFormed cubeId from to featured featured' :
  (0 ≤ from)%Z → (0 ≤ to)%Z →
  wellFormed featured → moveTransform cubeId from to featured = Return () featured' →
  wellFormed featured'.
Proof.
  intros Hfrom Hto Hwf Hmove.
  destruct (moveTransform_cases cubeId from to featured Hfrom Hto) as
    [(message & Hthrow & _)|(entry & Hentry & _ & Hlt & Hret)]; [congruence|].
  rewrite Hret in Hmove. injection Hmove as <-.
  unfold wellFormed in *. simpl. unfold spliceIn.
  rewrite <- (take_drop_middle _ _ _ Hentry) in Hwf.
  rewrite fmap_app in Hwf. simpl in Hwf.
  apply NoDup_app in Hwf as (H1 & H2 & H3). apply NoDup_cons in H3 as [H3 H4].
  assert (Hperm : cubeID <$> (take (Z.to_nat to) (delete (Z.to_nat from) (queue featured)) ++
            entry :: drop (Z.to_nat to) (delete (Z.to_nat from) (queue featured)))
          ≡ₚ cubeID entry :: (cubeID <$> delete (Z.to_nat from) (queue featured))).
  { rewrite fmap_app. simpl. rewrite <- Permutation_middle, <- fmap_app. by rewrite take_drop. }
  rewrite Hperm. apply NoDup_cons.
  rewrite delete_take_drop, fmap_app. split.
  - rewrite elem_of_app. intros [Hin|Hin]; [|done]. apply (H2 _ Hin). left.
  - apply NoDup_app. repeat split; [done| |done].
    intros x Hx Hx'. apply (H2 x Hx). by right.
Qed.

(** The handlers keep the queue free of duplicates. *)
Lemma unqueue_wellFormed (cubeId : option ObjectId) (stored : FeaturedCubes) :
  wellFormed stored → wellFormed (unqueue cubeId stored).2.
Proof.
  intros Hwf. unfold unqueue, updateFeatured. destruct cubeId as [id|]; [|done].
  destruct (unqueueTransform id stored) as [message|removed featured] eqn:Htransform; [done|].
  apply unqueueTransform_wellFormed in Htransform; [|done].
  by destruct removed.
Qed.

Lemma move_wellFormed (body : MoveBody) (stored : FeaturedCubes) :
  wellFormed stored → wellFormed (move body stored).2.
Proof.
  intros Hwf. destruct (moveErrors body) as [|m ms] eqn:Herr.
  2:{ rewrite move_invalid by (by rewrite Herr). done. }
  destruct (moveErrors_nil body Herr) as (c & f & t & Hc & Hf & Ht & Hf2 & Ht2).
  rewrite (move_validated body stored c f t Herr Hc Hf Ht).
  destruct (moveTransform c (f - 1) (t - 1) stored) as [message|[] featured] eqn:Htransform;
    [done|].
  apply moveTransform_wellFormed in Htransform; [done|lia|lia|done].
Qed.

End FeaturedQueueProperties.

(** ** Editing the cards of a cube *)

Section CubeCardsProperties.
Import Js CubeCards.
Context `{Imports}.

(** Whatever the request, [updatecard] leaves the collection as it was or
    replaces one card: the one at [src.index], an index below the length of
    the card list, whose stored card is equivalent to [src]. *)
Lemma updatecard_replaces_only_equivalent (req : UpdateCard) (db : Cubes) :
  (updatecard req db).2 = db ∨
  ∃ src index i cube card updated,
    uc_src req = Some src ∧ get src "index" = VNum index ∧ uc_updated req = Some updated ∧
    asIndex index = Some i ∧ db !! uc_id req = Some cube ∧ i < length (cards cube) ∧
    storedCard cube index = Some card ∧ cardsAreEquivalent src card = true ∧
    updatecard req db =
      (Sent 200 true None,
       <[uc_id req :=
           setCubeType {| owner := owner cube;
                          cards := <[i := completeFrom card updated cardSchemaPaths]> (cards cube);
                          type := type cube |}]> db).
Proof.
  unfold updatecard.
  destruct (uc_src req) as [src|]; [|by left].
  destruct (get src "index") as [| | |index| |] eqn:Hindex; try by left.
  destruct (uc_updated req) as [updated|]; [|by left].
  destruct (badUpdatedCard updated); [by left|].
  destruct (isCubeViewable _ _); [|by left]. cbn [negb].
  destruct (db !! uc_id req) as [cube|] eqn:Hcube; [|by left].
  destruct (N.eqb _ _); [|by left]. cbn [negb].
  destruct (ge index _); [by left|].
  destruct (asIndex index) as [i|] eqn:Hi; [|by left]. cbn [mbind option_bind].
  destruct (cards cube !! i) as [card|] eqn:Hcard; [|by left]. cbn [fmap option_fmap option_map].
  destruct (cardsAreEquivalent src _) eqn:Heq; [|by left]. cbn [negb].
  right. exists src, index, i, cube. eexists. exists updated.
  split_and!; try done.
  - by eapply lookup_lt_Some.
  - unfold storedCard, at_. rewrite Hi. cbn [mbind option_bind]. by rewrite Hcard.
Qed.

(** A request of the cube's owner that names a position by a natural
    number is refused, the collection untouched, when the position is past
    the card list or holds a card that is not equivalent to [src]. *)
Lemma updatecard_stale_position (req : UpdateCard) (db : Cubes) src (i : nat) updated cube :
  uc_src req = Some src → get src "index" = VNum (ofNat i) →
  uc_updated req = Some updated → badUpdatedCard updated = false →
  db !! uc_id req = Some cube → isCubeViewable (Some cube) (uc_user req) = true →
  _id (uc_user req) = owner cube →
  (length (cards cube) ≤ i → updatecard req db = (failed 400 "No such card", db)) ∧
  (∀ card, storedCard cube (ofNat i) = Some card → cardsAreEquivalent src card = false →
     updatecard req db = (failed 400 "Cards not equivalent", db)).
Proof.
  intros Hsrc Hindex Hupd Hok Hcube Hview Howner.
  unfold updatecard. rewrite Hsrc, Hindex, Hupd, Hok, Hcube, Hview, Howner, N.eqb_refl.
  cbn [negb]. unfold ofNat. rewrite ge_ofZ, asIndex_ofZ.
  replace (0 <=? Z.of_nat i)%Z with true by cmp_true.
  rewrite Nat2Z.id. cbn [mbind option_bind]. split.
  - intros Hlen. by replace (Z.of_nat (length (cards cube)) <=? Z.of_nat i)%Z with true
      by cmp_true.
  - intros card. unfold storedCard. rewrite at_ofZ.
    replace (0 <=? Z.of_nat i)%Z with true by cmp_true.
    rewrite Nat2Z.id. cbn [mbind option_bind].
    destruct (cards cube !! i) as [c|] eqn:Hc; [|done]. intros [= <-] Hne.
    apply lookup_lt_Some in Hc.
    replace (Z.of_nat (length (cards cube)) <=? Z.of_nat i)%Z with false
      by cmp_false.
    cbn [fmap option_fmap option_map]. by rewrite Hne.
Qed.

(** The guard [src.index >= cube.cards.length] lets pass every number
    below the length, also one that names no element: reading
    [card.type_line] then throws. *)
Lemma updatecard_no_element (req : UpdateCard) (db : Cubes) src index updated cube :
  uc_src req = Some src → get src "index" = VNum index →
  uc_updated req = Some updated → badUpdatedCard updated = false →
  db !! uc_id req = Some cube → isCubeViewable (Some cube) (uc_user req) = true →
  _id (uc_user req) = owner cube →
  ge index (ofNat (length (cards cube))) = false → asIndex index = None →
  updatecard req db =
    (Raised "TypeError: Cannot read property 'type_line' of undefined", db).
Proof.
  intros Hsrc Hindex Hupd Hok Hcube Hview Howner Hge Hi.
  unfold updatecard.
  by rewrite Hsrc, Hindex, Hupd, Hok, Hcube, Hview, Howner, N.eqb_refl, Hge, Hi.
Qed.

Lemma updateAt_colors (updated : obj) (all : Updates) (index j : nat) :
  set_ (updateAt updated all index) !! (j, "colors") =
    if decide (j = index) then colorsWritten updated (set_ all !! (j, "colors"))
    else set_ all !! (j, "colors").
Proof.
  unfold updateAt, colorsWritten, setWhen. cbn [set_].
  destruct (decide (j = index)) as [->|Hne];
    repeat match goal with |- context [truthy ?v] => destruct (truthy v) end;
    repeat first [rewrite lookup_insert_eq | rewrite lookup_insert_ne by congruence];
    done.
Qed.

Lemma colorsWritten_idemp updated old :
  colorsWritten updated (colorsWritten updated old) = colorsWritten updated old.
Proof. unfold colorsWritten. by repeat destruct (truthy _). Qed.

Lemma foldl_updateAt_colors (updated : obj) (selected : list nat) (all : Updates) (j : nat) :
  set_ (foldl (updateAt updated) all selected) !! (j, "colors") =
    if decide (j ∈ selected) then colorsWritten updated (set_ all !! (j, "colors"))
    else set_ all !! (j, "colors").
Proof.
  revert all. induction selected as [|index rest IH]; intros all; cbn [foldl].
  { by rewrite decide_False by apply not_elem_of_nil. }
  rewrite IH, updateAt_colors.
  destruct (decide (j ∈ index :: rest)) as [Hin|Hnin].
  - apply elem_of_cons in Hin.
    destruct (decide (j = index)) as [Heq|Hne].
    + destruct (decide (j ∈ rest)); [apply colorsWritten_idemp|done].
    + destruct Hin as [?|Hr]; [done|]. by rewrite (decide_True _ _ Hr).
  - apply not_elem_of_cons in Hnin as [Hne Hr].
    by rewrite (decide_False _ _ Hne), (decide_False _ _ Hr).
Qed.

Lemma isWUBRG_letter (c : value) :
  isWUBRG c = true → ∃ s, c = VStr s ∧ s ∈ ["W"; "U"; "B"; "R"; "G"].
Proof.
  destruct c as [| | | |s|]; try done. simpl. intros Hs%bool_decide_eq_true. eauto.
Qed.

Lemma withinWUBRG_filterColors (cs : list value) : withinWUBRG (filterColors (VArr cs)).
Proof.
  exists (List.filter isWUBRG cs). split; [done|].
  apply Forall_forall. intros c Hc%list_elem_of_In%filter_In. apply isWUBRG_letter, Hc.
Qed.

Lemma withinWUBRG_nil : withinWUBRG (VArr []).
Proof. exists []. split; [done|constructor]. Qed.

(** Past the guard every element of [selected] is an index. *)
Lemma indices_length (xs : list value) :
  existsb badIndex xs = false → length (indices (VArr xs)) = length xs.
Proof.
  unfold indices. induction xs as [|v xs IH]; [done|]. cbn [existsb].
  intros [Hv Hxs]%orb_false_elim.
  destruct v as [| | |x| |]; try done. cbn [badIndex] in Hv.
  apply orb_false_elim in Hv as [Hint%negb_false_iff Hneg].
  destruct x as [| | |q]; try done.
  cbn [omap list_omap]. unfold asIndex at 1. rewrite Hint.
  assert ((0 <=? Qnum q)%Z = true) as ->.
  { unfold lt, ofZ, Qle_bool, inject_Z in Hneg. simpl in Hneg.
    apply negb_false_iff, Z.leb_le in Hneg. apply Z.leb_le. lia. }
  cbn [andb length]. by rewrite IH.
Qed.

(** What the handler checked when it hands an update document over. *)
Lemma updatecards_sent (req : UpdateCards) (db : Cubes) resp (updates : Updates) :
  updatecards req db = (resp, Some updates) →
  ∃ updated, ucs_updated req = Some updated ∧ badBulk (ucs_selected req) updated = false ∧
    resp = Sent 200 true None ∧
    updates = allUpdates (indices (ucs_selected req)) updated.
Proof.
  unfold updatecards.
  destruct (ucs_updated req) as [updated|]; [|done].
  destruct (badBulk _ _) eqn:Hbad; [done|].
  destruct (isCubeViewable _ _); [|done]. cbn [negb].
  destruct (db !! ucs_id req); [|done].
  destruct (N.eqb _ _); [|done]. cbn [negb].
  intros [= <- <-]. by exists updated.
Qed.

(** C10. The update document [/updatecards] sends to the database writes,
    for every selected index, the empty list to the card's [colors] when
    [colorC] is supplied, and otherwise the supplied [colors] array with
    every element other than W, U, B, R, G filtered out (nothing when no
    [colors] is supplied). Every value it writes to a [colors] path is
    within the color alphabet, so a card whose stored colors were within it
    keeps colors within it. *)
Theorem updatecards_colors_within_WUBRG (req : UpdateCards) (db : Cubes) resp
    (updates : Updates) :
  updatecards req db = (resp, Some updates) →
  ∃ updated, ucs_updated req = Some updated ∧
    (∀ xs, ucs_selected req = VArr xs → length (indices (ucs_selected req)) = length xs) ∧
    (∀ index, index ∈ indices (ucs_selected req) →
       (truthy (get updated "colorC") = true →
          set_ updates !! (index, "colors") = Some (VArr [])) ∧
       (truthy (get updated "colorC") = false → truthy (get updated "colors") = true →
          ∃ cs, get updated "colors" = VArr cs ∧
            set_ updates !! (index, "colors") = Some (VArr (List.filter isWUBRG cs))) ∧
       (truthy (get updated "colorC") = false → truthy (get updated "colors") = false →
          set_ updates !! (index, "colors") = None)) ∧
    (∀ index v, set_ updates !! (index, "colors") = Some v → withinWUBRG v) ∧
    (∀ index before, withinWUBRG before → withinWUBRG (colorsAfter updates index before)).
Proof.
  intros (updated & Hupd & Hbad & -> & ->)%updatecards_sent.
  exists updated. split; [done|].
  unfold badBulk in Hbad. repeat apply orb_false_elim in Hbad as [Hbad ?].
  assert (Harr : truthy (get updated "colors") = true →
                 ∃ cs, get updated "colors" = VArr cs).
  { intros Ht. rewrite Ht in *. destruct (get updated "colors"); try done. eauto. }
  assert (Hwritten : ∀ v, colorsWritten updated None = Some v → withinWUBRG v).
  { unfold colorsWritten. intros v.
    destruct (truthy (get updated "colorC")); [intros [= <-]; apply withinWUBRG_nil|].
    destruct (truthy (get updated "colors")); [|done].
    destruct Harr as [cs ->]; [done|]. intros [= <-]. apply withinWUBRG_filterColors. }
  assert (Hall : ∀ index v, set_ (allUpdates (indices (ucs_selected req)) updated)
                              !! (index, "colors") = Some v → withinWUBRG v).
  { intros index v. unfold allUpdates. rewrite foldl_updateAt_colors. cbn [set_].
    rewrite lookup_empty. destruct (decide _); [apply Hwritten|done]. }
  split_and!.
  - intros xs Hxs. rewrite Hxs in *. by apply indices_length.
  - intros index Hin. unfold allUpdates. rewrite foldl_updateAt_colors.
    rewrite decide_True by done. cbn [set_]. rewrite lookup_empty. unfold colorsWritten.
    split_and!.
    + by intros ->.
    + intros -> Ht. destruct (Harr Ht) as [cs Hcs]. exists cs. by rewrite Ht, Hcs.
    + by intros -> ->.
  - exact Hall.
  - intros index before Hbefore. unfold colorsAfter.
    destruct (set_ _ !! (index, "colors")) as [v|] eqn:Hv; [|done]. by apply (Hall index).
Qed.

End CubeCardsProperties.

Section CubeCardsExamples.
Import Js CubeCards.
#[local] Existing Instance sampleImports.

(** C9. The request [{ src: { index: -1, ... }, updated: {} }] of the
    cube's owner: [-1] is below the length of the card list and names no
    card, so the handler does not answer with a validation failure; the
    exception thrown at [card.type_line] escapes it. The card list is
    left as it was. *)
Theorem updatecard_negative_index_escapes :
  @updatecard sampleImports
    {| uc_user := alice; uc_id := "cube1";
       uc_src := Some (<["index" := VNum (ofZ (-1))]> hound); uc_updated := Some ∅ |}
    sampleCubes
  = (Raised "TypeError: Cannot read property 'type_line' of undefined", sampleCubes).
Proof.
  apply (@updatecard_no_element sampleImports _ _ (<["index" := VNum (ofZ (-1))]> hound)
           (ofZ (-1)) ∅ {| owner := 1%N; cards := [hound; hound]; type := VStr "Vintage" |});
    reflexivity.
Qed.

Lemma updatecards_colors_within_WUBRG_witness :
  updatecards sampleBulk sampleCubes =
    (Sent 200 true None, Some (allUpdates [0; 1] recolor)) ∧
  set_ (allUpdates [0; 1] recolor) !! (1, "colors") = Some (VArr [VStr "W"; VStr "G"]) ∧
  withinWUBRG (colorsAfter (allUpdates [0; 1] recolor) 0 (VArr [VStr "U"; VStr "B"])).
Proof.
  assert (Hrun : updatecards sampleBulk sampleCubes =
                   (Sent 200 true None, Some (allUpdates [0; 1] recolor))) by reflexivity.
  destruct (updatecards_colors_within_WUBRG sampleBulk sampleCubes _ _ Hrun)
    as (updated & Hupdated & _ & Hselected & _ & Hafter).
  injection Hupdated as <-.
  split; [exact Hrun|split].
  - destruct (Hselected 1) as (_ & Hcolors & _); [simpl; repeat constructor|].
    destruct Hcolors as (cs & Hcs & ->); [reflexivity|reflexivity|].
    by injection Hcs as <-.
  - apply Hafter. exists [VStr "U"; VStr "B"]. split; [done|].
    repeat constructor; eexists; (split; [done|repeat constructor]).
Defined.

End CubeCardsExamples.

(** ** Redrafting *)

Section RedraftProperties.
Import Js Redraft.
Context `{Imports}.

(** *** Rotation *)

Lemma rotateArrayLeft_drop_take {A} (arr : list A) (k : nat) :
  k ≤ length arr → rotateArrayLeft arr k = drop k arr ++ take k arr.
Proof.
  unfold rotateArrayLeft. induction k as [|k IH]; intros Hk.
  { simpl. by rewrite drop_0, app_nil_r. }
  rewrite Nat.iter_succ, IH by lia.
  destruct (lookup_lt_is_Some_2 arr k) as [x Hx]; [lia|].
  rewrite (drop_S _ _ _ Hx), (take_S_r _ _ _ Hx). simpl. by rewrite <- app_assoc.
Qed.

Lemma length_rotateArrayLeft {A} (arr : list A) (k : nat) :
  length (rotateArrayLeft arr k) = length arr.
Proof.
  unfold rotateArrayLeft. induction k as [|k IH]; [done|].
  rewrite Nat.iter_succ. destruct (Nat.iter k rotateOnce arr); [done|].
  simpl in *. rewrite length_app. simpl. lia.
Qed.

(** The element rotated to position [j] is the one that was [k] places
    further on, around the end of the array. *)
Lemma rotateArrayLeft_lookup {A} (arr : list A) (k j : nat) :
  k < length arr → j < length arr →
  rotateArrayLeft arr k !! j = arr !! ((j + k) `mod` length arr).
Proof.
  intros Hk Hj. rewrite rotateArrayLeft_drop_take by lia.
  destruct (decide (j < length arr - k)) as [Hlow|Hhigh].
  - rewrite lookup_app_l by (rewrite length_drop; lia).
    rewrite lookup_drop. f_equal. rewrite Nat.mod_small; lia.
  - rewrite lookup_app_r by (rewrite length_drop; lia).
    rewrite length_drop, lookup_take_lt by lia. f_equal.
    replace (j + k) with ((j - (length arr - k)) + 1 * length arr) by lia.
    rewrite Nat.Div0.mod_add, Nat.mod_small; lia.
Qed.

Lemma rotateArrayLeft_permutation {A} (arr : list A) (k : nat) :
  k ≤ length arr → rotateArrayLeft arr k ≡ₚ arr.
Proof.
  intros Hk. rewrite rotateArrayLeft_drop_take by done.
  by rewrite Permutation_app_comm, take_drop.
Qed.

(** Rotating the references rotates the objects they point at. *)
Lemma rotateArrayLeft_refs {A} (arr : list A) (k : nat) :
  k ≤ length arr →
  Forall2 (λ r x, arr !! r = Some x)
    (rotateArrayLeft (seq 0 (length arr)) k) (rotateArrayLeft arr k).
Proof.
  intros Hk. rewrite !rotateArrayLeft_drop_take by (rewrite ?length_seq; lia).
  assert (Hall : Forall2 (λ r x, arr !! r = Some x) (seq 0 (length arr)) arr).
  { apply Forall2_same_length_lookup_2; [by rewrite length_seq|].
    intros i r x [-> _]%lookup_seq Hx. done. }
  apply Forall2_app; [by apply Forall2_drop|by apply Forall2_take].
Qed.

Example rotateArrayLeft_ABCD :
  rotateArrayLeft ["A"; "B"; "C"; "D"] 2 = ["C"; "D"; "A"; "B"].
Proof. reflexivity. Qed.

(** *** Writes through references *)

(** A loop of assignments over the positions of an array of references
    writes through each reference in turn. *)
Lemma foldl_assign (f : Seat → Seat) (whole arr : list Ref) (off : nat) (h : Heap) :
  (∀ i, i < length arr → whole !! (off + i) = arr !! i) →
  foldl (λ acc i, h ← acc; assign h whole i f) (Some h) (seq off (length arr)) =
    Some (foldl (λ h r, alter f r h) h arr).
Proof.
  revert off h. induction arr as [|r arr IH]; intros off h Hwhole; [done|].
  cbn [length seq foldl mbind option_bind]. unfold assign at 2.
  specialize (Hwhole 0 ltac:(simpl; lia)) as Hhead. rewrite Nat.add_0_r in Hhead.
  rewrite Hhead. cbn [lookup list_lookup mbind option_bind].
  apply IH. intros i Hi. specialize (Hwhole (S i) ltac:(simpl; lia)).
  cbn [lookup list_lookup] in Hwhole. etrans; [|exact Hwhole]. f_equal. lia.
Qed.

Lemma resetSeats_alters (h : Heap) (arr : list Ref) :
  resetSeats h arr = Some (foldl (λ h r, alter resetSeat r h) h arr).
Proof. unfold resetSeats. by apply (foldl_assign resetSeat arr arr 0 h). Qed.

(** Writing an idempotent update through a list of references updates the
    objects the list refers to, once each, and no other. *)
Lemma foldl_alter_lookup (f : Seat → Seat) (refs : list Ref) (h : Heap) (j : Ref) :
  (∀ s, f (f s) = f s) →
  foldl (λ h r, alter f r h) h refs !! j =
    if decide (j ∈ refs) then f <$> h !! j else h !! j.
Proof.
  intros Hidem. revert h. induction refs as [|r refs IH]; intros h; cbn [foldl].
  { by rewrite decide_False by apply not_elem_of_nil. }
  rewrite IH, list_lookup_alter.
  destruct (decide (j ∈ r :: refs)) as [Hin|Hnin].
  - apply elem_of_cons in Hin.
    destruct (decide (r = j)) as [->|Hne].
    + destruct (decide (j ∈ refs)); [|done].
      destruct (h !! j); simpl; [|done]. by rewrite Hidem.
    + destruct Hin as [?|Hr]; [done|]. by rewrite (decide_True _ _ Hr).
  - apply not_elem_of_cons in Hnin as [Hne Hr].
    rewrite (decide_False _ _ Hr). by rewrite decide_False by done.
Qed.

Lemma resetSeat_idemp s : resetSeat (resetSeat s) = resetSeat s.
Proof. done. Qed.

Lemma resetSeat_setBot b s : resetSeat (setBot b s) = resetSeat s.
Proof. done. Qed.

(** *** The document that is saved *)

(** For a seat number below the number of seats, the assignments of the
    handler succeed and the saved seats are the source seats rotated,
    reset, and the first of them given to the viewer. *)
Lemma build_valid (srcDraft : Draft) (k : nat) (viewer : option User) :
  k < length (seats srcDraft) →
  build srcDraft (ofNat k) viewer =
    Some {| cube := cube srcDraft;
            seats := imap (redraftedSeat viewer) (rotateArrayLeft (seats srcDraft) k);
            basics := basics srcDraft;
            initial_state := initial_state srcDraft;
            cards := cards srcDraft |}.
Proof.
  intros Hk. unfold build, ofNat, slice. rewrite asIndex_ofZ.
  replace (0 <=? Z.of_nat k)%Z with true by cmp_true.
  rewrite Nat2Z.id. cbn [mbind option_bind]. cbv zeta.
  set (ss := seats srcDraft) in *.
  set (refs := rotateArrayLeft (seq 0 (length ss)) k).
  assert (Hlen : length refs = length ss).
  { unfold refs. by rewrite length_rotateArrayLeft, length_seq. }
  assert (Hrefs : Forall2 (λ r x, ss !! r = Some x) refs (rotateArrayLeft ss k)).
  { apply rotateArrayLeft_refs. lia. }
  assert (Hnodup : NoDup refs).
  { unfold refs. rewrite rotateArrayLeft_permutation by (rewrite length_seq; lia).
    apply NoDup_seq. }
  assert (Hfirst : refs !! 0 = Some k).
  { unfold refs. rewrite rotateArrayLeft_lookup by (rewrite length_seq; lia).
    rewrite length_seq. simpl. rewrite Nat.mod_small by lia. by apply lookup_seq. }
  destruct (lookup_lt_is_Some_2 refs k) as [rk Hrk]; [lia|].
  unfold assign. rewrite Hrk. cbn [mbind option_bind].
  rewrite resetSeats_alters. cbn [mbind option_bind].
  rewrite Hfirst. cbn [mbind option_bind].
  set (h2 := foldl (λ h r, alter resetSeat r h) (alter (setBot None) rk ss) refs).
  assert (Hsaved : mapM (λ r, alter (seatViewer viewer) k h2 !! r) refs =
                   Some (imap (redraftedSeat viewer) (rotateArrayLeft ss k))).
  { apply mapM_Some, Forall2_same_length_lookup_2.
    { rewrite length_imap. by apply Forall2_length in Hrefs. }
    intros j r s Hr Hs. apply list_lookup_imap_Some in Hs as (source & Hsource & ->).
    pose proof (Forall2_lookup_lr _ _ _ _ _ _ Hrefs Hr Hsource) as Hpoints. simpl in Hpoints.
    assert (Hreset : h2 !! r = Some (resetSeat source)).
    { unfold h2. rewrite foldl_alter_lookup by apply resetSeat_idemp.
      rewrite decide_True by (by eapply list_elem_of_lookup_2).
      rewrite list_lookup_alter. destruct (decide (rk = r)) as [->|_]; rewrite Hpoints; done. }
    rewrite list_lookup_alter. unfold redraftedSeat.
    destruct (decide (k = r)) as [<-|Hne].
    - rewrite Hreset. rewrite (NoDup_lookup _ _ _ _ Hnodup Hr Hfirst). done.
    - rewrite Hreset. destruct (decide (j = 0)) as [->|]; [|done].
      rewrite Hfirst in Hr. congruence. }
  rewrite Hsaved. done.
Qed.

(** *** The handler *)

Lemma newId_fresh (db : Db) : drafts db !! newId db = None.
Proof.
  unfold newId. pose proof (is_fresh (dom (drafts db))) as Hfresh.
  by apply not_elem_of_dom in Hfresh.
Qed.

Lemma parseInt_cases (text : string) : parseInt text = NaN ∨ ∃ z, parseInt text = ofZ z.
Proof.
  unfold parseInt.
  destruct (match trimStart text with
            | String "-" r => (true, r)
            | String "+" r => (false, r)
            | _ => (false, trimStart text)
            end) as [negative body].
  destruct (digitsPrefix body None); eauto.
Qed.

(** The seat guard, on the integer a parameter reads as. *)
Lemma seat_guard (z : Z) (n : nat) :
  negb (isInteger (ofZ z)) || lt (ofZ z) (ofZ 0) || ge (ofZ z) (ofNat n) =
    negb ((0 <=? z)%Z && (z <? Z.of_nat n)%Z).
Proof.
  unfold ofNat. rewrite isInteger_ofZ, lt_ofZ, ge_ofZ. simpl.
  destruct (Z.ltb_spec z 0), (Z.leb_spec 0 z), (Z.leb_spec (Z.of_nat n) z),
    (Z.ltb_spec z (Z.of_nat n)); simpl; try done; lia.
Qed.

(** A redraft of a stored draft from one of its seats, the cube viewable:
    the draft of [redrafted] is saved under a new identifier and sent with
    card details inserted. *)
Lemma redraft_valid (req : Request) (db : Db) id (srcDraft : Draft) (k : nat) (c : Cube) :
  castObjectId (params_id req) = Some id → drafts db !! id = Some srcDraft →
  parseInt (params_seat req) = ofNat k → k < length (seats srcDraft) →
  cubes db !! cube srcDraft = Some c → isCubeViewable (Some c) (user req) = true →
  ∃ overrides,
    redraft req db =
      (Sent (withCards (insertDetails overrides <$> cards srcDraft)
               (redrafted srcDraft k (user req))),
       save (newId db) (redrafted srcDraft k (user req)) db).
Proof.
  intros Hid Hsrc Hseat Hk Hcube Hview. unfold redraft.
  rewrite Hid, Hsrc, Hseat. unfold ofNat at 1 2 3. rewrite seat_guard.
  replace (0 <=? Z.of_nat k)%Z with true by cmp_true.
  replace (Z.of_nat k <? Z.of_nat (length (seats srcDraft)))%Z with true
    by cmp_true.
  cbn [negb andb]. cbv zeta. rewrite Hcube, Hview. cbn [negb].
  fold (ofNat k). rewrite (build_valid srcDraft k (user req) Hk).
  rewrite rotateArrayLeft_drop_take by lia. fold (redrafted srcDraft k (user req)).
  cbn [drafts save]. rewrite lookup_insert_eq. eauto.
Qed.

(** Every other way through the handler stores nothing. *)
Lemma redraft_changes (req : Request) (db : Db) :
  (redraft req db).2 = db ∨
  ∃ draft, (redraft req db).2 = save (newId db) draft db.
Proof.
  unfold redraft.
  destruct (castObjectId _); [|by left].
  destruct (drafts db !! _); [|by left].
  destruct (_ || _); [by left|]. cbv zeta.
  destruct (isCubeViewable _ _); [|by left]. cbn [negb].
  destruct (build _ _ _) as [draft|]; [|by left].
  right. exists draft.
  destruct (cubes db !! _); [|done].
  by destruct (drafts (save _ _ _) !! _).
Qed.

(** C1. A redraft of a stored draft from its seat [k] produces a draft, the
    one saved and sent, whose seats are the source seats rotated left by
    [k]: the seat at position [j] comes from the source seat [k] places
    further on, around the end. Seat 0 has no bot descriptor and carries
    the viewer's identifier and name, or no identifier and the name
    "Anonymous" without a viewer; every other seat has the fresh bot
    descriptor [[]] and keeps the name and identifier of its source seat;
    all seats have empty drafted, sideboard, pick order and trash order. *)
Theorem redraft_rotates_seats (req : Request) (db : Db) id (srcDraft : Draft) (k : nat)
    (c : Cube) :
  castObjectId (params_id req) = Some id → drafts db !! id = Some srcDraft →
  parseInt (params_seat req) = ofNat k → k < length (seats srcDraft) →
  cubes db !! cube srcDraft = Some c → isCubeViewable (Some c) (user req) = true →
  ∃ draft sent,
    redraft req db = (Sent sent, save (newId db) draft db) ∧
    seats sent = seats draft ∧
    seats draft =
      imap (redraftedSeat (user req)) (drop k (seats srcDraft) ++ take k (seats srcDraft)) ∧
    length (seats draft) = length (seats srcDraft) ∧
    ∀ j s, seats draft !! j = Some s →
      ∃ source,
        seats srcDraft !! ((j + k) `mod` length (seats srcDraft)) = Some source ∧
        drafted s = [] ∧ sideboard s = [] ∧ pickorder s = [] ∧ trashorder s = [] ∧
        (j = 0 →
           bot s = None ∧ userid s = _id <$> user req ∧
           name s = match user req with Some u => username u | None => "Anonymous" end) ∧
        (j ≠ 0 → bot s = Some [] ∧ name s = name source ∧ userid s = userid source).
Proof.
  intros Hid Hsrc Hseat Hk Hcube Hview.
  destruct (redraft_valid req db id srcDraft k c) as [overrides Hrun]; try done.
  eexists _, _. split; [exact Hrun|]. split_and!; try done.
  - cbn [seats redrafted]. rewrite length_imap, length_app, length_drop, length_take. lia.
  - intros j s. cbn [seats redrafted].
    intros (source & Hsource & ->)%list_lookup_imap_Some.
    exists source. split.
    { rewrite <- rotateArrayLeft_drop_take in Hsource by lia.
      rewrite <- rotateArrayLeft_lookup; [done|done|].
      apply lookup_lt_Some in Hsource. by rewrite length_rotateArrayLeft in Hsource. }
    unfold redraftedSeat. destruct (decide (j = 0)) as [->|Hj].
    + by destruct (user req).
    + done.
Qed.

(** C2. The draft a redraft saves has the card pool and the initial packs
    of the source draft, the same values in the same order; so has the
    draft it sends, whose cards are the source's with details inserted. *)
Theorem redraft_preserves_packs (req : Request) (db : Db) id (srcDraft : Draft) (k : nat)
    (c : Cube) :
  castObjectId (params_id req) = Some id → drafts db !! id = Some srcDraft →
  parseInt (params_seat req) = ofNat k → k < length (seats srcDraft) →
  cubes db !! cube srcDraft = Some c → isCubeViewable (Some c) (user req) = true →
  ∃ draft sent,
    redraft req db = (Sent sent, save (newId db) draft db) ∧
    cards draft = cards srcDraft ∧
    initial_state draft = initial_state srcDraft ∧
    length (cards draft) = length (cards srcDraft) ∧
    length (initial_state draft) = length (initial_state srcDraft) ∧
    initial_state sent = initial_state srcDraft ∧
    cardID <$> cards sent = cardID <$> cards srcDraft.
Proof.
  intros Hid Hsrc Hseat Hk Hcube Hview.
  destruct (redraft_valid req db id srcDraft k c) as [overrides Hrun]; try done.
  eexists _, _. split; [exact Hrun|]. split_and!; try done.
  cbn [cards withCards]. rewrite <- list_fmap_compose. by apply list_fmap_ext.
Qed.

(** C4 (as amended). The handler does not read the lifecycle state of the
    source draft. It refuses a draft that is not stored, with the message
    "This deck is not able to be redrafted."; for a stored draft, finished
    or not, a seat of the draft and a viewable cube give a new draft
    session, saved under an identifier no draft had. *)
Theorem redraft_ignores_lifecycle (req : Request) (db : Db) id :
  castObjectId (params_id req) = Some id →
  (drafts db !! id = None →
     redraft req db =
       (Redirect [("danger", "This deck is not able to be redrafted.")] (deckPage req), db)) ∧
  (∀ srcDraft (finished : bool) (k : nat) (c : Cube),
     drafts db !! id = Some srcDraft → complete srcDraft = finished →
     parseInt (params_seat req) = ofNat k → k < length (seats srcDraft) →
     cubes db !! cube srcDraft = Some c → isCubeViewable (Some c) (user req) = true →
     ∃ sent,
       redraft req db = (Sent sent, save (newId db) (redrafted srcDraft k (user req)) db) ∧
       drafts db !! newId db = None).
Proof.
  intros Hid. split.
  - intros Hnone. unfold redraft. by rewrite Hid, Hnone.
  - intros srcDraft finished k c Hsrc _ Hseat Hk Hcube Hview.
    destruct (redraft_valid req db id srcDraft k c) as [overrides Hrun]; try done.
    eexists. split; [exact Hrun|apply newId_fresh].
Qed.

(** C5 (as amended). With the source draft stored, the seat parameter
    reads, by [parseInt], as [NaN] or as an integer. When it reads as [NaN] or as an
    integer outside [0, seatCount) the handler answers with the redirect
    that flashes "Did not give a valid seat number to redraft as." (under
    the category spelled [dange]), not with an error, and stores nothing;
    when it reads as an integer in [0, seatCount) the answer is not that
    refusal. *)
Theorem redraft_validates_seat (req : Request) (db : Db) id (srcDraft : Draft) :
  castObjectId (params_id req) = Some id → drafts db !! id = Some srcDraft →
  let seat := parseInt (params_seat req) in
  let seatCount := Z.of_nat (length (seats srcDraft)) in
  (seat = NaN ∨ ∃ z, seat = ofZ z) ∧
  ((seat = NaN ∨ ∃ z, seat = ofZ z ∧ (z < 0 ∨ seatCount ≤ z)%Z) →
     redraft req db = (seatRefused req, db)) ∧
  (∀ z, seat = ofZ z → (0 ≤ z < seatCount)%Z → (redraft req db).1 ≠ seatRefused req).
Proof.
  intros Hid Hsrc seat seatCount. split; [apply parseInt_cases|]. split.
  - intros Hbad. unfold redraft. rewrite Hid, Hsrc. fold seat.
    destruct Hbad as [->|(z & -> & Hz)]; [done|].
    rewrite seat_guard.
    replace ((0 <=? z)%Z && (z <? Z.of_nat (length (seats srcDraft)))%Z) with false; [done|].
    symmetry. apply andb_false_iff. rewrite Z.leb_gt, Z.ltb_ge. fold seatCount. lia.
  - intros z Hz Hrange. unfold redraft. rewrite Hid, Hsrc. fold seat. rewrite Hz, seat_guard.
    replace ((0 <=? z)%Z && (z <? Z.of_nat (length (seats srcDraft)))%Z) with true.
    2:{ symmetry. apply andb_true_iff. rewrite Z.leb_le, Z.ltb_lt. fold seatCount. lia. }
    cbn [negb]. cbv zeta. unfold seatRefused.
    destruct (isCubeViewable _ _); [|done]. cbn [negb].
    destruct (build _ _ _); [|done].
    destruct (cubes db !! _); [|done].
    by destruct (drafts (save _ _ _) !! _).
Qed.

(** C6. A redraft of a stored draft from one of its seats saves a new
    draft under an identifier that no draft had, which is not the source's,
    and the source draft is stored afterwards exactly as before, every
    seat with its bot descriptor, drafted pool, sideboard, pick order and
    trash order; so is every other draft, cube and analytic. (The handler
    writes to seat objects of its own snapshot of the source only; the
    snapshot ends with the request and is never saved.) *)
Theorem redraft_leaves_source (req : Request) (db : Db) id (srcDraft : Draft) (k : nat)
    (c : Cube) :
  castObjectId (params_id req) = Some id → drafts db !! id = Some srcDraft →
  parseInt (params_seat req) = ofNat k → k < length (seats srcDraft) →
  cubes db !! cube srcDraft = Some c → isCubeViewable (Some c) (user req) = true →
  ∃ draft sent db',
    redraft req db = (Sent sent, db') ∧
    drafts db !! newId db = None ∧ newId db ≠ id ∧
    drafts db' !! newId db = Some draft ∧
    drafts db' !! id = Some srcDraft ∧
    (∀ j, (drafts db' !! id ≫= λ d, seats d !! j) = seats srcDraft !! j) ∧
    (∀ other, other ≠ newId db → drafts db' !! other = drafts db !! other) ∧
    cubes db' = cubes db ∧ analytics db' = analytics db.
Proof.
  intros Hid Hsrc Hseat Hk Hcube Hview.
  destruct (redraft_valid req db id srcDraft k c) as [overrides Hrun]; try done.
  pose proof (newId_fresh db) as Hfresh.
  assert (Hne : newId db ≠ id) by (intros Heq; rewrite Heq in Hfresh; congruence).
  eexists _, _, _. split; [exact Hrun|]. cbn [drafts cubes analytics save].
  split_and!; try done.
  - apply lookup_insert_eq.
  - by rewrite lookup_insert_ne.
  - intros j. by rewrite lookup_insert_ne, Hsrc.
  - intros other Hother. by rewrite lookup_insert_ne.
Qed.

(** No request makes the handler change or remove a stored draft. *)
Lemma redraft_keeps_stored (req : Request) (db : Db) id (d : Draft) :
  drafts db !! id = Some d → drafts (redraft req db).2 !! id = Some d.
Proof.
  intros Hd. destruct (redraft_changes req db) as [->|[draft ->]]; [done|].
  cbn [drafts save]. rewrite lookup_insert_ne; [done|].
  intros Heq. pose proof (newId_fresh db) as Hfresh. rewrite Heq in Hfresh. congruence.
Qed.

End RedraftProperties.

Section RedraftExamples.
Import Js Redraft.

Lemma redraft_rotates_seats_witness :
  ∃ draft sent,
    @redraft sampleImports {| params_id := "40"; params_seat := "2"; user := Some viewer |}
      sampleDb = (Sent sent, save (newId sampleDb) draft sampleDb) ∧
    name <$> seats draft = ["carol"; "D"; "A"; "B"] ∧
    bot <$> seats draft = [None; Some []; Some []; Some []] ∧
    pickorder <$> seats draft = [[]; []; []; []].
Proof.
  destruct (@redraft_rotates_seats sampleImports
              {| params_id := "40"; params_seat := "2"; user := Some viewer |}
              sampleDb 40%N finishedDraft 2 {| useCubeElo := false |})
    as (draft & sent & Hrun & _ & Hseats & _);
    [reflexivity | reflexivity | reflexivity | simpl; lia | reflexivity | reflexivity |].
  exists draft, sent. split; [exact Hrun|]. by rewrite Hseats.
Defined.

Lemma redraft_preserves_packs_witness :
  ∃ draft sent,
    @redraft sampleImports {| params_id := "40"; params_seat := "2"; user := Some viewer |}
      sampleDb = (Sent sent, save (newId sampleDb) draft sampleDb) ∧
    cards draft = samplePool ∧
    initial_state draft = [[[0; 1]]; [[2; 3]]; [[4; 5]]; [[6; 7]]].
Proof.
  destruct (@redraft_preserves_packs sampleImports
              {| params_id := "40"; params_seat := "2"; user := Some viewer |}
              sampleDb 40%N finishedDraft 2 {| useCubeElo := false |})
    as (draft & sent & Hrun & Hcards & Hpacks & _);
    [reflexivity | reflexivity | reflexivity | simpl; lia | reflexivity | reflexivity |].
  exists draft, sent. split; [exact Hrun|]. by rewrite Hcards, Hpacks.
Defined.

(** C4 as stated fails: the stored draft 41 has seats with cards left to
    pick, and its redraft from seat 0 is accepted and saved as draft 42. *)
Lemma redraft_accepts_unfinished_draft :
  complete startedDraft = false ∧
  drafts sampleDb !! 42%N = None ∧
  ∃ sent,
    @redraft sampleImports {| params_id := "41"; params_seat := "0"; user := None |} sampleDb =
      (Sent sent, save 42%N (redrafted startedDraft 0 None) sampleDb).
Proof. split; [reflexivity|]. split; [reflexivity|]. eexists. reflexivity. Qed.

Lemma redraft_ignores_lifecycle_witness :
  ∃ sent,
    @redraft sampleImports {| params_id := "41"; params_seat := "0"; user := None |} sampleDb =
      (Sent sent, save (newId sampleDb) (redrafted startedDraft 0 None) sampleDb) ∧
    drafts sampleDb !! newId sampleDb = None.
Proof.
  apply (proj2 (@redraft_ignores_lifecycle sampleImports
                  {| params_id := "41"; params_seat := "0"; user := None |} sampleDb 41%N
                  eq_refl)
           startedDraft false 0 {| useCubeElo := false |});
    [reflexivity | reflexivity | reflexivity | simpl; lia | reflexivity | reflexivity].
Defined.

(** C5 as stated fails: the seat parameters [1.5] and [2abc] are no
    integers, yet [parseInt] reads a leading 1 and 2 from them, and the
    redrafts of the stored draft 40 are accepted and saved as draft 42. *)
Lemma redraft_accepts_fractional_seat :
  integerSeat "1.5" = None ∧ integerSeat "2abc" = None ∧ integerSeat "2" = Some 2%Z ∧
  drafts sampleDb !! 42%N = None ∧
  (∃ sent,
     @redraft sampleImports {| params_id := "40"; params_seat := "1.5"; user := None |}
       sampleDb = (Sent sent, save 42%N (redrafted finishedDraft 1 None) sampleDb)) ∧
  (∃ sent,
     @redraft sampleImports {| params_id := "40"; params_seat := "2abc"; user := None |}
       sampleDb = (Sent sent, save 42%N (redrafted finishedDraft 2 None) sampleDb)).
Proof.
  split; [reflexivity|]. split; [reflexivity|]. split; [reflexivity|].
  split; [reflexivity|]. split; eexists; reflexivity.
Qed.

Lemma redraft_validates_seat_witness :
  @redraft sampleImports {| params_id := "40"; params_seat := "4"; user := None |} sampleDb =
    (seatRefused {| params_id := "40"; params_seat := "4"; user := None |}, sampleDb) ∧
  @redraft sampleImports {| params_id := "40"; params_seat := "seat"; user := None |} sampleDb =
    (seatRefused {| params_id := "40"; params_seat := "seat"; user := None |}, sampleDb) ∧
  (@redraft sampleImports {| params_id := "40"; params_seat := "3"; user := None |} sampleDb).1
    ≠ seatRefused {| params_id := "40"; params_seat := "3"; user := None |}.
Proof.
  split; [|split].
  - apply (@redraft_validates_seat sampleImports
             {| params_id := "40"; params_seat := "4"; user := None |} sampleDb 40%N
             finishedDraft eq_refl eq_refl).
    right. exists 4%Z. split; [reflexivity | simpl; lia].
  - apply (@redraft_validates_seat sampleImports
             {| params_id := "40"; params_seat := "seat"; user := None |} sampleDb 40%N
             finishedDraft eq_refl eq_refl).
    left. reflexivity.
  - apply (proj2 (proj2 (@redraft_validates_seat sampleImports
             {| params_id := "40"; params_seat := "3"; user := None |} sampleDb 40%N
             finishedDraft eq_refl eq_refl)) 3%Z); [reflexivity | simpl; lia].
Defined.

Lemma redraft_leaves_source_witness :
  ∃ draft sent db',
    @redraft sampleImports {| params_id := "40"; params_seat := "2"; user := Some viewer |}
      sampleDb = (Sent sent, db') ∧
    drafts db' !! 42%N = Some draft ∧
    drafts db' !! 40%N = Some finishedDraft.
Proof.
  destruct (@redraft_leaves_source sampleImports
              {| params_id := "40"; params_seat := "2"; user := Some viewer |}
              sampleDb 40%N finishedDraft 2 {| useCubeElo := false |})
    as (draft & sent & db' & Hrun & _ & _ & Hnew & Hsource & _);
    [reflexivity | reflexivity | reflexivity | simpl; lia | reflexivity | reflexivity |].
  exists draft, sent, db'. split; [exact Hrun|]. split; [exact Hnew | exact Hsource].
Defined.

End RedraftExamples.

(** ** Pack generation *)

Section PacksProperties.
Import Packs.
Context `{SeededRng}.

Lemma seedGiven_text (seed : string) : seed ≠ "" → seedGiven (Some seed) = Some seed.
Proof.
  intros Hseed. unfold seedGiven.
  destruct (String.eqb_spec seed ""); [done|done].
Qed.

(** With a seed given, the result of [generatePack] is the template
    resolved from the generator state of that seed, and carries the seed. *)
Lemma generatePack_seeded (cube : Cube) (seed : string) (ambient : Entropy) :
  seed ≠ "" →
  generatePack cube (Some seed) ambient =
    match resolveSlots (pool cube) 0 (template cube) [] (seeded seed) with
    | inl failure => inl failure
    | inr chosen => inr {| Packs.seed := seed; pack := chosen |}
    end.
Proof. intros Hseed. unfold generatePack. by rewrite seedGiven_text. Qed.

(** A pack holds one card for each slot of the template. *)
Lemma resolveSlots_length (pool : list Card) (slotIndex : nat) (slots : list SlotRule)
    (alreadyChosen : list Card) (rng : RngState) (chosen : list Card) :
  resolveSlots pool slotIndex slots alreadyChosen rng = inr chosen →
  length chosen = length alreadyChosen + length slots.
Proof.
  revert slotIndex alreadyChosen rng.
  induction slots as [|slotRule rest IH]; intros slotIndex alreadyChosen rng; simpl.
  { intros [= <-]. lia. }
  destruct (resolveSlot _ _ _ _ _) as [failure|[card rng']]; [done|].
  intros Hrest%IH. rewrite length_app in Hrest. simpl in Hrest. lia.
Qed.

(** C3. For a cube snapshot (pool and template) and a seed, two calls of
    [generatePack], whatever the clock and randomness around each, return
    the same result: the same cards in the same order under the same seed,
    or the same failure; and [GET /p1p1/:id/:seed] answers the same
    twice. *)
Theorem generatePack_deterministic (cube : Cube) (seed : string) (ambient1 ambient2 : Entropy) :
  seed ≠ "" →
  generatePack cube (Some seed) ambient1 = generatePack cube (Some seed) ambient2 ∧
  (∀ generated, generatePack cube (Some seed) ambient1 = inr generated →
     Packs.seed generated = seed ∧ length (pack generated) = length (template cube)) ∧
  (∀ viewable, p1p1Seed (Some cube) viewable seed ambient1 =
               p1p1Seed (Some cube) viewable seed ambient2).
Proof.
  intros Hseed. split; [|split].
  - by rewrite !generatePack_seeded.
  - intros generated. rewrite generatePack_seeded by done.
    destruct (resolveSlots _ _ _ _ _) as [failure|chosen] eqn:Hchosen; [done|].
    intros [= <-]. split; [done|]. by apply resolveSlots_length in Hchosen.
  - intros viewable. unfold p1p1Seed. by rewrite !generatePack_seeded.
Qed.

End PacksProperties.

Section PacksExamples.
Import Packs.

Lemma generatePack_deterministic_witness :
  @generatePack sampleRng sampleCube (Some "k3x9") 17 =
    @generatePack sampleRng sampleCube (Some "k3x9") 2024 ∧
  @p1p1Seed sampleRng (Some sampleCube) true "k3x9" 17 =
    @p1p1Seed sampleRng (Some sampleCube) true "k3x9" 2024.
Proof.
  destruct (@generatePack_deterministic sampleRng sampleCube "k3x9" 17 2024) as (Hsame & _ & Hroute);
    [discriminate|].
  split; [exact Hsame | exact (Hroute true)].
Defined.

(** Without a seed the clock shows: two mintings give two packs. *)
Example generatePack_minted :
  @generatePack sampleRng sampleCube None 0 ≠ @generatePack sampleRng sampleCube None 1.
Proof. vm_compute. discriminate. Qed.

Example p1p1Seed_sample :
  @p1p1Seed sampleRng (Some sampleCube) true "k3x9" 17 =
    PackSent "k3x9" ["Oko"; "Shock"; "Duress"].
Proof. vm_compute. reflexivity. Qed.

End PacksExamples.

(* ===================================================================== *)
(** * Further properties of the handlers                                 *)
(* ===================================================================== *)

(** ** The featured-cubes queue as a whole *)

Section FeaturedAdminProperties.
Import Js FeaturedQueue FeaturedAdmin.

Lemma findIndexFrom_all_false {A} (p : A → bool) (arr : list A) (i : Z) :
  Forall (λ x, p x = false) arr → findIndexFrom p arr i = (-1)%Z.
Proof.
  intros Hall. revert i. induction Hall as [|x arr Hx _ IH]; intros i; [done|].
  simpl. by rewrite Hx.
Qed.

Lemma withQueue_same (stored : FeaturedCubes) : withQueue (queue stored) stored = stored.
Proof. by destruct stored. Qed.

Lemma take_delete_ge {A} (l : list A) (k i : nat) :
  k ≤ i → take k (delete i l) = take k l.
Proof.
  revert k i. induction l as [|x l IH]; intros k i Hk; [by destruct i|].
  destruct i as [|i]; [by replace k with 0 by lia|].
  destruct k as [|k]; [done|]. simpl. f_equal. apply IH. lia.
Qed.

Lemma spliceIn_delete {A} (l : list A) (n : nat) (x : A) :
  l !! n = Some x → spliceIn (delete n l) n x = l.
Proof.
  intros Hn. pose proof (lookup_lt_Some _ _ _ Hn) as Hlt.
  unfold spliceIn. rewrite delete_take_drop.
  rewrite take_app_le, drop_app_ge by (rewrite length_take; lia).
  rewrite take_take, length_take.
  replace (n `min` n) with n by lia. replace (n - n `min` length l) with 0 by lia.
  rewrite drop_0. by apply take_drop_middle.
Qed.

Lemma spliceIn_permutation {A} (l : list A) (n : nat) (x : A) : spliceIn l n x ≡ₚ x :: l.
Proof. unfold spliceIn. by rewrite <- Permutation_middle, take_drop. Qed.

(** What [queueCube] leaves of the queue: the queue as it was, or with the
    cube found at its end. *)
Lemma queueCube_outcomes (findOne : string → option Cube) (cubeId : string)
    (stored : FeaturedCubes) :
  (queueCube findOne cubeId stored).2 = stored ∨
  ∃ cube, findOne cubeId = Some cube ∧ isPrivate cube = false ∧
    Forall (λ e, cubeID e ≠ _id cube) (queue stored) ∧
    (queueCube findOne cubeId stored).2 =
      withQueue (queue stored ++ [{| cubeID := _id cube; ownerID := owner cube |}]) stored.
Proof.
  unfold queueCube. destruct (String.eqb cubeId ""); [by left|].
  destruct (findOne cubeId) as [cube|]; [|by left].
  destruct (isPrivate cube) eqn:Hprivate; [by left|].
  unfold updateFeatured, queueTransform.
  destruct (findIndex _ _ =? -1)%Z eqn:Hindex; cbn [negb]; [|by left].
  right. exists cube. split_and!; try done.
  apply Z.eqb_eq, findIndexFrom_none in Hindex; [|lia].
  eapply Forall_impl; [exact Hindex|]. intros e He Heq. simpl in He.
  apply not_true_iff_false in He. apply He, equals_true. done.
Qed.

(** What [unqueue] leaves of the queue: the queue as it was, or without one
    entry at a position from 2 on. *)
Lemma unqueue_outcomes (cubeId : option ObjectId) (stored : FeaturedCubes) :
  (unqueue cubeId stored).2 = stored ∨
  ∃ i, 2 ≤ i ∧ (unqueue cubeId stored).2 = withQueue (delete i (queue stored)) stored.
Proof.
  unfold unqueue, updateFeatured, unqueueTransform, spliceOut.
  destruct cubeId as [id|]; [|by left].
  destruct (_ =? -1)%Z; [by left|].
  destruct (_ <? 2)%Z eqn:Hlow; [by left|].
  right. exists (Z.to_nat (findIndex (λ c, equals (cubeID c) id) (queue stored))).
  apply Z.ltb_ge in Hlow. split; [lia|].
  by destruct (take 1 _).
Qed.

(** What [move] leaves of the queue: the queue as it was, or with the entry
    of a position from 2 on put at another such position. *)
Lemma move_outcomes (body : MoveBody) (stored : FeaturedCubes) :
  (move body stored).2 = stored ∨
  ∃ (from to : nat) entry,
    2 ≤ from ∧ 2 ≤ to ∧ to < length (queue stored) ∧ queue stored !! from = Some entry ∧
    mv_cubeId body = Some (cubeID entry) ∧
    mv_from body = Some (Z.of_nat from + 1)%Z ∧ mv_to body = Some (Z.of_nat to + 1)%Z ∧
    move body stored =
      (Redirected [("success", "Successfully moved cube")] [] page,
       withQueue (spliceIn (delete from (queue stored)) to entry) stored).
Proof.
  destruct (moveErrors body) as [|m ms] eqn:Herr.
  2:{ left. by rewrite move_invalid by (by rewrite Herr). }
  destruct (moveErrors_nil body Herr) as (c & f & t & Hc & Hf & Ht & Hf2 & Ht2).
  rewrite (move_validated body stored c f t Herr Hc Hf Ht).
  destruct (moveTransform_cases c (f - 1) (t - 1) stored) as
    [(message & -> & _)|(entry & Hentry & <- & Hlt & ->)]; [lia|lia|by left|].
  right. exists (Z.to_nat (f - 1)), (Z.to_nat (t - 1)), entry.
  split_and!; try done; try lia.
  - rewrite Hf. f_equal. lia.
  - rewrite Ht. f_equal. lia.
Qed.

Lemma setperiod_queue (daysParam : string) (stored : FeaturedCubes) :
  queue (setperiod daysParam stored).2 = queue stored.
Proof. unfold setperiod, updateFeatured. by destruct (integerOf _). Qed.

(** X1. None of the handlers that edit the featured queue ([queue],
    [unqueue], [move], [setperiod]) ever leaves a cube queued twice in a
    queue that held no cube twice. *)
Theorem featured_queue_stays_duplicate_free (stored : FeaturedCubes) :
  wellFormed stored →
  (∀ findOne cubeId, wellFormed (queueCube findOne cubeId stored).2) ∧
  (∀ cubeId, wellFormed (unqueue cubeId stored).2) ∧
  (∀ body, wellFormed (move body stored).2) ∧
  (∀ daysParam, wellFormed (setperiod daysParam stored).2).
Proof.
  intros Hwf. split_and!.
  - intros findOne cubeId.
    destruct (queueCube_outcomes findOne cubeId stored) as [->|(cube & _ & _ & Hnew & ->)];
      [done|].
    unfold wellFormed in *. cbn [queue withQueue]. rewrite fmap_app. cbn [fmap list_fmap].
    apply NoDup_app. split_and!; [done| |apply NoDup_singleton].
    intros id (e & -> & He)%list_elem_of_fmap Heq%list_elem_of_singleton.
    rewrite Forall_forall in Hnew. by apply (Hnew e He).
  - intros cubeId. by apply unqueue_wellFormed.
  - intros body. by apply move_wellFormed.
  - intros daysParam. unfold wellFormed. by rewrite setperiod_queue.
Qed.

Lemma featured_queue_stays_duplicate_free_witness :
  wellFormed (queueCube sampleFindOne "cube30" sampleQueue).2 ∧
  wellFormed (unqueue (Some 13%N) sampleQueue).2 ∧
  wellFormed (move {| mv_cubeId := Some 12%N; mv_from := Some 3%Z; mv_to := Some 5%Z |}
                sampleQueue).2 ∧
  wellFormed (setperiod "14" sampleQueue).2.
Proof.
  assert (Hwf : wellFormed sampleQueue).
  { unfold wellFormed. simpl. apply NoDup_ListNoDup. repeat constructor; simpl; intuition lia. }
  destruct (featured_queue_stays_duplicate_free sampleQueue Hwf) as (Hq & Hu & Hm & Hp).
  split_and!; [apply Hq | apply Hu | apply Hm | apply Hp].
Defined.

(** X2. A cube that is queued goes to the end of the queue. When two cubes
    or more were queued before, taking it out again with [unqueue] gives
    back the queue as it was; when fewer were, the cube has become a
    featured one and [unqueue] refuses to take it out. *)
Theorem unqueue_after_queue (findOne : string → option Cube) (cubeId : string) (cube : Cube)
    (stored : FeaturedCubes) :
  cubeId ≠ "" → findOne cubeId = Some cube → isPrivate cube = false →
  Forall (λ e, cubeID e ≠ _id cube) (queue stored) →
  let queued := (queueCube findOne cubeId stored).2 in
  queue queued = queue stored ++ [{| cubeID := _id cube; ownerID := owner cube |}] ∧
  (2 ≤ length (queue stored) → (unqueue (Some (_id cube)) queued).2 = stored) ∧
  (length (queue stored) < 2 →
     unqueue (Some (_id cube)) queued =
       (Redirected [("danger", "Cannot remove currently featured cube from queue")] [] page,
        queued)).
Proof.
  intros Hid Hfound Hpublic Hnew queued.
  set (entry := {| cubeID := _id cube; ownerID := owner cube |}).
  assert (Hqueued : queued = withQueue (queue stored ++ [entry]) stored).
  { unfold queued, queueCube, updateFeatured, queueTransform.
    destruct (String.eqb_spec cubeId ""); [done|]. rewrite Hfound, Hpublic.
    unfold findIndex. rewrite findIndexFrom_all_false; [done|].
    eapply Forall_impl; [exact Hnew|]. intros e He. simpl.
    apply not_true_iff_false. by intros ?%equals_true. }
  assert (Hindex : findIndex (λ c, equals (cubeID c) (_id cube)) (queue queued) =
                   Z.of_nat (length (queue stored))).
  { rewrite Hqueued. cbn [queue withQueue]. unfold findIndex.
    rewrite (findIndexFrom_first _ _ 0%Z (length (queue stored)) entry); [lia| | |].
    - rewrite lookup_app_r by lia. by rewrite Nat.sub_diag.
    - by apply equals_true.
    - intros j e Hj He. rewrite lookup_app_l in He by lia.
      rewrite Forall_forall in Hnew. apply not_true_iff_false. intros Heq%equals_true.
      apply (Hnew e); [by eapply list_elem_of_lookup_2|done]. }
  split_and!.
  - by rewrite Hqueued.
  - intros Hlen. unfold unqueue, updateFeatured, unqueueTransform. rewrite Hindex.
    replace (_ =? -1)%Z with false by cmp_false.
    replace (_ <? 2)%Z with false by cmp_false.
    rewrite Nat2Z.id, Hqueued. cbn [queue withQueue].
    rewrite (spliceOut_lookup _ _ entry)
      by (rewrite lookup_app_r by lia; by rewrite Nat.sub_diag).
    rewrite delete_middle, app_nil_r. by destruct stored.
  - intros Hlen. unfold unqueue, updateFeatured, unqueueTransform. rewrite Hindex.
    replace (_ =? -1)%Z with false by cmp_false.
    by replace (_ <? 2)%Z with true by cmp_true.
Qed.

Lemma unqueue_after_queue_witness :
  (unqueue (Some 30%N) (queueCube sampleFindOne "cube30" sampleQueue).2).2 = sampleQueue.
Proof.
  apply (unqueue_after_queue sampleFindOne "cube30"
           {| _id := 30; owner := 9; isPrivate := false |}%N sampleQueue);
    [discriminate | reflexivity | reflexivity | | simpl; lia].
  repeat constructor; simpl; discriminate.
Defined.

(** A validated move of the cube found at the source position to a target
    below the length of the queue succeeds. *)
Lemma move_succeeds (body : MoveBody) (stored : FeaturedCubes) (from to : nat)
    (entry : QueueEntry) :
  mv_cubeId body = Some (cubeID entry) →
  mv_from body = Some (Z.of_nat from + 1)%Z → mv_to body = Some (Z.of_nat to + 1)%Z →
  2 ≤ from → 2 ≤ to → queue stored !! from = Some entry → to < length (queue stored) →
  move body stored =
    (Redirected [("success", "Successfully moved cube")] [] page,
     withQueue (spliceIn (delete from (queue stored)) to entry) stored).
Proof.
  intros Hc Hf Ht Hfrom Hto Hentry Hlt.
  assert (Herr : moveErrors body = []).
  { unfold moveErrors. rewrite Hc, Hf, Ht.
    replace (2 <? Z.of_nat from + 1)%Z with true by cmp_true.
    by replace (2 <? Z.of_nat to + 1)%Z with true by cmp_true. }
  rewrite (move_validated body stored _ _ _ Herr Hc Hf Ht).
  replace (Z.of_nat from + 1 - 1)%Z with (Z.of_nat from) by lia.
  replace (Z.of_nat to + 1 - 1)%Z with (Z.of_nat to) by lia.
  destruct (moveTransform_cases (cubeID entry) (Z.of_nat from) (Z.of_nat to) stored) as
    [(message & _ & [Hbad|[(entry' & Hentry' & Hne)|Hbad]])|(entry' & Hentry' & _ & _ & ->)];
    [lia|lia|..]; rewrite ?Nat2Z.id in *.
  - apply lookup_lt_Some in Hentry. lia.
  - congruence.
  - lia.
  - by replace entry' with entry by congruence.
Qed.

(** X3. A move that succeeds is undone by the move back: moving the entry
    from the target position to the source position gives the queue as it
    was. *)
Theorem move_back_restores (body : MoveBody) (stored : FeaturedCubes) (from to : nat)
    (entry : QueueEntry) :
  mv_cubeId body = Some (cubeID entry) →
  mv_from body = Some (Z.of_nat from + 1)%Z → mv_to body = Some (Z.of_nat to + 1)%Z →
  2 ≤ from → 2 ≤ to → queue stored !! from = Some entry → to < length (queue stored) →
  move {| mv_cubeId := Some (cubeID entry); mv_from := Some (Z.of_nat to + 1)%Z;
          mv_to := Some (Z.of_nat from + 1)%Z |}
       (move body stored).2 =
    (Redirected [("success", "Successfully moved cube")] [] page, stored).
Proof.
  intros Hc Hf Ht Hfrom Hto Hentry Hlt.
  pose proof (lookup_lt_Some _ _ _ Hentry) as Hflt.
  assert (Hrest : to ≤ length (delete from (queue stored))).
  { rewrite length_delete by eauto. lia. }
  rewrite (move_succeeds body stored from to entry) by done. cbn [snd].
  rewrite (move_succeeds _ _ to from entry); cbn [queue withQueue mv_cubeId mv_from mv_to];
    try done.
  - rewrite delete_spliceIn by done. rewrite spliceIn_delete by done.
    by destruct stored.
  - by apply spliceIn_lookup.
  - unfold spliceIn. rewrite length_app, length_take. cbn [length].
    rewrite length_drop, length_delete by eauto. lia.
Qed.

Lemma move_back_restores_witness :
  move {| mv_cubeId := Some 12%N; mv_from := Some 5%Z; mv_to := Some 3%Z |}
       (move {| mv_cubeId := Some 12%N; mv_from := Some 3%Z; mv_to := Some 5%Z |}
          sampleQueue).2 =
    (Redirected [("success", "Successfully moved cube")] [] page, sampleQueue).
Proof.
  apply (move_back_restores
           {| mv_cubeId := Some 12%N; mv_from := Some 3%Z; mv_to := Some 5%Z |}
           sampleQueue 2 4 {| cubeID := 12; ownerID := 3 |}%N);
    [reflexivity | reflexivity | reflexivity | lia | lia | reflexivity | simpl; lia].
Defined.

(** X4. The two entries that are featured stay where they are: [unqueue],
    [move] and [setperiod] never change the first two positions of the
    queue, and [queue] does not once two cubes are queued. A move keeps
    every entry of the queue, [setperiod] the queue as a whole. *)
Theorem featured_entries_stay (stored : FeaturedCubes) :
  (∀ cubeId, take 2 (queue (unqueue cubeId stored).2) = take 2 (queue stored)) ∧
  (∀ body, take 2 (queue (move body stored).2) = take 2 (queue stored) ∧
           queue (move body stored).2 ≡ₚ queue stored) ∧
  (∀ daysParam, queue (setperiod daysParam stored).2 = queue stored) ∧
  (∀ findOne cubeId, 2 ≤ length (queue stored) →
     take 2 (queue (queueCube findOne cubeId stored).2) = take 2 (queue stored)).
Proof.
  split_and!.
  - intros cubeId. destruct (unqueue_outcomes cubeId stored) as [->|(i & Hi & ->)]; [done|].
    cbn [queue withQueue]. by apply take_delete_ge.
  - intros body.
    destruct (move_outcomes body stored)
      as [->|(from & to & entry & Hfrom & Hto & Hlt & Hentry & _ & _ & _ & ->)]; [done|].
    cbn [snd queue withQueue]. split.
    + unfold spliceIn. rewrite take_app_le by (rewrite length_take, length_delete by eauto; lia).
      rewrite take_take. replace (2 `min` to) with 2 by lia. by apply take_delete_ge.
    + rewrite spliceIn_permutation, delete_take_drop.
      rewrite <- (take_drop_middle _ _ _ Hentry) at 3. by rewrite Permutation_middle.
  - intros daysParam. apply setperiod_queue.
  - intros findOne cubeId Hlen.
    destruct (queueCube_outcomes findOne cubeId stored) as [->|(cube & _ & _ & _ & ->)]; [done|].
    cbn [queue withQueue]. by rewrite take_app_le by lia.
Qed.

Lemma featured_entries_stay_witness :
  take 2 (queue (queueCube sampleFindOne "cube30" sampleQueue).2) = take 2 (queue sampleQueue).
Proof.
  apply (proj2 (proj2 (proj2 (featured_entries_stay sampleQueue))) sampleFindOne "cube30").
  simpl; lia.
Defined.

(** The cube [GET /featuredcubes] finds for a queued entry: one of the
    collection with the identifier of the entry, when there is one. *)
Lemma find_queued (collection : list Cube) (ids : list ObjectId) (entry : QueueEntry) :
  cubeID entry ∈ ids →
  match List.find (λ c, equals (_id c) (cubeID entry))
          (List.filter (λ c, bool_decide (_id c ∈ ids)) collection) with
  | Some found => _id found = cubeID entry ∧ found ∈ collection
  | None => cubeID entry ∉ _id <$> collection
  end.
Proof.
  intros Hin.
  destruct (List.find _ _) as [found|] eqn:Hfind.
  - apply find_some in Hfind as [Hfound Heq]. apply filter_In in Hfound as [Hfound _].
    split; [by apply equals_true|by apply list_elem_of_In].
  - intros (c & Hc & Hcin)%list_elem_of_fmap.
    pose proof (find_none _ _ Hfind c) as Hnone. simpl in Hnone.
    assert (equals (_id c) (cubeID entry) = true) as Htrue by (by apply equals_true).
    rewrite Hnone in Htrue; [done|].
    apply filter_In. split; [by apply list_elem_of_In|].
    apply bool_decide_eq_true. by rewrite <- Hc.
Qed.

Lemma foldl_listEntry (collection : list Cube) (ids : list ObjectId)
    (entries : list QueueEntry) (acc : list (string * string) * list Cube) :
  Forall (λ e, cubeID e ∈ ids) entries →
  let cubes := List.filter (λ c, bool_decide (_id c ∈ ids)) collection in
  let result := foldl (listEntry cubes) acc entries in
  _id <$> result.2 =
    (_id <$> acc.2) ++ filter (λ id, id ∈ _id <$> collection) (cubeID <$> entries) ∧
  length result.1 + length result.2 = length acc.1 + length acc.2 + length entries ∧
  (Forall (λ c, c ∈ collection) acc.2 → Forall (λ c, c ∈ collection) result.2).
Proof.
  intros Hall cubes. revert acc.
  induction Hall as [|entry entries Hentry _ IH]; intros acc; cbn [foldl].
  { simpl. rewrite app_nil_r. split_and!; [done|lia|done]. }
  destruct (IH (listEntry cubes acc entry)) as (Hids & Hlen & Hin).
  pose proof (find_queued collection ids entry Hentry) as Hfind.
  fold cubes in Hfind. unfold listEntry in Hids, Hlen, Hin |- *.
  cbn [fmap list_fmap]. rewrite filter_cons.
  destruct (List.find _ cubes) as [found|]; cbn [fst snd] in *.
  - destruct Hfind as [Hfound Hcol].
    rewrite decide_True by (rewrite <- Hfound; apply list_elem_of_fmap; eauto).
    split_and!.
    + rewrite Hids, fmap_app. cbn [fmap list_fmap]. rewrite <- app_assoc. by rewrite Hfound.
    + rewrite Hlen, length_app. simpl. lia.
    + intros Hacc. apply Hin, Forall_app. split; [done|]. by constructor.
  - rewrite decide_False by done. split_and!; [done| |done].
    rewrite Hlen, length_app. simpl. lia.
Qed.

(** X5. The page of the featured queue lists the queued cubes that exist
    in the order of the queue, whatever the order the database returns
    them in; every queued entry gives either a listed cube or a flashed
    message, and nothing is listed that is not in the collection. *)
Theorem featuredcubes_in_queue_order (collection : list Cube) (featured : FeaturedCubes) :
  let flashes := (featuredcubes collection featured).1 in
  let sorted := (featuredcubes collection featured).2 in
  _id <$> sorted =
    filter (λ id, id ∈ _id <$> collection) (cubeID <$> queue featured) ∧
  length flashes + length sorted = length (queue featured) ∧
  Forall (λ c, c ∈ collection) sorted.
Proof.
  unfold featuredcubes.
  destruct (foldl_listEntry collection (cubeID <$> queue featured) (queue featured) ([], []))
    as (Hids & Hlen & Hin).
  { apply Forall_forall. intros e He. apply list_elem_of_fmap. eauto. }
  split_and!; [exact Hids|exact Hlen|by apply Hin].
Qed.

Example featuredcubes_sample :
  (featuredcubes sampleCollection sampleQueue).1 =
    [("danger", "Non-existent cube 00000000000000000000000e set as featured")] ∧
  _id <$> (featuredcubes sampleCollection sampleQueue).2 = [10; 11; 12; 13]%N.
Proof. split; reflexivity. Qed.

End FeaturedAdminProperties.

(** ** [/updatecard] and [/updatecards] as a whole *)

Section CubeCardsFurther.
Import Js CubeCards CubeCardsTerms.
Context `{Imports}.

(** The ways through [updatecard]: the request is turned down and nothing
    stored, or the owner of a viewable cube has one card replaced. *)
Lemma updatecard_outcomes (req : UpdateCard) (db : Cubes) :
  ((updatecard req db).2 = db ∧ (updatecard req db).1 ≠ Sent 200 true None) ∨
  ∃ src index i cube card updated,
    uc_src req = Some src ∧ get src "index" = VNum index ∧ uc_updated req = Some updated ∧
    namedIndex req = Some i ∧ db !! uc_id req = Some cube ∧
    isCubeViewable (Some cube) (uc_user req) = true ∧ _id (uc_user req) = owner cube ∧
    storedCard cube index = Some card ∧ i < length (cards cube) ∧
    updatecard req db =
      (Sent 200 true None,
       <[uc_id req :=
           setCubeType
             {| owner := owner cube;
                cards := <[i := completeFrom card updated cardSchemaPaths]> (cards cube);
                type := type cube |}]> db).
Proof.
  unfold updatecard, namedIndex, storedCard, at_.
  destruct (uc_src req) as [src|]; [|by left].
  destruct (get src "index") as [| | |index| |] eqn:Hindex; try by left.
  destruct (uc_updated req) as [updated|]; [|by left].
  destruct (badUpdatedCard updated); [by left|].
  destruct (db !! uc_id req) as [cube|] eqn:Hcube.
  2:{ destruct (isCubeViewable _ _); by left. }
  destruct (isCubeViewable _ _) eqn:Hview; [|by left]. cbn [negb].
  destruct (N.eqb _ _) eqn:Howner; [|by left]. cbn [negb].
  destruct (ge index _); [by left|].
  destruct (asIndex index) as [i|] eqn:Hi; [|by left]. cbn [mbind option_bind].
  destruct (cards cube !! i) as [card|] eqn:Hcard; [|by left]. cbn [fmap option_fmap option_map].
  destruct (cardsAreEquivalent src _) eqn:Heq; [|by left]. cbn [negb].
  right. exists src, index, i, cube. eexists. exists updated.
  rewrite Hindex. cbn [mbind option_bind]. apply N.eqb_eq in Howner.
  rewrite Hi. cbn [mbind option_bind]. rewrite Hcard. cbn [mbind option_bind].
  split_and!; try done. by eapply lookup_lt_Some.
Qed.

(** X6. [updatecard] changes at most one card of one cube: every other
    cube is stored as before, and the cube of the request keeps its owner,
    the length of its card list and every card but the one at the position
    the request names. *)
Theorem updatecard_touches_one_card (req : UpdateCard) (db : Cubes) :
  let db' := (updatecard req db).2 in
  (∀ id, id ≠ uc_id req → db' !! id = db !! id) ∧
  (db !! uc_id req = None → db' !! uc_id req = None) ∧
  (∀ cube, db !! uc_id req = Some cube →
     ∃ cube', db' !! uc_id req = Some cube' ∧ owner cube' = owner cube ∧
       length (cards cube') = length (cards cube) ∧
       ∀ j, namedIndex req ≠ Some j → cards cube' !! j = cards cube !! j).
Proof.
  destruct (updatecard_outcomes req db)
    as [[Hsame _]|(src & index & i & cube & card & updated & _ & _ & _ & Hi & Hcube & _ & _
                   & _ & _ & Hrun)]; cbn zeta.
  - rewrite Hsame. split_and!; [done|done|]. intros cube Hcube. by exists cube.
  - rewrite Hrun. cbn [snd]. split_and!.
    + intros id Hid. by rewrite lookup_insert_ne.
    + intros Hnone. congruence.
    + intros cube0 Hcube0. assert (cube0 = cube) as -> by congruence.
      eexists. rewrite lookup_insert_eq. split; [done|]. cbn [owner cards setCubeType].
      split_and!; [done|apply length_insert|].
      intros j Hj. rewrite list_lookup_insert_ne; [done|]. congruence.
Qed.

Lemma foldl_fill_lookup (card : obj) (paths : list string) (updated : obj) (key : string) :
  foldl (λ (u : obj) k, if hasOwnProperty u k then u else <[k := get card k]> u)
    updated paths !! key =
    match updated !! key with
    | Some v => Some v
    | None => if bool_decide (key ∈ paths) then Some (get card key) else None
    end.
Proof.
  revert updated. induction paths as [|k paths IH]; intros updated; cbn [foldl].
  { by destruct (updated !! key). }
  rewrite IH. unfold hasOwnProperty.
  destruct (updated !! k) as [w|] eqn:Hk.
  - rewrite bool_decide_eq_true_2 by eauto.
    destruct (updated !! key) eqn:Hkey; [done|].
    assert (key ≠ k) by congruence.
    destruct (bool_decide_reflect (key ∈ paths)) as [Hin|Hnin].
    + by rewrite bool_decide_eq_true_2 by by right.
    + rewrite bool_decide_eq_false_2; [done|]. by intros [?|?]%elem_of_cons.
  - rewrite bool_decide_eq_false_2 by (by intros [? ?]).
    destruct (decide (key = k)) as [->|Hne].
    + rewrite lookup_insert_eq, Hk. by rewrite bool_decide_eq_true_2 by by left.
    + rewrite lookup_insert_ne by done.
      destruct (updated !! key) eqn:Hkey; [done|].
      destruct (bool_decide_reflect (key ∈ paths)) as [Hin|Hnin].
      * by rewrite bool_decide_eq_true_2 by by right.
      * rewrite bool_decide_eq_false_2; [done|]. by intros [?|?]%elem_of_cons.
Qed.

(** A property of the card [/updatecard] stores: the value sent for it
    unless that is [null], else none; not sent, the stored card's for a
    path of the schema. *)
Lemma completeFrom_lookup (card updated : obj) (paths : list string) (key : string) :
  completeFrom card updated paths !! key =
    match updated !! key with
    | Some v => if isNull v then None else Some v
    | None =>
        if bool_decide (key ∈ paths)
        then (if isNull (get card key) then None else Some (get card key))
        else None
    end.
Proof.
  unfold completeFrom. rewrite map_lookup_filter, foldl_fill_lookup.
  destruct (updated !! key) as [v|]; cbn [mbind option_bind].
  - destruct (isNull v) eqn:Hv.
    + by rewrite option_guard_False by (simpl; congruence).
    + by rewrite option_guard_True by done.
  - destruct (bool_decide (key ∈ paths)); [|done]. cbn [mbind option_bind].
    destruct (isNull (get card key)) eqn:Hv.
    + by rewrite option_guard_False by (simpl; congruence).
    + by rewrite option_guard_True by done.
Qed.

(** X7. When [/updatecard] answers with success, the card at the named
    position holds, for every property: the value the request sent, none
    when the request sent [null]; and for a property the request did not
    send, the value of the replaced card when the property is a path of the
    card schema (none when that is [null]), none otherwise. *)
Theorem updatecard_merges_fields (req : UpdateCard) (db : Cubes) :
  (updatecard req db).1 = Sent 200 true None →
  ∃ src index i cube card updated cube' stored,
    uc_src req = Some src ∧ get src "index" = VNum index ∧ namedIndex req = Some i ∧
    uc_updated req = Some updated ∧ db !! uc_id req = Some cube ∧
    storedCard cube index = Some card ∧
    (updatecard req db).2 !! uc_id req = Some cube' ∧ cards cube' !! i = Some stored ∧
    ∀ key,
      stored !! key =
        match updated !! key with
        | Some v => if isNull v then None else Some v
        | None =>
            if bool_decide (key ∈ cardSchemaPaths)
            then (if isNull (get card key) then None else Some (get card key))
            else None
        end.
Proof.
  intros Hok.
  destruct (updatecard_outcomes req db)
    as [[_ Hfail]|(src & index & i & cube & card & updated & Hsrc & Hindex & Hupd & Hi & Hcube
                   & _ & _ & Hcard & Hlt & Hrun)]; [done|].
  exists src, index, i, cube, card, updated.
  exists (setCubeType
            {| owner := owner cube;
               cards := <[i := completeFrom card updated cardSchemaPaths]> (cards cube);
               type := type cube |}), (completeFrom card updated cardSchemaPaths).
  split_and!; try done.
  - rewrite Hrun. cbn [snd]. apply lookup_insert_eq.
  - cbn [cards setCubeType]. by apply list_lookup_insert_eq.
  - intros key. apply completeFrom_lookup.
Qed.

(** What the handler checked when [/updatecards] hands an update document
    over, with the owner's identity among it. *)
Lemma updatecards_by_owner (req : UpdateCards) (db : Cubes) (updates : Updates) :
  (updatecards req db).2 = Some updates →
  ∃ cube, db !! ucs_id req = Some cube ∧
    isCubeViewable (Some cube) (ucs_user req) = true ∧ _id (ucs_user req) = owner cube.
Proof.
  unfold updatecards.
  destruct (ucs_updated req) as [updated|]; [|done].
  destruct (badBulk _ _); [done|].
  destruct (db !! ucs_id req) as [cube|] eqn:Hcube.
  2:{ by destruct (isCubeViewable _ _). }
  destruct (isCubeViewable _ _) eqn:Hview; [|done]. cbn [negb].
  destruct (N.eqb _ _) eqn:Howner; [|done]. cbn [negb].
  intros _. exists cube. by apply N.eqb_eq in Howner.
Qed.

(** X8. Cards change for the owner only: whenever [/updatecard] stores
    anything, and whenever [/updatecards] sends an update to the database,
    the cube of the request exists, is viewable by the user and is owned by
    the user. *)
Theorem only_owner_changes_cards :
  (∀ (req : UpdateCard) (db : Cubes),
     (updatecard req db).2 = db ∨
     ∃ cube, db !! uc_id req = Some cube ∧
       isCubeViewable (Some cube) (uc_user req) = true ∧ _id (uc_user req) = owner cube) ∧
  (∀ (req : UpdateCards) (db : Cubes),
     (updatecards req db).2 = None ∨
     ∃ cube, db !! ucs_id req = Some cube ∧
       isCubeViewable (Some cube) (ucs_user req) = true ∧ _id (ucs_user req) = owner cube).
Proof.
  split.
  - intros req db.
    destruct (updatecard_outcomes req db)
      as [[Hsame _]|(src & index & i & cube & card & updated & _ & _ & _ & _ & Hcube & Hview
                     & Howner & _)]; [by left|].
    right. by exists cube.
  - intros req db. destruct ((updatecards req db).2) as [updates|] eqn:Hsent; [|by left].
    right. by eapply updatecards_by_owner.
Qed.

Lemma updateAt_plain (updated : obj) (all : Updates) (index j : nat) (f : string) :
  f ≠ "colors" →
  set_ (updateAt updated all index) !! (j, f) =
    if decide (j = index ∧ f ∈ plainFields)
    then (if truthy (get updated f) then Some (get updated f) else set_ all !! (j, f))
    else set_ all !! (j, f).
Proof.
  intros Hcolors. unfold updateAt, setWhen, plainFields. cbn [set_].
  destruct (decide _) as [[-> Hf]|Hno].
  - repeat (apply elem_of_cons in Hf as [->|Hf]); [..|by apply elem_of_nil in Hf];
      repeat match goal with |- context [truthy ?v] => destruct (truthy v) eqn:? end;
      repeat first [rewrite lookup_insert_eq | rewrite lookup_insert_ne by congruence];
      congruence.
  - assert (∀ g, g ∈ ["status"; "cmc"; "type_line"; "colors"; "finish"] →
              (index, g) ≠ (j, f)) as Hpaths.
    { intros g Hg [= <- <-]. apply Hno. split; [done|].
      repeat (apply elem_of_cons in Hg as [->|Hg]); [..|by apply elem_of_nil in Hg];
        first [done | repeat constructor]. }
    repeat match goal with |- context [truthy ?v] => destruct (truthy v) end;
      repeat (rewrite lookup_insert_ne by (apply Hpaths; repeat constructor));
      done.
Qed.

Lemma foldl_updateAt_plain (updated : obj) (selected : list nat) (all : Updates)
    (j : nat) (f : string) :
  f ≠ "colors" →
  set_ (foldl (updateAt updated) all selected) !! (j, f) =
    if decide (j ∈ selected ∧ f ∈ plainFields)
    then (if truthy (get updated f) then Some (get updated f) else set_ all !! (j, f))
    else set_ all !! (j, f).
Proof.
  intros Hcolors. revert all. induction selected as [|index rest IH]; intros all; cbn [foldl].
  { rewrite decide_False; [done|]. intros [Hin _]. by apply elem_of_nil in Hin. }
  rewrite IH, updateAt_plain by done.
  destruct (decide (j ∈ rest ∧ f ∈ plainFields)) as [[Hin Hf]|Hno].
  - rewrite (decide_True (P := j ∈ index :: rest ∧ _)) by (split; [by right|done]).
    destruct (truthy (get updated f)); [done|]. by destruct (decide _).
  - destruct (decide (j = index ∧ f ∈ plainFields)) as [[-> Hf]|Hno'].
    + by rewrite (decide_True (P := index ∈ index :: rest ∧ _)) by (split; [by left|done]).
    + rewrite decide_False; [done|]. intros [[->|Hin]%elem_of_cons Hf]; tauto.
Qed.

(** X9. The [$set] part of the update document of [/updatecards], away
    from [colors]: at a selected index, a field among [status], [cmc],
    [type_line] and [finish] is written with the sent value when that value
    is truthy; no other path is written.  A mana value of 0 or an empty
    status is therefore never stored. *)
Theorem updatecards_sets_truthy_fields (req : UpdateCards) (db : Cubes) (updates : Updates) :
  (updatecards req db).2 = Some updates →
  ∃ updated, ucs_updated req = Some updated ∧
    ∀ (j : nat) (f : string), f ≠ "colors" →
      set_ updates !! (j, f) =
        if decide (j ∈ indices (ucs_selected req) ∧ f ∈ plainFields)
        then (if truthy (get updated f) then Some (get updated f) else None)
        else None.
Proof.
  destruct (updatecards req db) as [resp sent] eqn:Hrun. cbn [snd]. intros ->.
  apply updatecards_sent in Hrun as (updated & Hupdated & _ & _ & ->).
  exists updated. split; [done|]. intros j f Hf.
  unfold allUpdates. rewrite foldl_updateAt_plain by done. cbn [set_].
  by rewrite lookup_empty.
Qed.

Lemma foldl_tag_lookup (tags : value) (selected : list nat) (m : gmap Path value)
    (j : nat) (f : string) :
  foldl (λ m index, <[(index, "tags") := tags]> m) m selected !! (j, f) =
    if bool_decide (j ∈ selected ∧ f = "tags") then Some tags else m !! (j, f).
Proof.
  revert m. induction selected as [|index rest IH]; intros m; cbn [foldl].
  { rewrite bool_decide_eq_false_2; [done|]. intros [Hin _]. by apply elem_of_nil in Hin. }
  rewrite IH.
  destruct (bool_decide (j ∈ rest ∧ f = "tags")) eqn:Hrest.
  - apply bool_decide_eq_true in Hrest as [Hin ->].
    by rewrite bool_decide_eq_true_2 by (split; [by right|done]).
  - apply bool_decide_eq_false in Hrest.
    destruct (decide ((index, "tags") = (j, f))) as [[= <- <-]|Hne].
    + rewrite lookup_insert_eq. by rewrite bool_decide_eq_true_2 by (split; [by left|done]).
    + rewrite lookup_insert_ne by done.
      rewrite bool_decide_eq_false_2; [done|].
      intros [[->|Hin]%elem_of_cons ->]; tauto.
Qed.

Lemma foldl_updateAt_tags (updated : obj) (selected : list nat) (all : Updates) :
  let tagged (flag : string) (part : option (gmap Path value)) :=
    if truthy (get updated "tags") && truthy (get updated flag)
    then match selected with
         | [] => part
         | _ => Some (foldl (λ m index, <[(index, "tags") := get updated "tags"]> m)
                        (default ∅ part) selected)
         end
    else part in
  addToSet (foldl (updateAt updated) all selected) = tagged "addTags" (addToSet all) ∧
  pullAll (foldl (updateAt updated) all selected) = tagged "deleteTags" (pullAll all).
Proof.
  cbv zeta. revert all. induction selected as [|index rest IH]; intros all; cbn [foldl].
  { by split; destruct (_ && _). }
  destruct (IH (updateAt updated all index)) as [-> ->].
  clear IH. unfold updateAt. cbn [addToSet pullAll].
  split;
    match goal with |- context [truthy ?a && truthy ?b] => destruct (truthy a && truthy b) end;
    try done; by destruct rest.
Qed.

Lemma tagsSent_fold (updated : obj) (flag : string) (sel : list nat) :
  tagsSent updated flag sel
    (if truthy (get updated "tags") && truthy (get updated flag)
     then match sel with
          | [] => None
          | _ => Some (foldl (λ (m : gmap Path value) index,
                                <[(index, "tags") := get updated "tags"]> m) ∅ sel)
          end
     else None).
Proof.
  unfold tagsSent.
  destruct (truthy (get updated "tags") && truthy (get updated flag)); cbn [andb]; [|done].
  destruct sel as [|index rest].
  { by rewrite bool_decide_eq_false_2 by (intros Hne; by apply Hne). }
  rewrite bool_decide_eq_true_2 by done.
  eexists. split; [done|]. intros j f. rewrite foldl_tag_lookup.
  destruct (bool_decide _); [done|apply lookup_empty].
Qed.

(** X10. The tag parts of the update document of [/updatecards]:
    [$addToSet] (for the flag [addTags]) and [$pullAll] (for [deleteTags])
    are present exactly when [tags] and the flag are truthy and an index is
    selected, and then hold the sent tags at the [tags] path of every
    selected index and nothing else. *)
Theorem updatecards_tags (req : UpdateCards) (db : Cubes) (updates : Updates) :
  (updatecards req db).2 = Some updates →
  ∃ updated, ucs_updated req = Some updated ∧
    tagsSent updated "addTags" (indices (ucs_selected req)) (addToSet updates) ∧
    tagsSent updated "deleteTags" (indices (ucs_selected req)) (pullAll updates).
Proof.
  destruct (updatecards req db) as [resp sent] eqn:Hrun. cbn [snd]. intros ->.
  apply updatecards_sent in Hrun as (updated & Hupdated & _ & _ & ->).
  exists updated. split; [done|].
  unfold allUpdates, tagsSent.
  destruct (foldl_updateAt_tags updated (indices (ucs_selected req))
              {| set_ := ∅; addToSet := None; pullAll := None |}) as [-> ->].
  cbn [addToSet pullAll default].
  split; apply tagsSent_fold.
Qed.

End CubeCardsFurther.

Section CubeCardsFurtherExamples.
Import Js CubeCards CubeCardsTerms.

Lemma updatecard_touches_one_card_witness :
  (∃ cube', (@updatecard sampleImports sampleUpdate sampleCubes).2 !! "cube1" = Some cube' ∧
     length (cards cube') = 2 ∧ cards cube' !! 0 = Some hound) ∧
  (@updatecard sampleImports sampleUpdate sampleCubes).2 !! "cube2" = None.
Proof.
  destruct (@updatecard_touches_one_card sampleImports sampleUpdate sampleCubes)
    as (Hother & _ & Hcube).
  split.
  - destruct (Hcube {| owner := 1%N; cards := [hound; hound]; type := VStr "Vintage" |})
      as (cube' & Hcube' & _ & Hlen & Hcards); [reflexivity|].
    exists cube'. split; [exact Hcube'|]. split; [exact Hlen|].
    apply (Hcards 0). discriminate.
  - rewrite Hother; [reflexivity | discriminate].
Defined.

Lemma updatecard_merges_fields_witness :
  ∃ cube' stored,
    (@updatecard sampleImports sampleUpdate sampleCubes).2 !! "cube1" = Some cube' ∧
    cards cube' !! 1 = Some stored ∧
    stored !! "status" = Some (VStr "Owned") ∧ stored !! "cmc" = None ∧
    stored !! "index" = None.
Proof.
  destruct (@updatecard_merges_fields sampleImports sampleUpdate sampleCubes)
    as (src & index & i & cube & card & updated & cube' & stored & _ & _ & Hi & Hupdated
        & _ & _ & Hcube' & Hstored & Hkeys); [reflexivity|].
  injection Hi as <-. injection Hupdated as <-.
  exists cube', stored. split; [exact Hcube'|]. split; [exact Hstored|].
  rewrite !Hkeys. repeat split; reflexivity.
Defined.

Lemma updatecards_sets_truthy_fields_witness :
  ∃ updates, (@updatecards sampleImports sampleRestatus sampleCubes).2 = Some updates ∧
    set_ updates !! (1, "status") = Some (VStr "Owned") ∧
    set_ updates !! (1, "cmc") = None ∧
    set_ updates !! (0, "status") = None.
Proof.
  eexists. split; [reflexivity|].
  destruct (@updatecards_sets_truthy_fields sampleImports sampleRestatus sampleCubes _
              eq_refl) as (updated & Hupdated & Hset).
  injection Hupdated as <-.
  rewrite !Hset by discriminate. repeat split; reflexivity.
Defined.

Lemma updatecards_tags_witness :
  ∃ updates m, (@updatecards sampleImports sampleRestatus sampleCubes).2 = Some updates ∧
    addToSet updates = Some m ∧ m !! (1, "tags") = Some (VArr [VStr "New"]) ∧
    m !! (0, "tags") = None ∧ pullAll updates = None.
Proof.
  destruct (@updatecards_tags sampleImports sampleRestatus sampleCubes _ eq_refl)
    as (updated & Hupdated & Hadd & Hpull).
  injection Hupdated as <-.
  destruct Hadd as (m & Hm & Hlookup).
  eexists _, m. split; [reflexivity|]. split; [exact Hm|].
  rewrite !Hlookup. repeat split; first [exact Hpull | reflexivity].
Defined.

End CubeCardsFurtherExamples.

(* ===================================================================== *)
(** ** The store and the answer of a redraft                              *)
(* ===================================================================== *)

Section RedraftFurther.
Import Js Redraft.
Context `{Imports}.

(** The ratings the handler overrides the card index with. *)
Lemma redraft_sent (req : Request) (db : Db) (sent : Draft) (db' : Db) :
  redraft req db = (Sent sent, db') →
  ∃ id srcDraft draft c,
    castObjectId (params_id req) = Some id ∧ drafts db !! id = Some srcDraft ∧
    build srcDraft (parseInt (params_seat req)) (user req) = Some draft ∧
    cubes db !! cube srcDraft = Some c ∧
    db' = save (newId db) draft db ∧
    sent = withCards
             (insertDetails
                (if useCubeElo c
                 then match analytics db !! cube srcDraft with
                      | Some entries => fromEntries entries
                      | None => ∅
                      end
                 else ∅) <$> cards draft) draft.
Proof.
  unfold redraft.
  destruct (castObjectId (params_id req)) as [id|]; [|done].
  destruct (drafts db !! id) as [srcDraft|] eqn:Hsrc; [|done].
  destruct (_ || _); [done|].
  destruct (isCubeViewable _ _); [|done]. cbn [negb].
  destruct (build _ _ _) as [draft|] eqn:Hbuild; [|done].
  destruct (cubes db !! cube srcDraft) as [c|] eqn:Hc; [|done].
  cbn [drafts save analytics]. rewrite lookup_insert_eq.
  intros [= <- <-]. by exists id, srcDraft, draft, c.
Qed.

Lemma build_copies (srcDraft draft : Draft) (seat : number) (viewer : option User) :
  build srcDraft seat viewer = Some draft →
  cube draft = cube srcDraft ∧ cards draft = cards srcDraft.
Proof.
  unfold build. intros Hbuild.
  repeat match type of Hbuild with
         | (?m ≫= _) = Some _ => destruct m; cbn [mbind option_bind] in Hbuild; [|done]
         end.
  by injection Hbuild as <-.
Qed.

Lemma fromEntries_elem_of (entries : list (string * Z)) (name : string) (e : Z) :
  fromEntries entries !! name = Some e → (name, e) ∈ entries.
Proof.
  unfold fromEntries. intros Hin%elem_of_list_to_map_2. by apply elem_of_reverse.
Qed.

(** X11. Whatever the request, a redraft leaves the cubes, the analytics
    and every stored draft as they are; what it adds is at most one draft,
    under an identifier no stored draft had. *)
Theorem redraft_only_adds (req : Request) (db : Db) :
  let db' := (redraft req db).2 in
  cubes db' = cubes db ∧ analytics db' = analytics db ∧
  drafts db !! newId db = None ∧
  ∀ id, id ≠ newId db → drafts db' !! id = drafts db !! id.
Proof.
  cbv zeta. pose proof (newId_fresh db) as Hfresh.
  destruct (redraft_changes req db) as [->|[draft ->]]; [done|].
  cbn [cubes analytics drafts save]. repeat split; [done|].
  intros id Hne. by rewrite lookup_insert_ne.
Qed.

(** X12. The draft in the answer of a redraft carries, card by card, the
    card index's details for the source draft's cards. A card's rating is
    the index's own unless the cube uses its own ratings and its analytics
    hold a rating other than 0 for the card's name. The draft that was
    stored keeps the source's cards as they were. *)
Theorem redraft_card_details (req : Request) (db : Db) (sent : Draft) (db' : Db) :
  redraft req db = (Sent sent, db') →
  ∃ id srcDraft c stored,
    castObjectId (params_id req) = Some id ∧ drafts db !! id = Some srcDraft ∧
    cubes db !! cube srcDraft = Some c ∧
    drafts db' !! newId db = Some stored ∧ cards stored = cards srcDraft ∧
    length (cards sent) = length (cards srcDraft) ∧
    ∀ i card, cards srcDraft !! i = Some card →
      ∃ d, cards sent !! i = Some {| cardID := cardID card; details := Some d |} ∧
        name_lower d = name_lower (cardFromId (cardID card)) ∧
        (elo d = elo (cardFromId (cardID card)) ∨
         (elo d ≠ 0%Z ∧ useCubeElo c = true ∧
          ∃ entries, analytics db !! cube srcDraft = Some entries ∧
            (name_lower d, elo d) ∈ entries)).
Proof.
  intros (id & srcDraft & draft & c & Hid & Hsrc & Hbuild & Hc & -> & ->)%redraft_sent.
  apply build_copies in Hbuild as [_ Hcards].
  exists id, srcDraft, c, draft. repeat (split; [done|]).
  split; [cbn [drafts save]; by rewrite lookup_insert_eq|].
  split; [done|]. cbn [cards withCards]. rewrite Hcards.
  split; [by rewrite length_fmap|].
  intros i card Hcard. rewrite list_lookup_fmap, Hcard. cbn [fmap option_fmap option_map].
  unfold insertDetails.
  destruct (_ !! name_lower (cardFromId (cardID card))) as [e|] eqn:He.
  2:{ eexists. split; [done|]. by split; [|left]. }
  destruct (Z.eqb_spec e 0) as [->|Hnz].
  { eexists. split; [done|]. by split; [|left]. }
  eexists. split; [done|]. split; [done|]. right. cbn [elo name_lower].
  split; [done|].
  destruct (useCubeElo c); [|by rewrite lookup_empty in He].
  split; [done|].
  destruct (analytics db !! cube srcDraft) as [entries|]; [|by rewrite lookup_empty in He].
  exists entries. split; [done|]. by apply fromEntries_elem_of.
Qed.

Lemma redraftedSeat_idemp (viewer : option User) (j : nat) (s : Seat) :
  redraftedSeat viewer j (redraftedSeat viewer j s) = redraftedSeat viewer j s.
Proof. unfold redraftedSeat. by destruct (decide (j = 0)). Qed.

Lemma redrafted_again (srcDraft : Draft) (k : nat) (viewer : option User) :
  redrafted (redrafted srcDraft k viewer) 0 viewer = redrafted srcDraft k viewer.
Proof.
  unfold redrafted. cbn [cube seats basics initial_state cards]. f_equal.
  rewrite drop_0, take_0, app_nil_r.
  apply list_eq. intros j. rewrite !list_lookup_imap.
  destruct (_ !! j) as [s|]; [|done]. cbn. by rewrite redraftedSeat_idemp.
Qed.

(** X13. Redrafting the draft a redraft has just stored, from its seat 0
    and by the same viewer, stores a second copy of it and answers with
    the same draft: the second redraft changes nothing about the first. *)
Theorem redraft_again_copies (req again : Request) (db : Db) id (srcDraft : Draft)
    (k : nat) (c : Cube) :
  castObjectId (params_id req) = Some id → drafts db !! id = Some srcDraft →
  parseInt (params_seat req) = ofNat k → k < length (seats srcDraft) →
  cubes db !! cube srcDraft = Some c → isCubeViewable (Some c) (user req) = true →
  castObjectId (params_id again) = Some (newId db) →
  parseInt (params_seat again) = ofNat 0 → user again = user req →
  ∃ draft sent,
    redraft req db = (Sent sent, save (newId db) draft db) ∧
    let db' := save (newId db) draft db in
    redraft again db' = (Sent sent, save (newId db') draft db').
Proof.
  intros Hid Hsrc Hseat Hk Hc Hview Hid' Hseat' Huser.
  destruct (redraft_valid req db id srcDraft k c Hid Hsrc Hseat Hk Hc Hview)
    as [overrides Hrun].
  remember (redrafted srcDraft k (user req)) as draft eqn:Hdraft.
  remember (save (newId db) draft db) as db' eqn:Hdb'.
  assert (drafts db' !! newId db = Some draft) as Hstored.
  { subst db'. cbn [drafts save]. by rewrite lookup_insert_eq. }
  assert (cube draft = cube srcDraft) as Hcube by by subst draft.
  assert (cubes db' = cubes db ∧ analytics db' = analytics db) as [Hcubes Hanalytics]
    by by subst db'.
  destruct (redraft_valid again db' (newId db) draft 0 c Hid' Hstored Hseat')
    as [overrides' Hrun'].
  { subst draft. unfold redrafted. cbn [seats].
    rewrite length_imap, length_app, length_drop, length_take. lia. }
  { by rewrite Hcubes, Hcube. }
  { by rewrite Huser. }
  rewrite Huser in Hrun'.
  assert (redrafted draft 0 (user req) = draft) as Hagain
    by (subst draft; apply redrafted_again).
  rewrite Hagain in Hrun'.
  exists draft, (withCards (insertDetails overrides <$> cards srcDraft) draft).
  split; [by rewrite Hrun, Hdb'|]. cbv zeta. rewrite <- Hdb', Hrun'. f_equal. f_equal.
  pose proof (redraft_sent _ _ _ _ Hrun)
    as (id1 & src1 & d1 & c1 & Hid1 & Hsrc1 & [_ Hd1]%build_copies & Hc1 & _ & Hsent1).
  pose proof (redraft_sent _ _ _ _ Hrun')
    as (id2 & src2 & d2 & c2 & Hid2 & Hsrc2 & [_ Hd2]%build_copies & Hc2 & _ & Hsent2).
  assert (id1 = id) as -> by congruence. assert (src1 = srcDraft) as -> by congruence.
  assert (c1 = c) as -> by congruence.
  assert (id2 = newId db) as -> by congruence.
  assert (src2 = draft) as -> by congruence.
  rewrite Hcubes, Hcube in Hc2. assert (c2 = c) as -> by congruence.
  rewrite Hanalytics, Hcube in Hsent2.
  apply (f_equal cards) in Hsent1, Hsent2. cbn [cards withCards] in Hsent1, Hsent2.
  assert (cards draft = cards srcDraft) as Hcards by by subst draft.
  rewrite Hd1 in Hsent1. rewrite Hd2 in Hsent2. rewrite Hcards in Hsent2 |- *.
  congruence.
Qed.

End RedraftFurther.

Section RedraftFurtherExamples.
Import Js Redraft.

Lemma redraft_card_details_witness :
  ∃ sent db', @redraft sampleImports
      {| params_id := "40"; params_seat := "2"; user := Some viewer |} sampleDb
      = (Sent sent, db') ∧
    cards sent !! 0 =
      Some {| cardID := "c0"; details := Some {| name_lower := "c0"; elo := 1200 |} |} ∧
    (cards <$> drafts db' !! 42%N) = Some samplePool.
Proof.
  eexists _, _. split; [reflexivity|].
  destruct (@redraft_card_details sampleImports
              {| params_id := "40"; params_seat := "2"; user := Some viewer |} sampleDb _ _
              eq_refl)
    as (id & srcDraft & c & stored & Hid & Hsrc & Hc & Hstored & Hcards & Hlen & Hdetails).
  injection Hid as <-. injection Hsrc as <-.
  split; [reflexivity|]. reflexivity.
Defined.

Lemma redraft_again_copies_witness :
  ∃ draft sent,
    @redraft sampleImports {| params_id := "40"; params_seat := "2"; user := Some viewer |}
      sampleDb = (Sent sent, save (newId sampleDb) draft sampleDb) ∧
    let db' := save (newId sampleDb) draft sampleDb in
    @redraft sampleImports {| params_id := "42"; params_seat := "0"; user := Some viewer |} db'
      = (Sent sent, save (newId db') draft db').
Proof.
  apply (@redraft_again_copies sampleImports
           {| params_id := "40"; params_seat := "2"; user := Some viewer |}
           {| params_id := "42"; params_seat := "0"; user := Some viewer |}
           sampleDb 40%N finishedDraft 2 {| useCubeElo := false |});
    [reflexivity | reflexivity | reflexivity | cbn; lia | reflexivity | reflexivity
    | reflexivity | reflexivity | reflexivity].
Defined.

End RedraftFurtherExamples.

(* ===================================================================== *)
(** ** What the settings of a cube can become                             *)
(* ===================================================================== *)

Section CubeSettingsProperties.
Import Js CubeSettings.
Context `{Imports}.

Lemma assignField_flags (update : obj) (cube : Cube) (field : string) :
  let cube' := assignField update cube field in
  owner cube' = owner cube ∧ isListed cube' = isListed cube ∧
  isPrivate cube' = isPrivate cube ∧ isFeatured cube' = isFeatured cube.
Proof. unfold assignField. by destruct (isUndefined _). Qed.

Lemma foldl_assignField_flags (update : obj) (names : list string) (cube : Cube) :
  let cube' := foldl (assignField update) cube names in
  owner cube' = owner cube ∧ isListed cube' = isListed cube ∧
  isPrivate cube' = isPrivate cube ∧ isFeatured cube' = isFeatured cube.
Proof.
  cbv zeta. revert cube. induction names as [|name names IH]; intros cube; [done|].
  cbn [foldl]. destruct (IH (assignField update cube name)) as (-> & -> & -> & ->).
  apply assignField_flags.
Qed.

Lemma foldl_assignField_fields (update : obj) (names : list string) (cube : Cube)
    (field : string) :
  fields (foldl (assignField update) cube names) !! field =
    if bool_decide (field ∈ names) && negb (isUndefined (get update field))
    then Some (get update field)
    else fields cube !! field.
Proof.
  revert cube. induction names as [|name names IH]; intros cube; [done|].
  cbn [foldl]. rewrite IH.
  destruct (bool_decide (field ∈ names)) eqn:Hin; cbn [andb].
  - apply bool_decide_eq_true in Hin.
    rewrite (bool_decide_eq_true_2 (field ∈ name :: names)) by by right. cbn [andb].
    destruct (isUndefined (get update field)) eqn:Hundef; cbn [negb]; [|done].
    unfold assignField. destruct (isUndefined (get update name)) eqn:Hname; [done|].
    cbn [fields withFields]. rewrite lookup_insert_ne; [done|]. congruence.
  - apply bool_decide_eq_false in Hin. unfold assignField.
    destruct (decide (field = name)) as [->|Hne].
    + rewrite (bool_decide_eq_true_2 (name ∈ name :: names)) by by left. cbn [andb].
      destruct (isUndefined (get update name)); cbn [negb]; [done|].
      cbn [fields withFields]. by rewrite lookup_insert_eq.
    + rewrite (bool_decide_eq_false_2 (field ∈ name :: names)).
      2:{ intros [?|?]%elem_of_cons; tauto. }
      cbn [andb]. destruct (isUndefined (get update name)); [done|].
      cbn [fields withFields]. by rewrite lookup_insert_ne.
Qed.

Lemma applyVisibility_keeps (visibility : value) (cube : Cube) :
  let cube' := (applyVisibility visibility cube).1 in
  owner cube' = owner cube ∧ isFeatured cube' = isFeatured cube ∧ fields cube' = fields cube.
Proof.
  unfold applyVisibility. destruct visibility as [| |b|x|v|xs]; try done.
  repeat (destruct (String.eqb _ _)); try done. by destruct (_ || _).
Qed.

Lemma applyVisibility_flags (visibility : value) (cube : Cube) :
  let cube' := (applyVisibility visibility cube).1 in
  (isListed cube' = true → isPrivate cube' = true →
     isListed cube = true ∧ isPrivate cube = true) ∧
  (isPrivate cube' = true → isPrivate cube = false →
     visibility = VStr "private" ∧ isFeatured cube = false ∧ isInFeaturedQueue cube = false).
Proof.
  unfold applyVisibility.
  destruct visibility as [| |b|x|v|xs]; cbn [fst];
    try (split; [done | intros Hp Hn; congruence]).
  destruct (String.eqb_spec v "private") as [->|_].
  { destruct (isFeatured cube) eqn:Hf; cbn [orb fst];
      [split; [done | intros Hp Hn; congruence]|].
    destruct (isInFeaturedQueue cube) eqn:Hq; cbn [orb fst];
      [split; [done | intros Hp Hn; congruence]|].
    cbn. by split. }
  repeat (destruct (String.eqb _ _)); cbn; split; try done; intros Hp Hn; congruence.
Qed.

Lemma sanitized_get (body : obj) (field : string) :
  get (sanitized body) field =
    if bool_decide (field ∈ ["privatePrices"; "disableNotifications"])
    then toBoolean (get body field)
    else get body field.
Proof.
  unfold sanitized, get.
  destruct (decide (field = "disableNotifications")) as [->|Hd].
  { by rewrite lookup_insert_eq. }
  rewrite lookup_insert_ne by done.
  destruct (decide (field = "privatePrices")) as [->|Hp].
  { by rewrite lookup_insert_eq. }
  rewrite lookup_insert_ne by done.
  rewrite bool_decide_eq_false_2; [done|].
  intros [->|[->|[]%elem_of_nil]%elem_of_cons]%elem_of_cons; done.
Qed.

(** The validators read fields the sanitizers leave alone. *)
Lemma validationErrors_sanitized (body : obj) :
  validationErrors (sanitized body) = validationErrors body.
Proof. unfold validationErrors. by rewrite !sanitized_get. Qed.

(** The ways the handler ends. *)
Lemma settingsHandler_outcomes (user : CubeCards.User) (id : string) (update : obj)
    (db : Cubes) :
  (∃ resp, settingsHandler user id update db = (resp, [], db) ∧
     resp ≠ CubeCards.Sent 200 true None) ∨
  (∃ cube, db !! id = Some cube ∧
     isCubeViewable (Some cube) user = true ∧
     CubeCards._id user = owner cube ∧
     let changed :=
       applyVisibility (get update "visibility")
         (foldl (assignField update) cube settingsFields) in
     settingsHandler user id update db =
       (CubeCards.Sent 200 true None, changed.2, <[id := changed.1]> db)).
Proof.
  unfold settingsHandler.
  destruct (db !! id) as [cube|] eqn:Hcube.
  2:{ left. destruct (isCubeViewable _ _); cbn [negb]; eauto. }
  destruct (isCubeViewable _ _) eqn:Hview; cbn [negb]; [|left; eauto].
  destruct (N.eqb _ _) eqn:Howner; cbn [negb]; [|left; eauto].
  right. exists cube. apply N.eqb_eq in Howner. repeat (split; [done|]).
  cbv zeta. by destruct (applyVisibility _ _).
Qed.

(** The ways a request to [/settings] ends: refused by the chain, refused
    by the handler, or stored. *)
Lemma settings_outcomes (req : Settings) (db : Cubes) :
  (∃ answer, settings req db = (answer, [], db) ∧
     answer ≠ Answered (CubeCards.Sent 200 true None)) ∨
  (validationErrors (s_body req) = [] ∧
   ∃ cube, db !! s_id req = Some cube ∧
     isCubeViewable (Some cube) (s_user req) = true ∧
     CubeCards._id (s_user req) = owner cube ∧
     let changed :=
       applyVisibility (get (s_body req) "visibility")
         (foldl (assignField (sanitized (s_body req))) cube settingsFields) in
     settings req db =
       (Answered (CubeCards.Sent 200 true None), changed.2, <[s_id req := changed.1]> db)).
Proof.
  unfold settings. cbv zeta. rewrite validationErrors_sanitized.
  destruct (validationErrors (s_body req)) as [|e errors] eqn:Hvalid.
  2:{ left. eexists. split; [done|]. done. }
  destruct (settingsHandler_outcomes (s_user req) (s_id req) (sanitized (s_body req)) db)
    as [(resp & -> & Hfail)|(cube & Hcube & Hview & Howner & Hrun)].
  { left. eexists. split; [done|]. intros [= ->]. by apply Hfail. }
  right. split; [done|]. exists cube. repeat (split; [done|]).
  cbv zeta in Hrun |- *. rewrite Hrun.
  rewrite sanitized_get. by rewrite bool_decide_eq_false_2
    by (intros [?|[?|[]%elem_of_nil]%elem_of_cons]%elem_of_cons; done).
Qed.

(** X14. Whatever the request, [/settings] keeps a cube's owner and its
    featured indicator, never leaves a cube both listed and private that
    was not so before, and makes a cube private only for its owner, on the
    visibility [private], and when the cube is neither featured nor in the
    featured queue. *)
Theorem settings_visibility_sound (req : Settings) (db : Cubes) (key : string)
    (cube' : Cube) :
  (settings req db).2 !! key = Some cube' →
  ∃ cube, db !! key = Some cube ∧
    owner cube' = owner cube ∧ isFeatured cube' = isFeatured cube ∧
    (isListed cube' = true → isPrivate cube' = true →
       isListed cube = true ∧ isPrivate cube = true) ∧
    (isPrivate cube' = true → isPrivate cube = false →
       key = s_id req ∧ CubeCards._id (s_user req) = owner cube ∧
       get (s_body req) "visibility" = VStr "private" ∧
       isFeatured cube = false ∧ isInFeaturedQueue (withFields (fields cube') cube) = false).
Proof.
  destruct (settings_outcomes req db)
    as [(answer & -> & _)|(_ & cube & Hcube & Hview & Howner & Hrun)].
  { cbn [snd]. intros Hkey. exists cube'. split; [done|]. repeat split; congruence. }
  cbv zeta in Hrun.
  set (filled := foldl (assignField (sanitized (s_body req))) cube settingsFields) in *.
  set (changed := applyVisibility (get (s_body req) "visibility") filled) in *.
  rewrite Hrun. cbn [snd]. destruct (decide (key = s_id req)) as [->|Hne].
  2:{ rewrite lookup_insert_ne by done. intros Hkey. exists cube'.
      split; [done|]. repeat split; congruence. }
  rewrite lookup_insert_eq. intros Heq.
  assert (cube' = changed.1) as -> by congruence. clear Heq.
  exists cube. split; [done|].
  destruct (foldl_assignField_flags (sanitized (s_body req)) settingsFields cube)
    as (Ho & Hl & Hp & Hf). fold filled in Ho, Hl, Hp, Hf.
  destruct (applyVisibility_keeps (get (s_body req) "visibility") filled) as (Ho' & Hf' & Hfs).
  destruct (applyVisibility_flags (get (s_body req) "visibility") filled) as [Hboth Hprivate].
  fold changed in Ho', Hf', Hfs, Hboth, Hprivate.
  split; [congruence|]. split; [congruence|]. split.
  - intros Hl' Hp'. rewrite <- Hl, <- Hp. by apply Hboth.
  - intros Hp' Hwas. rewrite <- Hp in Hwas.
    destruct (Hprivate Hp' Hwas) as (Hv & Hnf & Hnq).
    repeat (split; [done|]). split; [congruence|].
    rewrite Hfs. replace (withFields (fields filled) cube) with filled; [done|].
    destruct filled. cbn in *. unfold withFields. cbn. congruence.
Qed.

(** X15. A request to [/settings] that the validation chain or the handler
    refuses changes nothing and flashes nothing. One answered with success
    has passed the three validators and writes five fields and no other:
    [privatePrices] and [disableNotifications] as the sanitizer
    [toBoolean] leaves them, also when the body lacks them, and
    [defaultStatus], [defaultPrinting] and [useCubeElo] as the body has
    them; a field whose value is [undefined] keeps the cube's value. Other
    cubes are untouched. *)
Theorem settings_copies_listed_fields (req : Settings) (db : Cubes) answer flashes
    (db' : Cubes) :
  settings req db = (answer, flashes, db') →
  (∀ key, key ≠ s_id req → db' !! key = db !! key) ∧
  (answer ≠ Answered (CubeCards.Sent 200 true None) → db' = db ∧ flashes = []) ∧
  (answer = Answered (CubeCards.Sent 200 true None) →
     validationErrors (s_body req) = [] ∧
     ∃ cube cube', db !! s_id req = Some cube ∧ db' !! s_id req = Some cube' ∧
       CubeCards._id (s_user req) = owner cube ∧
       ∀ field,
         let written :=
           if bool_decide (field ∈ ["privatePrices"; "disableNotifications"])
           then toBoolean (get (s_body req) field)
           else get (s_body req) field in
         fields cube' !! field =
           if bool_decide (field ∈ settingsFields) && negb (isUndefined written)
           then Some written
           else fields cube !! field).
Proof.
  destruct (settings_outcomes req db)
    as [(answer0 & -> & Hfail)|(Hvalid & cube & Hcube & Hview & Howner & Hrun)].
  { intros [= <- <- <-]. repeat split; done. }
  cbv zeta in Hrun.
  set (changed := applyVisibility (get (s_body req) "visibility")
                    (foldl (assignField (sanitized (s_body req))) cube settingsFields)) in *.
  rewrite Hrun. intros Heq.
  assert (answer = Answered (CubeCards.Sent 200 true None) ∧
          db' = <[s_id req := changed.1]> db) as [-> ->] by (split; congruence).
  clear Heq.
  split; [intros key Hne; by rewrite lookup_insert_ne|].
  split; [done|]. intros _. split; [done|].
  exists cube, changed.1. split; [done|]. split; [by rewrite lookup_insert_eq|].
  split; [done|]. intros field. cbv zeta.
  destruct (applyVisibility_keeps (get (s_body req) "visibility")
              (foldl (assignField (sanitized (s_body req))) cube settingsFields))
    as (_ & _ & Hfs).
  fold changed in Hfs. rewrite Hfs, foldl_assignField_fields.
  by rewrite sanitized_get.
Qed.

(** X16. The owner's request to make a featured cube private, when it
    passes the validators, is answered with success all the same: the
    refusal is only flashed, the cube keeps its visibility, and the other
    settings of the body are stored. *)
Theorem settings_refuses_private_for_featured (req : Settings) (db : Cubes) (cube : Cube) :
  validationErrors (s_body req) = [] →
  db !! s_id req = Some cube → isCubeViewable (Some cube) (s_user req) = true →
  CubeCards._id (s_user req) = owner cube → isFeatured cube = true →
  get (s_body req) "visibility" = VStr "private" →
  ∃ cube',
    settings req db =
      (Answered (CubeCards.Sent 200 true None), [refusal], <[s_id req := cube']> db) ∧
    isListed cube' = isListed cube ∧ isPrivate cube' = isPrivate cube ∧
    cube' = foldl (assignField (sanitized (s_body req))) cube settingsFields.
Proof.
  intros Hvalid Hcube Hview Howner Hfeatured Hvisibility.
  destruct (settings_outcomes req db)
    as [(answer & Hrun & Hfail)|(_ & cube0 & Hcube0 & _ & _ & Hrun)].
  { exfalso. revert Hrun Hfail. unfold settings. cbv zeta.
    rewrite validationErrors_sanitized, Hvalid. unfold settingsHandler.
    rewrite Hcube, Hview, Howner, N.eqb_refl. cbn [negb].
    destruct (applyVisibility _ _). intros [= <- _ _]. by intros []. }
  assert (cube0 = cube) as -> by congruence.
  cbv zeta in Hrun. rewrite Hvisibility in Hrun.
  destruct (foldl_assignField_flags (sanitized (s_body req)) settingsFields cube)
    as (_ & Hl & Hp & Hf).
  unfold applyVisibility in Hrun. cbn [String.eqb Ascii.eqb Bool.eqb] in Hrun.
  rewrite Hf, Hfeatured in Hrun. cbn [orb fst snd] in Hrun.
  eexists. split; [exact Hrun|]. done.
Qed.

End CubeSettingsProperties.

Section CubeSettingsExamples.
Import Js CubeSettings.

Lemma settings_visibility_sound_witness :
  ∃ cube', (@settings sampleImports (makePrivate 2 "queued") sampleCubes).2 !! "queued"
             = Some cube' ∧
    owner cube' = 2%N ∧ isPrivate cube' = false.
Proof.
  eexists. split; [reflexivity|].
  destruct (@settings_visibility_sound sampleImports (makePrivate 2 "queued") sampleCubes
              "queued" _ eq_refl) as (cube & Hcube & Howner & _ & _ & Hprivate).
  injection Hcube as <-. split; [exact Howner|].
  match goal with |- ?b = false => destruct b eqn:Hb; [|reflexivity] end.
  destruct (Hprivate eq_refl eq_refl) as (_ & _ & _ & _ & Hqueue). discriminate Hqueue.
Defined.

Lemma settings_copies_listed_fields_witness :
  (∃ cube', (@settings sampleImports (makePrivate 1 "mine") sampleCubes).2 !! "mine"
              = Some cube' ∧
     fields cube' !! "defaultStatus" = Some (VStr "Not Owned") ∧
     fields cube' !! "privatePrices" = Some (VBool false) ∧
     fields cube' !! "owner" = None ∧
     fields cube' !! "name" = Some (VStr "Mine")) ∧
  @settings sampleImports (makePrivateOnly 1 "mine") sampleCubes =
    (Invalid ["Printing must be valid."], [], sampleCubes).
Proof.
  split.
  - destruct (@settings_copies_listed_fields sampleImports (makePrivate 1 "mine") sampleCubes
                _ _ _ eq_refl) as (_ & _ & Hsent).
    destruct (Hsent eq_refl) as (_ & cube & cube' & Hcube & Hcube' & _ & Hfields).
    injection Hcube as <-. exists cube'. split; [exact Hcube'|].
    cbv zeta in Hfields. rewrite !Hfields. repeat split; reflexivity.
  - reflexivity.
Defined.

Lemma settings_refuses_private_for_featured_witness :
  ∃ cube',
    @settings sampleImports (makePrivate 1 "mine")
      (<["mine" := {| owner := 1%N; isListed := true; isPrivate := false; isFeatured := true;
                      fields := ∅ |}]> sampleCubes)
    = (Answered (CubeCards.Sent 200 true None), [refusal],
       <["mine" := cube']>
         (<["mine" := {| owner := 1%N; isListed := true; isPrivate := false;
                         isFeatured := true; fields := ∅ |}]> sampleCubes)) ∧
    isPrivate cube' = false.
Proof.
  destruct (@settings_refuses_private_for_featured sampleImports (makePrivate 1 "mine")
              (<["mine" := {| owner := 1%N; isListed := true; isPrivate := false;
                              isFeatured := true; fields := ∅ |}]> sampleCubes)
              {| owner := 1%N; isListed := true; isPrivate := false; isFeatured := true;
                 fields := ∅ |})
    as (cube' & Hrun & _ & Hprivate & _); [reflexivity..|].
  exists cube'. split; [exact Hrun|exact Hprivate].
Defined.

End CubeSettingsExamples.

(* ===================================================================== *)
(** ** What an edit of a maybeboard card changes                          *)
(* ===================================================================== *)

Section MaybeboardProperties.
Import Js Maybeboard.
Context `{Imports}.

(** [find] returns the first element that satisfies the predicate. *)
Lemma find_first {A} (p : A → bool) (arr : list A) (i : nat) (x : A) :
  find_ p arr = Some (i, x) →
  arr !! i = Some x ∧ p x = true ∧ ∀ j y, j < i → arr !! j = Some y → p y = false.
Proof.
  revert i. induction arr as [|a arr IH]; intros i; [done|]. cbn [find_].
  destruct (p a) eqn:Ha.
  { intros [= <- <-]. repeat split; [done|]. intros j y Hj. lia. }
  destruct (find_ p arr) as [[i' x']|]; [|done]. cbn. intros [= <- <-].
  destruct (IH i' eq_refl) as (Hx & Hp & Hbefore).
  repeat split; [done..|]. intros [|j] y Hj; cbn.
  - by intros [= <-].
  - apply Hbefore. lia.
Qed.

Lemma foldl_assignField_lookup (updated : obj) (names : list string) (fs : obj)
    (field : string) :
  foldl (assignField updated) fs names !! field =
    if bool_decide (field ∈ names)
    then match updated !! field with
         | Some v => Some v
         | None => fs !! field
         end
    else fs !! field.
Proof.
  revert fs. induction names as [|name names IH]; intros fs; [done|].
  cbn [foldl]. rewrite IH. unfold assignField, hasOwnProperty, get.
  destruct (decide (field = name)) as [->|Hne].
  - rewrite (bool_decide_eq_true_2 (name ∈ name :: names)) by by left.
    destruct (updated !! name) as [v|] eqn:Hv.
    + rewrite (bool_decide_eq_true_2 (is_Some (Some v))) by (by eexists). cbn [default].
      rewrite lookup_insert_eq. by destruct (bool_decide _).
    + rewrite (bool_decide_eq_false_2 (is_Some None)) by (by intros [? ?]).
      by destruct (bool_decide _).
  - assert ((if bool_decide (is_Some (updated !! name))
             then <[name := default VUndefined (updated !! name)]> fs else fs) !! field
            = fs !! field) as ->.
    { destruct (bool_decide (is_Some (updated !! name)));
        [by rewrite lookup_insert_ne|done]. }
    destruct (bool_decide (field ∈ names)) eqn:Hin.
    + apply bool_decide_eq_true in Hin.
      by rewrite (bool_decide_eq_true_2 (field ∈ name :: names)) by by right.
    + apply bool_decide_eq_false in Hin.
      rewrite (bool_decide_eq_false_2 (field ∈ name :: names)); [done|].
      intros [?|?]%elem_of_cons; tauto.
Qed.

(** X17. An edit of a maybeboard card that is not answered with success
    leaves the store alone. One that is changes, in the maybeboard of the
    one cube and for its owner, the first card with the identifier sent and
    no other; of that card it keeps the identifier and writes the fields
    among [cardID], [status], [finish], [cmc], [type_line], [imgUrl],
    [imgBackUrl] and [colors] that the body has, as the body has them
    ([null] included). The card's details come with the answer exactly when
    a [cardID] is sent that is not the card's. *)
Theorem maybe_update_touches_one_card (req : Update) (db : Cubes) resp (db' : Cubes) :
  update req db = (resp, db') →
  (∀ key, key ≠ u_id req → db' !! key = db !! key) ∧
  ((∀ details, resp ≠ Sent 200 true None details) → db' = db) ∧
  (∀ details, resp = Sent 200 true None details →
     ∃ cube cube' id updated position card card',
       u_card req = Some id ∧ u_updated req = Some updated ∧
       db !! u_id req = Some cube ∧ db' !! u_id req = Some cube' ∧
       CubeCards._id (u_user req) = owner cube ∧ owner cube' = owner cube ∧
       maybe cube !! position = Some card ∧ card_id card = id ∧
       (∀ j other, j < position → maybe cube !! j = Some other → card_id other ≠ id) ∧
       maybe cube' = <[position := card']> (maybe cube) ∧ card_id card' = id ∧
       (∀ field, card_fields card' !! field =
          if bool_decide (field ∈ editable)
          then match updated !! field with
               | Some v => Some v
               | None => card_fields card !! field
               end
          else card_fields card !! field) ∧
       details =
         if truthy (get updated "cardID") &&
            negb (strictEquals (get updated "cardID") (get (card_fields card) "cardID"))
         then Some (cardFromId (get updated "cardID"))
         else None).
Proof.
  unfold update.
  destruct (db !! u_id req) as [cube|] eqn:Hcube.
  2:{ destruct (isCubeViewable _ _); intros [= <- <-]; by repeat split. }
  destruct (isCubeViewable _ _); cbn [negb]; [|intros [= <- <-]; by repeat split].
  destruct (N.eqb _ _) eqn:Howner; cbn [negb]; [|intros [= <- <-]; by repeat split].
  apply N.eqb_eq in Howner.
  destruct (find_ _ _) as [[position card]|] eqn:Hfind; [|intros [= <- <-]; by repeat split].
  destruct (u_updated req) as [updated|] eqn:Hupdated; [|intros [= <- <-]; by repeat split].
  apply find_first in Hfind as (Hcard & Hnamed & Hbefore).
  unfold named in Hnamed, Hbefore. destruct (u_card req) as [id|] eqn:Hid; [|done].
  apply N.eqb_eq in Hnamed. cbv zeta.
  remember (foldl (assignField updated) (card_fields card) editable) as fs' eqn:Hfs'.
  intros [= <- <-].
  split; [intros key Hne; by rewrite lookup_insert_ne|].
  split; [intros Hno; exfalso; by eapply Hno|].
  intros details [= <-].
  exists cube, {| owner := owner cube;
                  maybe := <[position := {| card_id := card_id card; card_fields := fs' |}]>
                             (maybe cube) |},
    id, updated, position, card, {| card_id := card_id card; card_fields := fs' |}.
  repeat (split; [done|]). split; [by rewrite lookup_insert_eq|].
  repeat (split; [done|]). split.
  { intros j other Hj Hother Heq. specialize (Hbefore j other Hj Hother).
    apply N.eqb_neq in Hbefore. done. }
  split; [done|]. split; [done|]. cbn [card_fields].
  split; [intros field; subst fs'; apply foldl_assignField_lookup|].
  destruct (truthy (get updated "cardID")) eqn:Htruthy; [|done].
  cbn [andb]. destruct (negb _); [|done]. f_equal. f_equal.
  unfold get at 1. subst fs'. rewrite foldl_assignField_lookup.
  rewrite bool_decide_eq_true_2 by (unfold editable; apply elem_of_cons; by left).
  unfold get in Htruthy |- *. by destruct (updated !! "cardID").
Qed.

End MaybeboardProperties.

Section MaybeboardExamples.
Import Js Maybeboard.

Lemma maybe_update_touches_one_card_witness :
  ∃ cube' card',
    (@update sampleImports sampleUpdate sampleCubes).2 !! "cube1" = Some cube' ∧
    maybe cube' = [bear 5; card'; bear 6] ∧
    card_fields card' !! "cardID" = Some (VStr "grizzly") ∧
    card_fields card' !! "cmc" = Some VNull ∧
    card_fields card' !! "notes" = Some (VStr "foil") ∧
    (@update sampleImports sampleUpdate sampleCubes).1 =
      Sent 200 true None (Some {[ "_id" := VStr "grizzly" ]}).
Proof.
  destruct (@maybe_update_touches_one_card sampleImports sampleUpdate sampleCubes _ _ eq_refl)
    as (_ & _ & Hsent).
  destruct (Hsent _ eq_refl)
    as (cube & cube' & id & updated & position & card & card' & Hid & Hupdated & Hcube
        & Hcube' & _ & _ & Hcard & Hnamed & Hfirst & Hmaybe & _ & Hfields & _).
  injection Hid as <-. injection Hupdated as <-. injection Hcube as <-.
  assert (position = 1) as ->.
  { destruct position as [|[|[|n]]]; cbn in Hcard; try done.
    - injection Hcard as <-. done.
    - exfalso. by apply (Hfirst 1 (bear 6)); [lia| |]. }
  injection Hcard as <-.
  exists cube', card'. split; [exact Hcube'|]. split; [exact Hmaybe|].
  rewrite !Hfields. repeat split; reflexivity.
Defined.

End MaybeboardExamples.

(* ===================================================================== *)
(** ** Content is reviewed once                                           *)
(* ===================================================================== *)

Section ContentReviewProperties.
Import ContentReview.
Context `{Imports}.

(** What a verdict does to the store: nothing, or the new status and the
    time at the content reviewed. *)
Lemma review_store (verdict : Verdict) (kind : Kind) (now : N) (admin : User) (id : ObjectId)
    (contents : gmap ObjectId Content) (users : gmap ObjectId User) :
  let after := (review verdict kind now admin id contents users).2 in
  match contents !! id with
  | Some c =>
      if String.eqb (status c) "inReview"
      then after = <[id := withStatus (verdictStatus verdict) now c]> contents
      else after = contents
  | None => after = contents
  end.
Proof.
  destruct verdict; cbn [review verdictStatus]; unfold publish, removereview;
    (destruct (contents !! id) as [c|]; [|done]);
    (destruct (String.eqb (status c) "inReview"); cbn [negb]; [|done]);
    cbv zeta; by destruct (users !! _).
Qed.

Lemma review_refused (verdict : Verdict) (kind : Kind) (now : N) (admin : User)
    (id : ObjectId) (contents : gmap ObjectId Content) (users : gmap ObjectId User)
    (c : Content) :
  contents !! id = Some c → String.eqb (status c) "inReview" = false →
  review verdict kind now admin id contents users = (refusal verdict kind, contents).
Proof.
  intros Hc Hstatus.
  destruct verdict; cbn [review]; unfold publish, removereview; rewrite Hc, Hstatus;
    cbn [negb]; by destruct kind.
Qed.

(** X18. Content is reviewed once: after a verdict on content that was in
    review, published or declined, whether or not the handler got as far as
    its answer, every later verdict on it is refused and leaves the store
    as it is. The refusal is the redirect to the review page with the
    message "<Kind> not in review" flashed, the kind's name with a capital
    but for a declined podcast ("podcast not in review"); nobody is
    notified or mailed. *)
Theorem content_reviewed_once (first second : Verdict) (kind : Kind) (now later : N)
    (admin moderator : User) (id : ObjectId) (contents : gmap ObjectId Content)
    (users : gmap ObjectId User) (c : Content) :
  contents !! id = Some c → status c = "inReview" →
  let after := (review first kind now admin id contents users).2 in
  review second kind later moderator id after users = (refusal second kind, after) ∧
  refusal second kind =
    Redirected
      [("danger",
        ((match second, kind with Decline, Podcast => "podcast" | _, _ => Noun kind end)
           ++ " not in review")%string)]
      [] (reviewPage kind).
Proof.
  intros Hc Hstatus. cbv zeta.
  pose proof (review_store first kind now admin id contents users) as Hafter.
  cbv zeta in Hafter. rewrite Hc, Hstatus in Hafter. cbn in Hafter. rewrite Hafter.
  split; [|by destruct second, kind].
  apply (review_refused _ _ _ _ _ _ _ (withStatus (verdictStatus first) now c)).
  - by rewrite lookup_insert_eq.
  - by destruct first.
Qed.

(** X19. A verdict changes nothing but the status and the date of the one
    content it names, and only when that content was in review: the status
    becomes [published] or [draft]; owner, title and body stay, and so does
    every other content. *)
Theorem review_changes_status_only (verdict : Verdict) (kind : Kind) (now : N) (admin : User)
    (id : ObjectId) (contents : gmap ObjectId Content) (users : gmap ObjectId User) :
  let after := (review verdict kind now admin id contents users).2 in
  ∀ other, after !! other =
    match contents !! other with
    | Some c =>
        if bool_decide (other = id) && String.eqb (status c) "inReview"
        then Some {| owner := owner c; status := verdictStatus verdict; title := title c;
                     body := body c; date := now |}
        else Some c
    | None => None
    end.
Proof.
  cbv zeta. intros other.
  pose proof (review_store verdict kind now admin id contents users) as Hafter.
  cbv zeta in Hafter.
  destruct (decide (other = id)) as [->|Hne].
  - rewrite bool_decide_eq_true_2 by done. cbn [andb].
    destruct (contents !! id) as [c|] eqn:Hc; [|by rewrite Hafter, Hc].
    destruct (String.eqb (status c) "inReview"); rewrite Hafter; [|done].
    by rewrite lookup_insert_eq.
  - rewrite bool_decide_eq_false_2 by done. cbn [andb].
    assert ((review verdict kind now admin id contents users).2 !! other = contents !! other)
      as ->.
    { destruct (contents !! id) as [c|]; [|by rewrite Hafter].
      destruct (String.eqb (status c) "inReview"); rewrite Hafter; [|done].
      by rewrite lookup_insert_ne. }
    by destruct (contents !! other).
Qed.

(** X20. When the owner of content in review is no user any more, the
    verdict is stored all the same, nobody is notified or mailed, and the
    handler ends in an exception in place of an answer. *)
Theorem review_without_owner (verdict : Verdict) (kind : Kind) (now : N) (admin : User)
    (id : ObjectId) (contents : gmap ObjectId Content) (users : gmap ObjectId User)
    (c : Content) :
  contents !! id = Some c → status c = "inReview" → users !! owner c = None →
  review verdict kind now admin id contents users =
    (Escaped "TypeError: Cannot read property 'email' of null",
     <[id := withStatus (verdictStatus verdict) now c]> contents).
Proof.
  intros Hc Hstatus Howner.
  destruct verdict; cbn [review verdictStatus]; unfold publish, removereview;
    rewrite Hc, Hstatus; cbn [String.eqb Ascii.eqb Bool.eqb negb owner withStatus];
    by rewrite Howner.
Qed.

End ContentReviewProperties.

Section ContentReviewExamples.
Import ContentReview.

Lemma content_reviewed_once_witness :
  let after := (@review sampleImports Publish Podcast 10%N admin 7%N sampleContents
                  sampleUsers).2 in
  @review sampleImports Decline Podcast 11%N admin 7%N after sampleUsers
    = (Redirected [("danger", "podcast not in review")] [] "/admin/reviewpodcasts/0", after).
Proof.
  apply (proj1 (@content_reviewed_once sampleImports Publish Decline Podcast 10%N 11%N admin
                  admin 7%N sampleContents sampleUsers (essay 2) eq_refl eq_refl)).
Defined.

Lemma review_without_owner_witness :
  @review sampleImports Publish Video 10%N admin 8%N sampleContents sampleUsers =
    (Escaped "TypeError: Cannot read property 'email' of null",
     <[8%N := withStatus "published" 10%N (essay 3)]> sampleContents).
Proof.
  apply (@review_without_owner sampleImports Publish Video 10%N admin 8%N sampleContents
           sampleUsers (essay 3)); reflexivity.
Defined.

End ContentReviewExamples.
